(** * Semantic matching backend: vector index store, text projection,
      batch indexing and retrieval fusion.

    A shallow embedding of
    - [ia-services/matching-engine/src/faiss_store.py]   (FAISSVectorStore)
    - [ia-services/matching-engine/src/embeddings_service.py] (TextProcessor)
    - [ia-services/matching-engine/src/matching_service.py] (batch indexing)
    - [ia-services/llm-agent/src/agent_service.py]       (score fusion)

    Conventions of the embedding.
    - Python [dict]s are stdpp [gmap]s; a dict whose iteration order matters
      is kept as the list of its items in insertion order.
    - Floats are idealised as exact rationals [Q]; the only operation that
      leaves the rationals, [np.linalg.norm], is an interface ([Numpy]).
    - A Python call that may raise returns a [result]; a method that mutates
      [self] returns the new store together with its [result]. *)

From Stdlib Require Import QArith Qround.
From stdpp Require Import base option list sorting gmap sets strings.

Local Open Scope string_scope.
Local Open Scope list_scope.
Local Open Scope nat_scope.

(** ** Python runtime *)

Inductive exn : Type :=
| ValueError
| AssertionError
| RuntimeError.

Inductive result (A : Type) : Type :=
| Return (a : A)
| Raise (e : exn).
Arguments Return {A} a.
Arguments Raise {A} e.

#[global] Instance exn_eq_dec : EqDecision exn.
Proof. solve_decision. Defined.

(** A float vector (a 1-D [np.ndarray]). *)
Abbreviation vec := (list Q).

Definition Qlt_bool (x y : Q) : bool := negb (Qle_bool y x).

Module py.

(** [l[:k]] for an int [k]: a negative bound counts from the end. *)
Definition slice_to {A : Type} (l : list A) (k : Z) : list A :=
  if (0 <=? k)%Z then take (Z.to_nat k) l
  else take (length l - Z.to_nat (- k)) l.

(** [sep.join(parts)] *)
Fixpoint join (sep : string) (parts : list string) : string :=
  match parts with
  | [] => ""
  | [p] => p
  | p :: rest => p +:+ sep +:+ join sep rest
  end.

(** [s.startswith(p)] *)
Definition startswith (s p : string) : bool := String.prefix p s.

(** [s[n:]] *)
Fixpoint drop_chars (n : nat) (s : string) : string :=
  match n, s with
  | O, _ => s
  | S n', String _ s' => drop_chars n' s'
  | S _, EmptyString => EmptyString
  end.

(** Truth value of a [str]: the empty string is falsy. *)
Definition truthy (s : string) : bool :=
  match s with EmptyString => false | _ => true end.

(** [c.isspace()] for the characters [str.strip()] removes (ASCII range:
    TAB, LF, VT, FF, CR, FS, GS, RS, US and SPACE). *)
Definition isspace (c : Ascii.ascii) : bool :=
  let n := Ascii.nat_of_ascii c in
  ((9 <=? n) && (n <=? 13)) || ((28 <=? n) && (n <=? 32)).

(** [bool(s.strip())]: some character of [s] is not white space. *)
Fixpoint strip_nonempty (s : string) : bool :=
  match s with
  | EmptyString => false
  | String c s' => negb (isspace c) || strip_nonempty s'
  end.

(** [list.sort(key=..., reverse=True)] and the exact top-k selection share
    one stable descending order: an element is placed before the first later
    element whose key is not strictly larger. *)
Fixpoint insert_desc {A : Type} (key : A -> Q) (x : A) (l : list A) : list A :=
  match l with
  | [] => [x]
  | y :: l' =>
      if Qlt_bool (key x) (key y) then y :: insert_desc key x l'
      else x :: y :: l'
  end.

Definition sort_desc {A : Type} (key : A -> Q) (l : list A) : list A :=
  foldr (insert_desc key) [] l.

End py.

(** ** numpy *)

(** [np.linalg.norm]: the Euclidean norm is not a rational operation, so it
    is an interface of the model. *)
Class Numpy := { linalg_norm : vec -> Q }.

Module np.

(** [vector / norm] *)
Definition divide (vector : vec) (norm : Q) : vec :=
  map (fun x => (x / norm)%Q) vector.

(** [np.array(rows).astype('float32')] for a non-empty list of 1-D arrays:
    a matrix of shape [(n, d)] when every row has [d] entries, [ValueError]
    for a ragged list. The matrix is kept as [d] and its rows. *)
Definition array (rows : list vec) : result (nat * list vec) :=
  match rows with
  | [] => Return (0, [])
  | r :: rest =>
      if forallb (fun r' => length r' =? length r) rest
      then Return (length r, rows)
      else Raise ValueError
  end.

End np.

(** ** faiss.IndexFlatIP: exact inner-product search over a flat array *)

Module faiss.

Record IndexFlatIP : Type := mkIndex {
  d : nat;
  xb : list vec
}.

Definition new (dimension : nat) : IndexFlatIP :=
  {| d := dimension; xb := [] |}.

Definition ntotal (index : IndexFlatIP) : nat := length (xb index).

(** [index.add(x)]: [assert d == self.d], then the rows are appended. *)
Definition add (index : IndexFlatIP) (x : nat * list vec) : result IndexFlatIP :=
  if fst x =? d index
  then Return {| d := d index; xb := xb index ++ snd x |}
  else Raise AssertionError.

Definition inner_product (x y : vec) : Q :=
  foldr Qplus 0%Q (zip_with Qmult x y).

(** One (score, label) pair per stored row, in slot order. *)
Definition scores (index : IndexFlatIP) (q : vec) : list (Q * nat) :=
  imap (fun i x => (inner_product q x, i)) (xb index).

(** [index.search(q.reshape(1, -1), k)]: [assert d == self.d], [assert k > 0];
    the [k] best rows by descending inner product, the earlier slot first
    among equal scores. With [k <= ntotal] no [-1] padding label occurs. *)
Definition search (index : IndexFlatIP) (q : vec) (k : Z) : result (list (Q * nat)) :=
  if negb (length q =? d index) then Raise AssertionError
  else if (k <=? 0)%Z then Raise AssertionError
  else Return (take (Z.to_nat k) (py.sort_desc fst (scores index q))).

End faiss.

(** ** Python dicts built by successive assignment *)

Module pydict.

(** [d = {}; for k, v in items: d[k] = v]: a later item overwrites an
    earlier one with the same key. *)
Definition of_items `{Countable K} {V : Type} (items : list (K * V)) : gmap K V :=
  fold_left (fun m kv => <[fst kv := snd kv]> m) items ∅.

(** [{v: k for k, v in items}] *)
Definition inverted `{Countable V} {K : Type} (items : list (K * V)) : gmap V K :=
  fold_left (fun m kv => <[snd kv := fst kv]> m) items ∅.

End pydict.

(** ** FAISSVectorStore ([faiss_store.py]) *)

Module FAISSVectorStore.

(** The object's fields, plus the content of the two files it writes: the
    index file at [index_path] and the [_mappings.pkl] file next to it. *)
Record store : Type := mkStore {
  dimension : nat;
  index : faiss.IndexFlatIP;
  id_to_index : gmap string nat;
  index_to_id : gmap nat string;
  index_file : option faiss.IndexFlatIP;
  mappings_file : option (gmap string nat * gmap nat string)
}.

(** [__init__] when no index file exists: [_create_new_index]. *)
Definition create (dimension : nat) : store :=
  {| dimension := dimension;
     index := faiss.new dimension;
     id_to_index := ∅;
     index_to_id := ∅;
     index_file := None;
     mappings_file := None |}.

(** [__init__] over the files a store has left behind:
    [_load_or_create_index] reads the index file when it exists, and
    [_load_mappings] the mappings file when it exists (the mappings stay
    empty otherwise); without an index file a new index is created. *)
Definition _load_or_create_index (files : store) : store :=
  match index_file files with
  | Some idx =>
      {| dimension := dimension files;
         index := idx;
         id_to_index :=
           match mappings_file files with Some m => fst m | None => ∅ end;
         index_to_id :=
           match mappings_file files with Some m => snd m | None => ∅ end;
         index_file := index_file files;
         mappings_file := mappings_file files |}
  | None =>
      {| dimension := dimension files;
         index := faiss.new (dimension files);
         id_to_index := ∅;
         index_to_id := ∅;
         index_file := index_file files;
         mappings_file := mappings_file files |}
  end.

(** [f"{index_name}:{doc_id}"] *)
Definition full_id (index_name doc_id : string) : string :=
  index_name +:+ ":" +:+ doc_id.

(** The normalisation written out in [upsert] and in [search]:
    [norm = np.linalg.norm(v); v / norm if norm > 0 else v]. *)
Definition normalize `{Numpy} (vector : vec) : vec :=
  let norm := linalg_norm vector in
  if Qlt_bool 0 norm then np.divide vector norm else vector.

(** [save]: [faiss.write_index] then [_save_mappings]. *)
Definition save (self : store) : store :=
  {| dimension := dimension self;
     index := index self;
     id_to_index := id_to_index self;
     index_to_id := index_to_id self;
     index_file := Some (index self);
     mappings_file := Some (id_to_index self, index_to_id self) |}.

(** The marking loop of [delete]. *)
Fixpoint mark_removed (index_name : string) (ids : list string)
    (id_to_index : gmap string nat) (index_to_id : gmap nat string)
    (indices_to_remove : list nat)
  : gmap string nat * gmap nat string * list nat :=
  match ids with
  | [] => (id_to_index, index_to_id, indices_to_remove)
  | doc_id :: ids' =>
      match id_to_index !! full_id index_name doc_id with
      | Some faiss_idx =>
          mark_removed index_name ids'
            (delete (full_id index_name doc_id) id_to_index)
            (delete faiss_idx index_to_id)
            (indices_to_remove ++ [faiss_idx])
      | None =>
          mark_removed index_name ids' id_to_index index_to_id indices_to_remove
      end
  end.

(** The scan of [_rebuild_index_without_indices]:
    [for faiss_idx in range(self.index.ntotal)], reading row [faiss_idx]
    with [reconstruct]. [new_mappings] is kept as its items in insertion
    order. *)
Fixpoint rebuild_scan (rows : list vec) (faiss_idx : nat)
    (indices_to_remove : list nat) (index_to_id : gmap nat string)
    (all_vectors : list vec) (new_mappings : list (nat * string))
  : list vec * list (nat * string) :=
  match rows with
  | [] => (all_vectors, new_mappings)
  | vector :: rows' =>
      if bool_decide (faiss_idx ∉ indices_to_remove) then
        match index_to_id !! faiss_idx with
        | Some fid =>
            rebuild_scan rows' (S faiss_idx) indices_to_remove index_to_id
              (all_vectors ++ [vector])
              (new_mappings ++ [(length (all_vectors ++ [vector]) - 1, fid)])
        | None =>
            rebuild_scan rows' (S faiss_idx) indices_to_remove index_to_id
              all_vectors new_mappings
        end
      else
        rebuild_scan rows' (S faiss_idx) indices_to_remove index_to_id
          all_vectors new_mappings
  end.

Definition _rebuild_index_without_indices (self : store)
    (indices_to_remove : list nat) : store * result unit :=
  match indices_to_remove with
  | [] => (self, Return tt)
  | _ :: _ =>
      let '(all_vectors, new_mappings) :=
        rebuild_scan (faiss.xb (index self)) 0 indices_to_remove
          (index_to_id self) [] [] in
      match all_vectors with
      | _ :: _ =>
          match np.array all_vectors with
          | Raise e => (self, Raise e)
          | Return vectors_array =>
              match faiss.add (faiss.new (dimension self)) vectors_array with
              | Raise e => (self, Raise e)
              | Return new_index =>
                  ({| dimension := dimension self;
                      index := new_index;
                      id_to_index := pydict.inverted new_mappings;
                      index_to_id := pydict.of_items new_mappings;
                      index_file := index_file self;
                      mappings_file := mappings_file self |}, Return tt)
              end
          end
      | [] =>
          ({| dimension := dimension self;
              index := faiss.new (dimension self);
              id_to_index := ∅;
              index_to_id := ∅;
              index_file := index_file self;
              mappings_file := mappings_file self |}, Return tt)
      end
  end.

Definition delete (self : store) (index_name : string) (ids : list string)
  : store * result unit :=
  match ids with
  | [] => (self, Return tt)
  | _ :: _ =>
      let '(id_to_index', index_to_id', indices_to_remove) :=
        mark_removed index_name ids (id_to_index self) (index_to_id self) [] in
      let self' :=
        {| dimension := dimension self;
           index := index self;
           id_to_index := id_to_index';
           index_to_id := index_to_id';
           index_file := index_file self;
           mappings_file := mappings_file self |} in
      match indices_to_remove with
      | [] => (self', Return tt)
      | _ :: _ => _rebuild_index_without_indices self' indices_to_remove
      end
  end.

(** The mapping loop of [upsert]: [for i, doc_id in enumerate(ids)]. *)
Fixpoint record_ids (index_name : string) (start_idx i : nat) (ids : list string)
    (id_to_index : gmap string nat) (index_to_id : gmap nat string)
  : gmap string nat * gmap nat string :=
  match ids with
  | [] => (id_to_index, index_to_id)
  | doc_id :: ids' =>
      let faiss_idx := start_idx + i in
      record_ids index_name start_idx (S i) ids'
        (<[full_id index_name doc_id := faiss_idx]> id_to_index)
        (<[faiss_idx := full_id index_name doc_id]> index_to_id)
  end.

Definition upsert `{Numpy} (self : store) (index_name : string)
    (ids : list string) (vectors : list vec) : store * result unit :=
  match ids, vectors with
  | [], _ | _, [] => (self, Return tt)
  | _ :: _, _ :: _ =>
      if negb (length ids =? length vectors) then (self, Raise ValueError)
      else
        let normalized_vectors := map normalize vectors in
        match np.array normalized_vectors with
        | Raise e => (self, Raise e)
        | Return vectors_array =>
            match delete self index_name ids with
            | (self1, Raise e) => (self1, Raise e)
            | (self1, Return _) =>
                let start_idx := faiss.ntotal (index self1) in
                match faiss.add (index self1) vectors_array with
                | Raise e => (self1, Raise e)
                | Return index' =>
                    let '(id_to_index', index_to_id') :=
                      record_ids index_name start_idx 0 ids
                        (id_to_index self1) (index_to_id self1) in
                    (save {| dimension := dimension self1;
                             index := index';
                             id_to_index := id_to_index';
                             index_to_id := index_to_id';
                             index_file := index_file self1;
                             mappings_file := mappings_file self1 |},
                     Return tt)
                end
            end
        end
  end.

(** The result loop of [search] over [zip(scores[0], indices[0])]. *)
Fixpoint collect (index_to_id : gmap nat string) (index_name : string)
    (hits : list (Q * nat)) : list (string * Q) :=
  match hits with
  | [] => []
  | (score, idx) :: hits' =>
      match index_to_id !! idx with
      | Some fid =>
          if py.startswith fid (index_name +:+ ":")
          then (py.drop_chars (String.length (index_name +:+ ":")) fid, score)
                 :: collect index_to_id index_name hits'
          else collect index_to_id index_name hits'
      | None => collect index_to_id index_name hits'
      end
  end.

Definition search `{Numpy} (self : store) (index_name : string)
    (vector : vec) (top_k : Z) : result (list (string * Q)) :=
  if faiss.ntotal (index self) =? 0 then Return []
  else
    let query_vector := normalize vector in
    match faiss.search (index self) query_vector
            (Z.min top_k (Z.of_nat (faiss.ntotal (index self)))) with
    | Raise e => Raise e
    | Return hits => Return (collect (index_to_id self) index_name hits)
    end.

(** [get_stats]: [total_vectors], [dimension], [mapped_ids]. *)
Definition get_stats (self : store) : nat * nat * nat :=
  (faiss.ntotal (index self), dimension self, size (id_to_index self)).

End FAISSVectorStore.

(** ** TextProcessor ([embeddings_service.py]) *)

Module TextProcessor.

(** [d.get(key)] used as a condition and then read: the value when the key
    is present with a truthy (non-empty) string. *)
Definition get_truthy (field : option string) : option string :=
  match field with
  | Some s => if py.truthy s then Some s else None
  | None => None
  end.

(** A serialized skill; [skill.get('name', '')]. *)
Record Skill : Type := mkSkill { skill_name : option string }.

Definition name_or_empty (skill : Skill) : string :=
  match skill_name skill with Some n => n | None => "" end.

(** A serialized job offer ([JobOfferSerializer]); a list field that is
    absent behaves as the empty list, an absent flag as [false]. *)
Record JobData : Type := mkJobData {
  title : option string;
  description : option string;
  required_skills : list Skill;
  seniority : option string;
  location : option string;
  is_remote : bool
}.

Definition prepare_job_offer_text (job_data : JobData) : string :=
  let parts : list string := [] in
  let parts :=
    match get_truthy (title job_data) with
    | Some t => parts ++ [t]
    | None => parts
    end in
  let parts :=
    match get_truthy (description job_data) with
    | Some t => parts ++ [t]
    | None => parts
    end in
  let parts :=
    match required_skills job_data with
    | [] => parts
    | _ :: _ =>
        let skills_text := py.join " " (map name_or_empty (required_skills job_data)) in
        if py.truthy skills_text
        then parts ++ ["Compétences requises: " +:+ skills_text]
        else parts
    end in
  let parts :=
    match get_truthy (seniority job_data) with
    | Some t => parts ++ ["Niveau: " +:+ t]
    | None => parts
    end in
  let parts :=
    match get_truthy (location job_data) with
    | Some t => parts ++ ["Localisation: " +:+ t]
    | None => parts
    end in
  let parts :=
    if is_remote job_data then parts ++ ["Télétravail possible"] else parts in
  py.join " " parts.

Record Experience : Type := mkExperience {
  exp_title : option string;
  exp_company : option string;
  exp_description : option string
}.

Record Education : Type := mkEducation {
  edu_school : option string;
  edu_degree : option string;
  edu_field_of_study : option string
}.

Record Resume : Type := mkResume { parsed_text : option string }.

(** A serialized candidate ([CandidateSerializer]). *)
Record CandidateData : Type := mkCandidateData {
  headline : option string;
  summary : option string;
  skills : list Skill;
  experiences : list Experience;
  educations : list Education;
  resumes : list Resume
}.

(** The inner loops: one joined fragment per entry that has a part. *)
Definition fragment (fields : list (option string)) : list string :=
  match omap get_truthy fields with
  | [] => []
  | parts => [py.join " " parts]
  end.

Definition exp_texts (exps : list Experience) : list string :=
  flat_map (fun exp =>
    fragment [exp_title exp; exp_company exp; exp_description exp]) exps.

Definition edu_texts (edus : list Education) : list string :=
  flat_map (fun edu =>
    fragment [edu_school edu; edu_degree edu; edu_field_of_study edu]) edus.

Definition prepare_candidate_text (candidate_data : CandidateData) : string :=
  let parts : list string := [] in
  let parts :=
    match get_truthy (headline candidate_data) with
    | Some t => parts ++ [t]
    | None => parts
    end in
  let parts :=
    match get_truthy (summary candidate_data) with
    | Some t => parts ++ [t]
    | None => parts
    end in
  let parts :=
    match skills candidate_data with
    | [] => parts
    | _ :: _ =>
        let skills_text := py.join " " (map name_or_empty (skills candidate_data)) in
        if py.truthy skills_text
        then parts ++ ["Compétences: " +:+ skills_text]
        else parts
    end in
  let parts :=
    match exp_texts (experiences candidate_data) with
    | [] => parts
    | texts => parts ++ ["Expériences: " +:+ py.join " " texts]
    end in
  let parts :=
    match edu_texts (educations candidate_data) with
    | [] => parts
    | texts => parts ++ ["Formation: " +:+ py.join " " texts]
    end in
  let parts :=
    parts ++ flat_map (fun resume =>
      match get_truthy (parsed_text resume) with
      | Some t => ["CV: " +:+ t]
      | None => []
      end) (resumes candidate_data) in
  py.join " " parts.

End TextProcessor.

(** ** MatchingService batch indexing ([matching_service.py]) *)

(** [EmbeddingProvider.embed_texts]: the sentence-transformers model; it
    returns one vector per text or raises. *)
Class EmbeddingProvider := { embed_texts : list string -> result (list vec) }.

(** [EmbeddingProvider.embed_single_text]: [self.embed_texts([text])[0]].
    Its callers catch every exception alike, so a call that raises (the
    error of the model, or the [IndexError] of [[0]] on an empty list) is
    [None]. *)
Definition embed_single_text `{EmbeddingProvider} (text : string) : option vec :=
  match embed_texts [text] with
  | Return (embedding :: _) => Some embedding
  | Return [] => None
  | Raise _ => None
  end.

(** [EmbeddingProvider.get_embedding_dimension]:
    [len(self.embed_single_text("test"))]. *)
Definition get_embedding_dimension `{EmbeddingProvider} : option nat :=
  length <$> embed_single_text "test".

Module MatchingService.

Import FAISSVectorStore.

Record service : Type := mkService {
  candidates_store : store;
  job_offers_store : store
}.

Section batch.
Context `{Numpy} `{EmbeddingProvider} {E : Type}.
Variable prepare : E -> result string.

(** First loop: texts with content are queued, the others fail at once. *)
Fixpoint prepare_all (data : list (string * E)) (results : gmap string bool)
    (texts ids : list string) : gmap string bool * list string * list string :=
  match data with
  | [] => (results, texts, ids)
  | (entity_id, entity_data) :: data' =>
      match prepare entity_data with
      | Return text =>
          if py.strip_nonempty text
          then prepare_all data' results (texts ++ [text]) (ids ++ [entity_id])
          else prepare_all data' (<[entity_id := false]> results) texts ids
      | Raise _ =>
          prepare_all data' (<[entity_id := false]> results) texts ids
      end
  end.

(** [for entity_id in ids: results[entity_id] = flag] *)
Definition mark (flag : bool) (ids : list string) (results : gmap string bool)
  : gmap string bool :=
  fold_left (fun r entity_id => <[entity_id := flag]> r) ids results.

Definition batch_index (st : store) (index_name : string)
    (data : list (string * E)) : store * gmap string bool :=
  let '(results, texts, ids) := prepare_all data ∅ [] [] in
  match texts with
  | [] => (st, results)
  | _ :: _ =>
      match embed_texts texts with
      | Raise _ => (st, mark false ids results)
      | Return embeddings =>
          match upsert st index_name ids embeddings with
          | (st', Return _) => (st', mark true ids results)
          | (st', Raise _) => (st', mark false ids results)
          end
      end
  end.

End batch.

Definition batch_index_candidates `{Numpy} `{EmbeddingProvider} (self : service)
    (candidates_data : list (string * TextProcessor.CandidateData))
  : service * gmap string bool :=
  let '(st, results) :=
    batch_index (fun c => Return (TextProcessor.prepare_candidate_text c))
      (candidates_store self) "candidates" candidates_data in
  ({| candidates_store := st; job_offers_store := job_offers_store self |}, results).

Definition batch_index_job_offers `{Numpy} `{EmbeddingProvider} (self : service)
    (jobs_data : list (string * TextProcessor.JobData))
  : service * gmap string bool :=
  let '(st, results) :=
    batch_index (fun j => Return (TextProcessor.prepare_job_offer_text j))
      (job_offers_store self) "job_offers" jobs_data in
  ({| candidates_store := candidates_store self; job_offers_store := st |}, results).

(** *** Single-entity operations *)

Section single.
Context `{Numpy} `{EmbeddingProvider} {E : Type}.
Variable prepare : E -> result string.

(** The body shared by [index_candidate] and [index_job_offer]: every
    exception is caught and turned into [False]. *)
Definition index_entity (st : store) (index_name : string)
    (entity_id : string) (entity_data : E) : store * bool :=
  match prepare entity_data with
  | Raise _ => (st, false)
  | Return text =>
      if negb (py.strip_nonempty text) then (st, false)
      else
        match embed_single_text text with
        | None => (st, false)
        | Some embedding =>
            match upsert st index_name [entity_id] [embedding] with
            | (st', Return _) => (st', true)
            | (st', Raise _) => (st', false)
            end
        end
  end.

(** The body shared by [find_candidates_for_job] and
    [find_jobs_for_candidate]: [entity_data] is the reference entity,
    [index_name] the collection that is searched. *)
Definition find_matches (st : store) (index_name : string)
    (entity_data : E) (top_k : Z) : list (string * Q) :=
  match prepare entity_data with
  | Raise _ => []
  | Return text =>
      if negb (py.strip_nonempty text) then []
      else
        match embed_single_text text with
        | None => []
        | Some embedding =>
            match search st index_name embedding top_k with
            | Return results => results
            | Raise _ => []
            end
        end
  end.

End single.

Definition index_candidate `{Numpy} `{EmbeddingProvider} (self : service)
    (candidate_id : string) (candidate_data : TextProcessor.CandidateData)
  : service * bool :=
  let '(st, success) :=
    index_entity (fun c => Return (TextProcessor.prepare_candidate_text c))
      (candidates_store self) "candidates" candidate_id candidate_data in
  ({| candidates_store := st; job_offers_store := job_offers_store self |}, success).

Definition index_job_offer `{Numpy} `{EmbeddingProvider} (self : service)
    (job_id : string) (job_data : TextProcessor.JobData) : service * bool :=
  let '(st, success) :=
    index_entity (fun j => Return (TextProcessor.prepare_job_offer_text j))
      (job_offers_store self) "job_offers" job_id job_data in
  ({| candidates_store := candidates_store self; job_offers_store := st |}, success).

(** [job_id] is only used in log messages. *)
Definition find_candidates_for_job `{Numpy} `{EmbeddingProvider} (self : service)
    (job_id : string) (job_data : TextProcessor.JobData) (top_k : Z)
  : list (string * Q) :=
  find_matches (fun j => Return (TextProcessor.prepare_job_offer_text j))
    (candidates_store self) "candidates" job_data top_k.

Definition find_jobs_for_candidate `{Numpy} `{EmbeddingProvider} (self : service)
    (candidate_id : string) (candidate_data : TextProcessor.CandidateData)
    (top_k : Z) : list (string * Q) :=
  find_matches (fun c => Return (TextProcessor.prepare_candidate_text c))
    (job_offers_store self) "job_offers" candidate_data top_k.

(** [FAISSVectorStore(index_path, dimension)] over the files found at
    [index_path]: the fields are initialised, then [_load_or_create_index]
    reads the files. *)
Definition new_store (dimension : nat) (files : store) : store :=
  _load_or_create_index
    {| dimension := dimension;
       index := faiss.new dimension;
       id_to_index := ∅;
       index_to_id := ∅;
       index_file := index_file files;
       mappings_file := mappings_file files |}.

(** [__init__]: the dimension is the length of the embedding of a probe
    text; [None] when the probe raises. *)
Definition init `{EmbeddingProvider} (candidates_files job_offers_files : store)
  : option service :=
  match get_embedding_dimension with
  | None => None
  | Some dimension =>
      Some {| candidates_store := new_store dimension candidates_files;
              job_offers_store := new_store dimension job_offers_files |}
  end.

Definition delete_candidate (self : service) (candidate_id : string)
  : service * bool :=
  match delete (candidates_store self) "candidates" [candidate_id] with
  | (st, Return _) =>
      ({| candidates_store := st; job_offers_store := job_offers_store self |}, true)
  | (st, Raise _) =>
      ({| candidates_store := st; job_offers_store := job_offers_store self |}, false)
  end.

Definition delete_job_offer (self : service) (job_id : string) : service * bool :=
  match delete (job_offers_store self) "job_offers" [job_id] with
  | (st, Return _) =>
      ({| candidates_store := candidates_store self; job_offers_store := st |}, true)
  | (st, Raise _) =>
      ({| candidates_store := candidates_store self; job_offers_store := st |}, false)
  end.

End MatchingService.

(** ** LLMAgentService score fusion ([agent_service.py], step 4 of [ask]) *)

(** Iterating a Python [set] visits every element once in an order the
    language does not fix. *)
Class SetOrder := {
  set_iter : gset string -> list string;
  set_iter_perm : forall s, set_iter s ≡ₚ elements s
}.

Module LLMAgentService.

(** An Elasticsearch hit: [h.get("_id")], [h.get("_source", {}).get("id")]
    rendered by [str], and [h.get("_score")] when the key is present. *)
Record Hit : Type := mkHit {
  hit_id : option string;
  source_id : option string;
  hit_score : option Q
}.

(** [str(h.get("_id") or h.get("_source", {}).get("id"))] *)
Definition hit_doc_id (h : Hit) : string :=
  match TextProcessor.get_truthy (hit_id h) with
  | Some i => i
  | None =>
      match source_id h with
      | Some i => i
      | None => "None"
      end
  end.

(** [float(h.get("_score", 1.0))] *)
Definition hit_float_score (h : Hit) : Q :=
  match hit_score h with Some s => s | None => 1%Q end.

(** The loop filling [es_map]. *)
Definition es_map_of (es_docs : list Hit) : gmap string Q :=
  fold_left (fun es_map h =>
    let doc_id := hit_doc_id h in
    if py.truthy doc_id && negb (String.eqb doc_id "None")
    then <[doc_id := hit_float_score h]> es_map
    else es_map) es_docs ∅.

(** [float(es or 0)] *)
Definition or_zero (es : option Q) : Q :=
  match es with
  | Some s => if Qeq_bool s 0 then 0%Q else s
  | None => 0%Q
  end.

(** The body of the fusion loop for one id. *)
Definition fused_score (fa es : option Q) : Q :=
  match fa, es with
  | Some fa, Some es => (0.6 * fa + 0.4 * es)%Q
  | Some fa, None => fa
  | None, _ => (0.4 * or_zero es)%Q
  end.

Definition fuse `{SetOrder} (faiss_results : list (string * Q))
    (es_docs : list Hit) (top_k : Z) : list (string * Q) :=
  let faiss_map := pydict.of_items faiss_results in
  let es_map := es_map_of es_docs in
  let fused_ids := dom faiss_map ∪ dom es_map in
  let fused :=
    map (fun did => (did, fused_score (faiss_map !! did) (es_map !! did)))
      (set_iter fused_ids) in
  let fused := py.sort_desc snd fused in
  py.slice_to fused top_k.

End LLMAgentService.

(** ** AgentMemory ([agent_service.py]) *)

Module AgentMemory.

(** One turn of a session: [{"role": role, "content": content}]. *)
Record Turn : Type := mkTurn { role : string; content : string }.

(** [self._sessions] *)
Abbreviation memory := (gmap string (list Turn)).

(** [__init__] *)
Definition init : memory := ∅.

(** [add_turn]: nothing is recorded for a session id that is [None] or
    empty; otherwise the turn is appended to the list of the session, which
    [setdefault] creates when it is missing. *)
Definition add_turn (self : memory) (session_id : option string)
    (role content : string) : memory :=
  match TextProcessor.get_truthy session_id with
  | None => self
  | Some sid =>
      <[sid := default [] (self !! sid) ++ [mkTurn role content]]> self
  end.

(** [get_history]: [self._sessions.get(session_id, [])]; [None] is never a
    key. *)
Definition get_history (self : memory) (session_id : option string) : list Turn :=
  match session_id with
  | Some sid => default [] (self !! sid)
  | None => []
  end.

End AgentMemory.

(** ** Sample interface instances, used to run the model on examples *)

(** A norm that is exact on vectors whose squared length is a perfect
    square of an integer (unit basis vectors, [3;4], ...). *)
Definition integer_norm : Numpy :=
  {| linalg_norm := fun v => inject_Z (Z.sqrt (Qfloor (faiss.inner_product v v))) |}.

Definition elements_order : SetOrder :=
  {| set_iter := elements; set_iter_perm := fun s => reflexivity (elements s) |}.

(** An embedding model that fails, and one that maps every text to the
    same unit vector of dimension 2. *)
Definition failing_provider : EmbeddingProvider :=
  {| embed_texts := fun _ => Raise RuntimeError |}.

Definition constant_provider : EmbeddingProvider :=
  {| embed_texts := fun texts => Return (map (fun _ => [1%Q; 0%Q]) texts) |}.

(** ** Specification predicates *)

Module Spec.

Import FAISSVectorStore.

(** *** Persistence and the mapping table *)

(** The two files hold exactly the index and the mappings that are in
    memory. *)
Definition in_sync (st : store) : Prop :=
  index_file st = Some (index st) /\
  mappings_file st = Some (id_to_index st, index_to_id st).

(** Slots that hold a vector: [0 .. ntotal-1]. *)
Definition occupied (st : store) : gset nat :=
  list_to_set (seq 0 (faiss.ntotal (index st))).

(** Slots some external id points to. *)
Definition referenced (st : store) : gset nat := map_img (id_to_index st).

(** The mapping-table invariant: no slot without an id in either direction
    of the mapping, and no id or label outside the index. *)
Definition mapping_invariant (st : store) : Prop :=
  dom (index_to_id st) = occupied st /\ referenced st = occupied st.

(** Every row has the dimension of the store, which is the dimension the
    index was created with. *)
Definition well_formed (st : store) : Prop :=
  faiss.d (index st) = dimension st /\
  Forall (fun row => length row = dimension st) (faiss.xb (index st)).

(** The two directions of the mapping are inverse to each other and cover
    the index. *)
Definition bijective (st : store) : Prop :=
  (forall fid slot,
      id_to_index st !! fid = Some slot <-> index_to_id st !! slot = Some fid) /\
  (forall slot, is_Some (index_to_id st !! slot) <-> slot < faiss.ntotal (index st)).

(** One call of the mutating interface. *)
Inductive op : Type :=
| Upsert (index_name : string) (ids : list string) (vectors : list vec)
| Delete (index_name : string) (ids : list string).

Definition run_op `{Numpy} (st : store) (o : op) : store :=
  match o with
  | Upsert index_name ids vectors => fst (upsert st index_name ids vectors)
  | Delete index_name ids => fst (delete st index_name ids)
  end.

Definition run `{Numpy} (st : store) (ops : list op) : store :=
  fold_left run_op ops st.

(** An upsert names every id at most once. *)
Definition distinct_ids (o : op) : Prop :=
  match o with
  | Upsert _ ids _ => NoDup ids
  | Delete _ _ => True
  end.

(** *** Ranking and search *)

(** Descending order of keys, and the same with a tie-break between equal
    keys. *)
Definition desc {A : Type} (key : A -> Q) (a b : A) : Prop :=
  (key b <= key a)%Q.

Definition desc_then_earlier {A : Type} (key : A -> Q)
    (earlier : A -> A -> Prop) (a b : A) : Prop :=
  (key b < key a)%Q \/ ((key a == key b)%Q /\ earlier a b).

(** Rank order of two hits: the higher score first, the lower slot first
    among equal scores. *)
Definition ranked_before (a b : Q * nat) : Prop :=
  (fst b < fst a)%Q \/ ((fst a == fst b)%Q /\ snd a < snd b).

(** The result pair [r] reports the hit [h] of collection [index_name]. *)
Definition reports (st : store) (index_name : string) (q : vec)
    (h : Q * nat) (r : string * Q) : Prop :=
  index_to_id st !! snd h = Some (full_id index_name (fst r)) /\
  snd r = fst h /\
  exists row, faiss.xb (index st) !! snd h = Some row /\
              fst h = faiss.inner_product q row.

(** The hit's slot has a mapping entry of collection [index_name]: the
    condition under which the result loop of [search] keeps it. *)
Definition retained (index_to_id : gmap nat string) (index_name : string)
    (h : Q * nat) : bool :=
  match index_to_id !! snd h with
  | Some fid => py.startswith fid (index_name +:+ ":")
  | None => false
  end.

(** The hit is the inner product of the query with the row of its slot. *)
Definition scored (idx : faiss.IndexFlatIP) (q : vec) (h : Q * nat) : Prop :=
  exists row, faiss.xb idx !! snd h = Some row /\
              fst h = faiss.inner_product q row.

(** A store with one vector in each of two collections. *)
Definition two_collections : store :=
  fst (@upsert integer_norm
         (fst (@upsert integer_norm (create 2) "candidates" ["1"] [[1; 0]%Q]))
         "job_offers" ["1"] [[0; 1]%Q]).

(** *** Deletion *)

(** Slots of the ids of [ids] that are stored under [index_name]. *)
Definition removed_slots (st : store) (index_name : string) (ids : list string)
  : list nat :=
  omap (fun doc_id => id_to_index st !! full_id index_name doc_id) ids.

(** The slot-to-id mapping without the removed slots. *)
Definition surviving (st : store) (index_name : string) (ids : list string)
  : gmap nat string :=
  filter (fun kv => kv.1 ∉ removed_slots st index_name ids) (index_to_id st).

(** The rows that survive: old slot, vector and full id of every slot the
    mapping [S] still knows, in slot order, for rows numbered from [i0]. *)
Definition survivors_from (S : gmap nat string) (i0 : nat) (rows : list vec)
  : list (nat * vec * string) :=
  omap (fun p : nat * vec => (fun fid => (p.1, p.2, fid)) <$> S !! p.1)
    (zip (seq i0 (length rows)) rows).

Definition survivors (S : gmap nat string) (rows : list vec)
  : list (nat * vec * string) :=
  survivors_from S 0 rows.

(** The store rebuilt from the survivors of the mapping [S]: a fresh index
    of the same dimension holding their vectors in slot order, and both
    mappings regenerated for the new slot numbers [0, 1, ...]. The files
    are left as they are. *)
Definition rebuilt (st : store) (S : gmap nat string) : store :=
  let surv := survivors S (faiss.xb (index st)) in
  {| dimension := dimension st;
     index := {| faiss.d := dimension st; faiss.xb := map (fun p => p.1.2) surv |};
     id_to_index := pydict.inverted (imap (fun j p => (j, p.2)) surv);
     index_to_id := pydict.of_items (imap (fun j p => (j, p.2)) surv);
     index_file := index_file st;
     mappings_file := mappings_file st |}.

(** A hit with its slot looked up in a mapping, and the result loop of
    [search] over hits that are already looked up. *)
Definition resolve (m : gmap nat string) (h : Q * nat) : Q * option string :=
  (fst h, m !! snd h).

Fixpoint collect_resolved (index_name : string) (hits : list (Q * option string))
  : list (string * Q) :=
  match hits with
  | [] => []
  | (score, Some fid) :: hits' =>
      if py.startswith fid (index_name +:+ ":")
      then (py.drop_chars (String.length (index_name +:+ ":")) fid, score)
             :: collect_resolved index_name hits'
      else collect_resolved index_name hits'
  | (_, None) :: hits' => collect_resolved index_name hits'
  end.

(** The looked-up hit has an id. *)
Definition has_id (h : Q * option string) : bool :=
  match snd h with Some _ => true | None => false end.

(** The store of the specification's scenario: ids 42 and 43 in "jobs". *)
Definition scenario : store :=
  fst (@upsert integer_norm
         (fst (@upsert integer_norm (create 3) "jobs" ["42"] [[1; 0; 0]%Q]))
         "jobs" ["43"] [[0; 1; 0]%Q]).

(** *** Score fusion, following the specification's wording *)

(** The fused score an id must carry, given its vector score and its
    lexical score when it has them. *)
Definition fused_as_specified (fa es : option Q) (s : Q) : Prop :=
  match fa, es with
  | Some fa, Some es => s = (0.6 * fa + 0.4 * es)%Q
  | Some fa, None => s = fa
  | None, Some es => (s == 0.4 * es)%Q
  | None, None => False
  end.

(** Sample inputs of the fusion: two vector results and two lexical hits
    that share the id ["b"]. *)
Definition sample_faiss_results : list (string * Q) :=
  [("a", 0.9%Q); ("b", 0.5%Q)].

Definition sample_es_docs : list LLMAgentService.Hit :=
  [ LLMAgentService.mkHit (Some "b") None (Some 2%Q);
    LLMAgentService.mkHit None (Some "c") None ].

(** *** Batch indexing *)

(** The texts and ids the first loop of a batch queues for embedding. *)
Definition queued_texts {E : Type} (prepare : E -> result string)
    (data : list (string * E)) : list string :=
  snd (fst (MatchingService.prepare_all prepare data ∅ [] [])).

Definition queued_ids {E : Type} (prepare : E -> result string)
    (data : list (string * E)) : list string :=
  snd (MatchingService.prepare_all prepare data ∅ [] []).

(** *** Session memory *)

(** One logged call of [add_turn]. *)
Record logged : Type := mkLogged {
  logged_session : option string;
  logged_role : string;
  logged_content : string
}.

(** The memory after the calls of a log, from a new memory. *)
Definition replay (log : list logged) : AgentMemory.memory :=
  fold_left (fun m c =>
    AgentMemory.add_turn m (logged_session c) (logged_role c) (logged_content c))
    log AgentMemory.init.

(** The turns a log holds for session [sid], in order. *)
Definition turns_of (sid : string) (log : list logged) : list AgentMemory.Turn :=
  omap (fun c =>
    if bool_decide (logged_session c = Some sid)
    then Some (AgentMemory.mkTurn (logged_role c) (logged_content c))
    else None) log.

(** The (id, text) pairs of the entities whose text has content, in input
    order. *)
Definition queue {E : Type} (prepare : E -> result string)
    (data : list (string * E)) : list (string * string) :=
  omap (fun p : string * E =>
          match prepare (snd p) with
          | Return text =>
              if py.strip_nonempty text then Some (fst p, text) else None
          | Raise _ => None
          end) data.

Definition candidate_text (c : TextProcessor.CandidateData) : result string :=
  Return (TextProcessor.prepare_candidate_text c).

Definition job_text (j : TextProcessor.JobData) : result string :=
  Return (TextProcessor.prepare_job_offer_text j).

(** A candidate without any text and one with a headline. *)
Definition blank_candidate : TextProcessor.CandidateData :=
  TextProcessor.mkCandidateData None None [] [] [] [].

Definition named_candidate : TextProcessor.CandidateData :=
  TextProcessor.mkCandidateData (Some "Data engineer") None [] [] [] [].

Definition sample_service : MatchingService.service :=
  {| MatchingService.candidates_store := create 2;
     MatchingService.job_offers_store := create 2 |}.

(** *** Text projection, following the specification's wording *)

(** The four literals of the job-offer projection. *)
Record Labels : Type := mkLabels {
  skills_label : string;
  level_label : string;
  location_label : string;
  remote_marker : string
}.

(** The literals as the specification prints them. *)
Definition spec_labels : Labels :=
  {| skills_label := "Required skills: ";
     level_label := "Level: ";
     location_label := "Location: ";
     remote_marker := "Remote work possible" |}.

(** The literals the program emits. *)
Definition program_labels : Labels :=
  {| skills_label := "Compétences requises: ";
     level_label := "Niveau: ";
     location_label := "Localisation: ";
     remote_marker := "Télétravail possible" |}.

(** A field that is set and not empty, with its prefix. *)
Definition labelled (label : string) (field : option string) : option string :=
  match field with
  | Some s => if py.truthy s then Some (label +:+ s) else None
  | None => None
  end.

(** The six segments of a job offer in their fixed order; [None] is a
    segment that is left out. *)
Definition job_segments (L : Labels) (j : TextProcessor.JobData)
  : list (option string) :=
  [ labelled "" (TextProcessor.title j);
    labelled "" (TextProcessor.description j);
    labelled (skills_label L)
      (Some (py.join " " (map TextProcessor.name_or_empty
                            (TextProcessor.required_skills j))));
    labelled (level_label L) (TextProcessor.seniority j);
    labelled (location_label L) (TextProcessor.location j);
    if TextProcessor.is_remote j then Some (remote_marker L) else None ].

(** The segments that are present, joined with single spaces. *)
Definition job_projection (L : Labels) (j : TextProcessor.JobData) : string :=
  py.join " " (omap id (job_segments L j)).

(** A job offer that carries a title and nothing else. *)
Definition title_only (t : string) : TextProcessor.JobData :=
  {| TextProcessor.title := Some t;
     TextProcessor.description := None;
     TextProcessor.required_skills := [];
     TextProcessor.seniority := None;
     TextProcessor.location := None;
     TextProcessor.is_remote := false |}.

(** *** Sequences of service calls *)

(** A consistent store that holds ids of the collection [index_name] only. *)
Definition collection_store (index_name : string) (st : store) : Prop :=
  well_formed st /\ bijective st /\
  forall slot fid, index_to_id st !! slot = Some fid ->
    exists doc_id, fid = full_id index_name doc_id.

(** One call of the mutating interface of the service. *)
Inductive service_op : Type :=
| IndexCandidate (candidate_id : string) (c : TextProcessor.CandidateData)
| IndexJobOffer (job_id : string) (j : TextProcessor.JobData)
| BatchCandidates (data : list (string * TextProcessor.CandidateData))
| BatchJobOffers (data : list (string * TextProcessor.JobData))
| DeleteCandidate (candidate_id : string)
| DeleteJobOffer (job_id : string).

Definition run_service_op `{Numpy} `{EmbeddingProvider}
    (self : MatchingService.service) (o : service_op) : MatchingService.service :=
  match o with
  | IndexCandidate candidate_id c =>
      fst (MatchingService.index_candidate self candidate_id c)
  | IndexJobOffer job_id j => fst (MatchingService.index_job_offer self job_id j)
  | BatchCandidates data => fst (MatchingService.batch_index_candidates self data)
  | BatchJobOffers data => fst (MatchingService.batch_index_job_offers self data)
  | DeleteCandidate candidate_id =>
      fst (MatchingService.delete_candidate self candidate_id)
  | DeleteJobOffer job_id => fst (MatchingService.delete_job_offer self job_id)
  end.

Definition run_service `{Numpy} `{EmbeddingProvider}
    (self : MatchingService.service) (ops : list service_op)
  : MatchingService.service :=
  fold_left run_service_op ops self.

(** A batch names every id at most once. *)
Definition distinct_batch (o : service_op) : Prop :=
  match o with
  | BatchCandidates data => NoDup (map fst data)
  | BatchJobOffers data => NoDup (map fst data)
  | _ => True
  end.

(** A service on two new stores. *)
Definition new_service (candidates_dimension job_offers_dimension : nat)
  : MatchingService.service :=
  {| MatchingService.candidates_store := create candidates_dimension;
     MatchingService.job_offers_store := create job_offers_dimension |}.

(** *** What makes a text projection non-blank *)

(** The field holds a character that is not white space. *)
Definition has_text (field : option string) : bool :=
  match field with Some s => py.strip_nonempty s | None => false end.

(** The field is present and not the empty string. *)
Definition is_set (field : option string) : bool :=
  match field with Some s => py.truthy s | None => false end.

(** The joined skill names are not the empty string. *)
Definition names_text (skills : list TextProcessor.Skill) : bool :=
  py.truthy (py.join " " (map TextProcessor.name_or_empty skills)).

Definition job_has_content (j : TextProcessor.JobData) : bool :=
  has_text (TextProcessor.title j) || has_text (TextProcessor.description j)
  || names_text (TextProcessor.required_skills j)
  || is_set (TextProcessor.seniority j) || is_set (TextProcessor.location j)
  || TextProcessor.is_remote j.

Definition candidate_has_content (c : TextProcessor.CandidateData) : bool :=
  has_text (TextProcessor.headline c) || has_text (TextProcessor.summary c)
  || names_text (TextProcessor.skills c)
  || existsb (fun exp => is_set (TextProcessor.exp_title exp)
                         || is_set (TextProcessor.exp_company exp)
                         || is_set (TextProcessor.exp_description exp))
       (TextProcessor.experiences c)
  || existsb (fun edu => is_set (TextProcessor.edu_school edu)
                         || is_set (TextProcessor.edu_degree edu)
                         || is_set (TextProcessor.edu_field_of_study edu))
       (TextProcessor.educations c)
  || existsb (fun resume => is_set (TextProcessor.parsed_text resume))
       (TextProcessor.resumes c).

(** A service whose offers store has dimension 3 and holds offer 7, while
    the sample embedding models produce vectors of dimension 2. *)
Definition offers_service : MatchingService.service :=
  {| MatchingService.candidates_store := create 2;
     MatchingService.job_offers_store :=
       fst (@upsert integer_norm (create 3) "job_offers" ["7"] [[1; 0; 0]%Q]) |}.

(** A job offer with every field set. *)
Definition sample_job : TextProcessor.JobData :=
  {| TextProcessor.title := Some "Dev";
     TextProcessor.description := Some "Backend";
     TextProcessor.required_skills :=
       [TextProcessor.mkSkill (Some "Python"); TextProcessor.mkSkill (Some "SQL")];
     TextProcessor.seniority := Some "senior";
     TextProcessor.location := Some "Paris";
     TextProcessor.is_remote := true |}.

End Spec.

(** * Properties *)

Import FAISSVectorStore.

(** ** Python runtime lemmas *)

Lemma startswith_drop (s p : string) :
  py.startswith s p = true -> s = p +:+ py.drop_chars (String.length p) s.
Proof.
  unfold py.startswith. revert s.
  induction p as [|a p IH]; intros s Hp.
  - reflexivity.
  - destruct s as [|b s]; simpl in Hp; [discriminate|].
    destruct (Ascii.ascii_dec a b) as [->|]; [|discriminate].
    change (String b s = String b (p +:+ py.drop_chars (String.length p) s)).
    f_equal. apply IH, Hp.
Qed.

(** ** Vector index store: input guards of [upsert] *)

Section upsert_guards.
Context `{Numpy}.

(** C9: an upsert whose id list or vector list is empty returns at once,
    without error, mutation or write, whatever the other list holds. *)
Theorem upsert_empty_list_returns (st : store) (index_name : string)
    (ids : list string) (vectors : list vec) :
  ids = [] \/ vectors = [] ->
  upsert st index_name ids vectors = (st, Return tt).
Proof.
  intros [-> | ->]; [reflexivity|]. destruct ids; reflexivity.
Qed.

(** C2 (amended): with both lists non-empty and of different lengths the
    call raises [ValueError] and the store, files included, is unchanged. *)
Theorem upsert_length_mismatch_raises (st : store) (index_name : string)
    (ids : list string) (vectors : list vec) :
  ids <> [] -> vectors <> [] -> length ids <> length vectors ->
  upsert st index_name ids vectors = (st, Raise ValueError).
Proof.
  intros Hi Hv Hlen. destruct ids as [|i ids]; [done|].
  destruct vectors as [|v vectors]; [done|].
  unfold upsert.
  destruct (length (i :: ids) =? length (v :: vectors)) eqn:E.
  - apply Nat.eqb_eq in E. contradiction.
  - reflexivity.
Qed.

End upsert_guards.

Lemma upsert_empty_list_returns_witness :
  @upsert integer_norm (create 1) "jobs" [] [[1%Q]] = (create 1, Return tt).
Proof.
  apply (@upsert_empty_list_returns integer_norm). left. reflexivity.
Defined.

Lemma upsert_length_mismatch_raises_witness :
  @upsert integer_norm (create 1) "jobs" ["a"; "b"] [[1%Q]]
  = (create 1, Raise ValueError).
Proof.
  apply (@upsert_length_mismatch_raises integer_norm); [done|done|].
  simpl. lia.
Defined.

(** ** Vector index store: what reaches the files *)

Lemma rebuild_keeps_files (st : store) (indices_to_remove : list nat) :
  index_file (fst (_rebuild_index_without_indices st indices_to_remove)) = index_file st /\
  mappings_file (fst (_rebuild_index_without_indices st indices_to_remove)) = mappings_file st.
Proof.
  unfold _rebuild_index_without_indices.
  destruct indices_to_remove as [|i rest]; [done|].
  destruct (rebuild_scan _ _ _ _ _ _) as [all_vectors new_mappings].
  destruct all_vectors as [|v vs]; [done|].
  destruct (np.array (v :: vs)) as [arr|e]; [|done].
  destruct (faiss.add _ arr); done.
Qed.

(** [delete] never writes: both files are what they were before the call. *)
Lemma delete_keeps_files (st : store) (index_name : string) (ids : list string) :
  index_file (fst (delete st index_name ids)) = index_file st /\
  mappings_file (fst (delete st index_name ids)) = mappings_file st.
Proof.
  unfold delete. destruct ids as [|i ids]; [done|].
  destruct (mark_removed _ _ _ _ _) as [[m1 m2] rem].
  destruct rem as [|r rem]; [done|].
  match goal with
  | |- context [_rebuild_index_without_indices ?s ?l] =>
      destruct (rebuild_keeps_files s l) as [-> ->]
  end.
  done.
Qed.

(** [upsert] writes through: when it returns after its guards, both files
    hold the state in memory. *)
Lemma upsert_writes_through `{Numpy} (st st' : store) (index_name : string)
    (ids : list string) (vectors : list vec) :
  ids <> [] -> vectors <> [] ->
  upsert st index_name ids vectors = (st', Return tt) ->
  Spec.in_sync st'.
Proof.
  intros Hi Hv. unfold upsert.
  destruct ids as [|i ids]; [done|]. destruct vectors as [|v vectors]; [done|].
  destruct (negb _); [discriminate|].
  destruct (np.array _) as [arr|e]; [|discriminate].
  destruct (delete st index_name (i :: ids)) as [st1 [[]|e]]; [|discriminate].
  destruct (faiss.add _ arr) as [index'|e]; [|discriminate].
  destruct (record_ids _ _ _ _ _ _) as [m1 m2].
  intros [= <-]. split; reflexivity.
Qed.

(** C1: the store after [upsert "42"] is on disk, but a following
    [delete "42"] empties the index in memory and returns without writing:
    the files still hold the deleted vector and its mapping, and a store
    opened on these files finds the deleted id again. *)
Theorem delete_leaves_files_stale :
  let st1 := fst (@upsert integer_norm (create 3) "jobs" ["42"] [[1; 0; 0]%Q]) in
  let st2 := fst (delete st1 "jobs" ["42"]) in
  Spec.in_sync st1 /\
  snd (delete st1 "jobs" ["42"]) = Return tt /\
  faiss.ntotal (index st2) = 0 /\
  id_to_index st2 = ∅ /\
  index_file st2 = Some (index st1) /\
  mappings_file st2 = Some (id_to_index st1, index_to_id st1) /\
  ~ Spec.in_sync st2 /\
  @search integer_norm st2 "jobs" [1; 0; 0]%Q 1 = Return [] /\
  @search integer_norm (_load_or_create_index st2) "jobs" [1; 0; 0]%Q 1
    = Return [("42", 1%Q)].
Proof.
  repeat split; try (vm_compute; reflexivity).
  intros [Hidx _]. vm_compute in Hidx. discriminate.
Qed.

(** C2 (counterexample): with an empty id list and one vector the lengths
    differ and no error is raised; with a vector of the wrong dimension the
    error is an [AssertionError] raised after the stored vector of the same
    id has been removed from the index and from the mapping. *)
Lemma upsert_invalid_input_counterexample :
  (length ([] : list string) <> length [[1%Q]] /\
   @upsert integer_norm (create 1) "jobs" [] [[1%Q]] = (create 1, Return tt)) /\
  (let st := fst (@upsert integer_norm (create 3) "jobs" ["42"] [[1; 0; 0]%Q]) in
   let r := @upsert integer_norm st "jobs" ["42"] [[1; 0]%Q] in
   length [1%Q; 0%Q] <> dimension st /\
   snd r = Raise AssertionError /\
   snd r <> Raise ValueError /\
   faiss.ntotal (index st) = 1 /\
   faiss.ntotal (index (fst r)) = 0 /\
   id_to_index st !! "jobs:42" = Some 0 /\
   id_to_index (fst r) !! "jobs:42" = None).
Proof.
  split; [split; [simpl; lia | reflexivity]|].
  repeat split; try (vm_compute; reflexivity); try (vm_compute; lia).
  vm_compute. discriminate.
Qed.

(** C3: on the empty store, one upsert that names the id ["7"] twice stores
    two vectors but leaves a single id-to-slot entry: slot 0 is occupied and
    no id points to it, the search reports the id twice, and deleting the id
    leaves one of its vectors behind. *)
Theorem duplicate_ids_break_mapping_invariant :
  let r := @upsert integer_norm (create 2) "jobs" ["7"; "7"] [[1; 0]%Q; [0; 1]%Q] in
  snd r = Return tt /\
  Spec.occupied (fst r) = {[0; 1]} /\
  Spec.referenced (fst r) = {[1]} /\
  ~ Spec.mapping_invariant (fst r) /\
  @search integer_norm (fst r) "jobs" [1; 0]%Q 5 = Return [("7", 1%Q); ("7", 0%Q)] /\
  @search integer_norm (fst (delete (fst r) "jobs" ["7"])) "jobs" [1; 0]%Q 5
    = Return [("7", 1%Q)].
Proof.
  repeat split; try (vm_compute; reflexivity).
  intros [_ Href]. vm_compute in Href. discriminate.
Qed.

(** ** Text projection of a job offer *)

Lemma get_truthy_truthy (field : option string) (s : string) :
  TextProcessor.get_truthy field = Some s -> py.truthy s = true.
Proof.
  destruct field as [f|]; simpl; [|done].
  destruct (py.truthy f) eqn:E; [|done]. by intros [= <-].
Qed.

Lemma labelled_get_truthy (label : string) (field : option string) :
  Spec.labelled label field
  = match TextProcessor.get_truthy field with
    | Some s => Some (label +:+ s)
    | None => None
    end.
Proof. destruct field as [s|]; [|done]. simpl. destruct (py.truthy s); done. Qed.

Lemma truthy_label (label s : string) :
  py.truthy s = true -> py.truthy (label +:+ s) = true.
Proof. destruct s; [done|]. intros _. destruct label; reflexivity. Qed.

(** C7 (counterexample): for a job offer with every field set the program
    prints its own literals, not the ones the specification names. *)
Lemma job_offer_text_labels_counterexample :
  TextProcessor.prepare_job_offer_text Spec.sample_job
    = "Dev Backend Compétences requises: Python SQL Niveau: senior Localisation: Paris Télétravail possible" /\
  Spec.job_projection Spec.spec_labels Spec.sample_job
    = "Dev Backend Required skills: Python SQL Level: senior Location: Paris Remote work possible" /\
  TextProcessor.prepare_job_offer_text Spec.sample_job
    <> Spec.job_projection Spec.spec_labels Spec.sample_job.
Proof.
  split; [vm_compute; reflexivity|].
  split; [vm_compute; reflexivity|].
  vm_compute. discriminate.
Qed.

(** C7 (amended): the text of a job offer is its present segments in the
    fixed order title, description, skills, level, location, remote marker,
    joined with single spaces, with the literals ["Compétences requises: "],
    ["Niveau: "], ["Localisation: "] and ["Télétravail possible"]; no segment
    that is kept is empty; two projections of the same data are equal; and
    an offer that carries only a title projects to exactly that title. *)
Theorem job_offer_text_projection (j : TextProcessor.JobData) (t : string) :
  TextProcessor.prepare_job_offer_text j = Spec.job_projection Spec.program_labels j /\
  Forall (fun segment => py.truthy segment = true)
         (omap id (Spec.job_segments Spec.program_labels j)) /\
  (forall j', j' = j ->
     TextProcessor.prepare_job_offer_text j' = TextProcessor.prepare_job_offer_text j) /\
  TextProcessor.prepare_job_offer_text (Spec.title_only t) = t.
Proof.
  split; [|split; [|split]].
  - unfold TextProcessor.prepare_job_offer_text, Spec.job_projection, Spec.job_segments.
    destruct j as [ti de sk se lo re].
    cbn [TextProcessor.title TextProcessor.description TextProcessor.required_skills
         TextProcessor.seniority TextProcessor.location TextProcessor.is_remote].
    rewrite (labelled_get_truthy "" ti), (labelled_get_truthy "" de),
      (labelled_get_truthy _ se), (labelled_get_truthy _ lo).
    destruct (TextProcessor.get_truthy ti), (TextProcessor.get_truthy de),
      sk as [|k sk], (TextProcessor.get_truthy se), (TextProcessor.get_truthy lo), re;
      cbn [Spec.labelled py.truthy map py.join]; try reflexivity;
      destruct (py.truthy _); reflexivity.
  - unfold Spec.job_segments.
    rewrite (labelled_get_truthy "" (TextProcessor.title j)),
      (labelled_get_truthy "" (TextProcessor.description j)),
      (labelled_get_truthy _ (TextProcessor.seniority j)),
      (labelled_get_truthy _ (TextProcessor.location j)).
    pose proof (get_truthy_truthy (TextProcessor.title j)) as H1.
    pose proof (get_truthy_truthy (TextProcessor.description j)) as H2.
    pose proof (get_truthy_truthy (TextProcessor.seniority j)) as H4.
    pose proof (get_truthy_truthy (TextProcessor.location j)) as H5.
    unfold Spec.labelled.
    destruct (TextProcessor.get_truthy (TextProcessor.title j)),
      (TextProcessor.get_truthy (TextProcessor.description j)),
      (py.truthy (py.join " " _)) eqn:E3,
      (TextProcessor.get_truthy (TextProcessor.seniority j)),
      (TextProcessor.get_truthy (TextProcessor.location j)),
      (TextProcessor.is_remote j);
      cbn [omap list_omap id];
      repeat (apply Forall_cons; split);
      try apply Forall_nil;
      try (apply truthy_label); eauto.
  - intros j' ->. reflexivity.
  - unfold Spec.title_only, TextProcessor.prepare_job_offer_text. simpl.
    destruct t; reflexivity.
Qed.

(** ** List lemmas *)

Lemma StronglySorted_mono {A : Type} (R S : A -> A -> Prop) (l : list A) :
  (forall a b, R a b -> S a b) -> StronglySorted R l -> StronglySorted S l.
Proof.
  intros HRS. induction 1 as [|x l Hl IH Hx]; constructor; [done|].
  eapply Forall_impl; [exact Hx|]. intros b. apply HRS.
Qed.

Lemma Forall_sublist_of {A : Type} (P : A -> Prop) (l1 l2 : list A) :
  l1 `sublist_of` l2 -> Forall P l2 -> Forall P l1.
Proof.
  intros Hsub. rewrite !Forall_forall. intros HP x Hx.
  apply HP. eapply elem_of_sublist; eauto.
Qed.

Lemma StronglySorted_sublist_of {A : Type} (R : A -> A -> Prop) (l1 l2 : list A) :
  l1 `sublist_of` l2 -> StronglySorted R l2 -> StronglySorted R l1.
Proof.
  induction 1 as [|x l1 l2 Hsub IH|x l1 l2 Hsub IH]; intros Hs.
  - constructor.
  - apply StronglySorted_inv in Hs as [Hs Hx]. constructor; [by apply IH|].
    eapply Forall_sublist_of; eauto.
  - apply StronglySorted_inv in Hs as [Hs _]. by apply IH.
Qed.

Lemma Forall2_with_Forall_l {A B : Type} (P : A -> Prop) (R R' : A -> B -> Prop)
    (l : list A) (k : list B) :
  (forall a b, P a -> R a b -> R' a b) ->
  Forall P l -> Forall2 R l k -> Forall2 R' l k.
Proof.
  intros Himp HP HR. induction HR as [|a b l k Hab _ IH]; [constructor|].
  apply Forall_cons in HP as [Ha HP]. constructor; [by apply Himp | by apply IH].
Qed.

Lemma list_filter_sublist {A : Type} (p : A -> bool) (l : list A) :
  List.filter p l `sublist_of` l.
Proof.
  induction l as [|x l IH]; simpl; [constructor|].
  destruct (p x); by constructor.
Qed.

Lemma string_app_assoc (a b c : string) : (a +:+ b) +:+ c = a +:+ (b +:+ c).
Proof.
  induction a as [|x a IH]; [reflexivity|].
  change (String x ((a +:+ b) +:+ c) = String x (a +:+ (b +:+ c))).
  by rewrite IH.
Qed.

(** ** The stable descending sort *)

Lemma Qlt_bool_true (x y : Q) : Qlt_bool x y = true <-> (x < y)%Q.
Proof.
  unfold Qlt_bool. rewrite negb_true_iff, <- not_true_iff_false, Qle_bool_iff.
  split; [apply Qnot_le_lt | apply Qlt_not_le].
Qed.

Lemma Qlt_bool_false (x y : Q) : Qlt_bool x y = false <-> (y <= x)%Q.
Proof.
  unfold Qlt_bool. rewrite negb_false_iff, Qle_bool_iff. reflexivity.
Qed.

Section sort_desc.
Context {A : Type} (key : A -> Q).

(** [earlier a b]: [a] stood before [b] in the list that is sorted. *)
Variable earlier : A -> A -> Prop.

Local Abbreviation desc := (Spec.desc key).
Local Abbreviation desc_then_earlier := (Spec.desc_then_earlier key earlier).

Lemma desc_then_earlier_desc (a b : A) : desc_then_earlier a b -> desc a b.
Proof.
  unfold Spec.desc. intros [Hlt | [Heq _]].
  - apply Qlt_le_weak, Hlt.
  - rewrite Heq. apply Qle_refl.
Qed.

Lemma insert_desc_perm (x : A) (l : list A) : py.insert_desc key x l ≡ₚ x :: l.
Proof.
  induction l as [|y l IH]; simpl; [done|].
  destruct (Qlt_bool (key x) (key y)); [|done].
  rewrite IH. apply Permutation_swap.
Qed.

Lemma sort_desc_perm (l : list A) : py.sort_desc key l ≡ₚ l.
Proof.
  induction l as [|x l IH]; simpl; [done|].
  rewrite insert_desc_perm. by rewrite IH.
Qed.

Lemma sort_desc_length (l : list A) : length (py.sort_desc key l) = length l.
Proof. apply Permutation_length, sort_desc_perm. Qed.

Lemma insert_desc_sorted (x : A) (l : list A) :
  StronglySorted desc_then_earlier l -> Forall (earlier x) l ->
  StronglySorted desc_then_earlier (py.insert_desc key x l).
Proof.
  induction l as [|y l IH]; intros Hs He; simpl.
  - repeat constructor.
  - apply StronglySorted_inv in Hs as [Hs Hy].
    apply Forall_cons in He as [Hey He].
    destruct (Qlt_bool (key x) (key y)) eqn:E.
    + apply Qlt_bool_true in E. constructor; [by apply IH|].
      rewrite insert_desc_perm. constructor; [by left | done].
    + apply Qlt_bool_false in E. constructor; [by constructor|].
      assert (Hall : Forall (fun z => (key z <= key x)%Q) (y :: l)).
      { constructor; [done|].
        eapply Forall_impl; [exact Hy|]. intros z Hz. simpl.
        apply desc_then_earlier_desc in Hz. unfold Spec.desc in Hz.
        eapply Qle_trans; eauto. }
      assert (Hear : Forall (earlier x) (y :: l)) by by constructor.
      clear -Hall Hear. induction Hall as [|z zs Hz _ IHz]; [constructor|].
      apply Forall_cons in Hear as [Hxz Hear].
      constructor; [|by apply IHz].
      destruct (Qle_lt_or_eq _ _ Hz) as [Hlt | Heq]; [by left|].
      right. split; [by symmetry | done].
Qed.

Lemma sort_desc_sorted (l : list A) :
  StronglySorted earlier l ->
  StronglySorted desc_then_earlier (py.sort_desc key l).
Proof.
  induction l as [|x l IH]; intros Hs; simpl; [constructor|].
  apply StronglySorted_inv in Hs as [Hs Hx].
  apply insert_desc_sorted; [by apply IH|].
  by rewrite sort_desc_perm.
Qed.

Lemma insert_desc_front (x : A) (l : list A) :
  Forall (fun z => (key z <= key x)%Q) l -> py.insert_desc key x l = x :: l.
Proof.
  destruct l as [|y l]; [done|]. intros [Hy _]%Forall_cons. simpl.
  apply Qlt_bool_false in Hy. by rewrite Hy.
Qed.

End sort_desc.

Lemma sort_desc_is_desc {A : Type} (key : A -> Q) (l : list A) :
  StronglySorted (Spec.desc key) (py.sort_desc key l).
Proof.
  assert (Ht : StronglySorted (fun _ _ : A => True) l).
  { induction l; constructor; [done|]. by apply Forall_true. }
  apply (sort_desc_sorted key) in Ht.
  eapply StronglySorted_mono; [|exact Ht].
  intros a b. apply desc_then_earlier_desc.
Qed.

(** ** Vector index store: [search] *)

Lemma scores_labels (q : vec) (rows : list vec) (i0 : nat) :
  StronglySorted (fun a b : Q * nat => snd a < snd b)
    (imap (fun i x => (faiss.inner_product q x, i0 + i)) rows) /\
  Forall (fun h : Q * nat => i0 <= snd h)
    (imap (fun i x => (faiss.inner_product q x, i0 + i)) rows).
Proof.
  revert i0. induction rows as [|x rows IH]; intros i0.
  - split; constructor.
  - rewrite imap_cons.
    rewrite (imap_ext _ (fun i x => (faiss.inner_product q x, S i0 + i)))
      by (intros; simpl; f_equal; lia).
    destruct (IH (S i0)) as [Hs Hf]. split.
    + constructor; [done|].
      eapply Forall_impl; [exact Hf|]. simpl. intros; lia.
    + constructor; [simpl; lia|].
      eapply Forall_impl; [exact Hf|]. simpl. intros; lia.
Qed.

Lemma scores_sorted_by_slot (idx : faiss.IndexFlatIP) (q : vec) :
  StronglySorted (fun a b : Q * nat => snd a < snd b) (faiss.scores idx q).
Proof. apply (scores_labels q (faiss.xb idx) 0). Qed.

Lemma scores_scored (idx : faiss.IndexFlatIP) (q : vec) :
  Forall (Spec.scored idx q) (faiss.scores idx q).
Proof.
  apply Forall_forall. intros h Hh. unfold faiss.scores in Hh.
  apply elem_of_lookup_imap in Hh as (i & x & -> & Hx).
  exists x. split; [exact Hx | reflexivity].
Qed.

(** The ranking the index computes: every row, best first. *)
Lemma ranking_sorted (idx : faiss.IndexFlatIP) (q : vec) :
  StronglySorted Spec.ranked_before (py.sort_desc fst (faiss.scores idx q)).
Proof.
  apply (sort_desc_sorted fst (fun a b : Q * nat => snd a < snd b)).
  apply scores_sorted_by_slot.
Qed.

Lemma ranking_scored (idx : faiss.IndexFlatIP) (q : vec) :
  Forall (Spec.scored idx q) (py.sort_desc fst (faiss.scores idx q)).
Proof. rewrite sort_desc_perm. apply scores_scored. Qed.

Lemma ranking_length (idx : faiss.IndexFlatIP) (q : vec) :
  length (py.sort_desc fst (faiss.scores idx q)) = faiss.ntotal idx.
Proof. rewrite sort_desc_length. apply length_imap. Qed.

(** The result loop keeps exactly the retained hits, in order, with the
    collection prefix removed. *)
Lemma collect_retained (m : gmap nat string) (index_name : string)
    (hits : list (Q * nat)) :
  Forall2 (fun h r => m !! snd h = Some (full_id index_name (fst r)) /\ snd r = fst h)
    (List.filter (Spec.retained m index_name) hits)
    (collect m index_name hits).
Proof.
  induction hits as [|[score idx] hits IH]; simpl; [constructor|].
  unfold Spec.retained at 1. simpl.
  destruct (m !! idx) as [fid|] eqn:Hm; [|exact IH].
  destruct (py.startswith fid (index_name +:+ ":")) eqn:Hp; [|exact IH].
  constructor; [|exact IH]. simpl. split; [|reflexivity].
  rewrite Hm. f_equal. apply startswith_drop in Hp.
  rewrite Hp at 1. unfold full_id. apply string_app_assoc.
Qed.

Lemma collect_length (m : gmap nat string) (index_name : string)
    (hits : list (Q * nat)) :
  length (collect m index_name hits)
  = length (List.filter (Spec.retained m index_name) hits).
Proof. symmetry. eapply Forall2_length, collect_retained. Qed.

(** [search] on an empty index returns the empty list, whatever the query
    and [top_k]. *)
Lemma search_empty_index `{Numpy} (st : store) (index_name : string)
    (vector : vec) (top_k : Z) :
  faiss.ntotal (index st) = 0 -> search st index_name vector top_k = Return [].
Proof. intros Hn. unfold search. by rewrite Hn. Qed.

(** What [search] returns for a positive [top_k] and a query of the index
    dimension: the retained hits among the first [min top_k ntotal] of the
    ranking. *)
Lemma search_returns `{Numpy} (st : store) (index_name : string)
    (vector : vec) (top_k : Z) :
  (0 < top_k)%Z -> length (normalize vector) = faiss.d (index st) ->
  search st index_name vector top_k
  = Return (collect (index_to_id st) index_name
              (take (Z.to_nat (Z.min top_k (Z.of_nat (faiss.ntotal (index st)))))
                 (py.sort_desc fst (faiss.scores (index st) (normalize vector))))).
Proof.
  intros Hk Hd. unfold search.
  destruct (faiss.ntotal (index st) =? 0) eqn:En.
  - apply Nat.eqb_eq in En. rewrite En.
    replace (Z.min top_k (Z.of_nat 0)) with 0%Z by lia. reflexivity.
  - apply Nat.eqb_neq in En. unfold faiss.search.
    rewrite Hd, Nat.eqb_refl. simpl.
    destruct (Z.min top_k (Z.of_nat (faiss.ntotal (index st))) <=? 0)%Z eqn:Ek.
    + apply Z.leb_le in Ek. lia.
    + reflexivity.
Qed.

(** [search] raises exactly when the index holds vectors and the index
    rejects the call: a [top_k] that is not positive, or a query of another
    dimension. *)
Lemma search_raises `{Numpy} (st : store) (index_name : string)
    (vector : vec) (top_k : Z) :
  faiss.ntotal (index st) <> 0 ->
  (top_k <= 0)%Z \/ length (normalize vector) <> faiss.d (index st) ->
  search st index_name vector top_k = Raise AssertionError.
Proof.
  intros Hn Hbad. unfold search.
  destruct (faiss.ntotal (index st) =? 0) eqn:En;
    [by apply Nat.eqb_eq in En|].
  unfold faiss.search.
  destruct (length (normalize vector) =? faiss.d (index st)) eqn:Ed; [|done].
  apply Nat.eqb_eq in Ed. simpl.
  destruct Hbad as [Hk|Hd]; [|done].
  destruct (Z.min top_k (Z.of_nat (faiss.ntotal (index st))) <=? 0)%Z eqn:Ek; [done|].
  apply Z.leb_gt in Ek. lia.
Qed.

(** Whenever [search] returns, its result is the retained part of the first
    [min top_k ntotal] hits of the ranking. *)
Lemma search_inv `{Numpy} (st : store) (index_name : string)
    (vector : vec) (top_k : Z) (results : list (string * Q)) :
  search st index_name vector top_k = Return results ->
  results = collect (index_to_id st) index_name
              (take (Nat.min (Z.to_nat top_k) (faiss.ntotal (index st)))
                 (py.sort_desc fst (faiss.scores (index st) (normalize vector)))).
Proof.
  unfold search. destruct (faiss.ntotal (index st) =? 0) eqn:En.
  - apply Nat.eqb_eq in En. intros [= <-]. rewrite En, Nat.min_0_r. reflexivity.
  - unfold faiss.search. destruct (negb _); [discriminate|].
    destruct (Z.min top_k (Z.of_nat (faiss.ntotal (index st))) <=? 0)%Z eqn:Ek;
      [discriminate|].
    intros [= <-]. do 2 f_equal. lia.
Qed.

Section search.
Context `{Numpy}.


(** C10: every pair [search] returns comes from a mapping entry whose full id
    is ["collection:"] followed by the reported id; the hits of the index
    whose slot has no entry or an entry of another collection are left out,
    so the result may be shorter than [min top_k ntotal], as it is on a
    store that holds two collections. *)
Theorem search_results_of_collection (st : store) (index_name : string)
    (vector : vec) (top_k : Z) (results : list (string * Q)) :
  search st index_name vector top_k = Return results ->
  (forall doc_id score, (doc_id, score) ∈ results ->
     exists slot, index_to_id st !! slot = Some (index_name +:+ ":" +:+ doc_id)) /\
  (exists hits,
     length hits = Nat.min (Z.to_nat top_k) (faiss.ntotal (index st)) /\
     Forall2 (fun h r => index_to_id st !! snd h = Some (index_name +:+ ":" +:+ fst r)
                         /\ snd r = fst h)
       (List.filter (Spec.retained (index_to_id st) index_name) hits) results) /\
  length results <= Nat.min (Z.to_nat top_k) (faiss.ntotal (index st)) /\
  (exists results',
     @search integer_norm Spec.two_collections "candidates" [1; 0]%Q 5
       = Return results' /\
     length results' < Nat.min (Z.to_nat 5) (faiss.ntotal (index Spec.two_collections))).
Proof.
  intros Hs. apply search_inv in Hs.
  set (hits := take (Nat.min (Z.to_nat top_k) (faiss.ntotal (index st)))
                 (py.sort_desc fst (faiss.scores (index st) (normalize vector)))) in Hs.
  assert (Hlen : length hits = Nat.min (Z.to_nat top_k) (faiss.ntotal (index st))).
  { unfold hits. rewrite length_take, ranking_length. lia. }
  pose proof (collect_retained (index_to_id st) index_name hits) as Hc.
  rewrite <- Hs in Hc.
  split; [|split; [|split]].
  - intros doc_id score Hin.
    clear -Hc Hin. induction Hc as [|h r hs rs [Hm _] _ IH];
      [by apply elem_of_nil in Hin|].
    apply elem_of_cons in Hin as [<- | Hin]; [|by apply IH].
    exists (snd h). exact Hm.
  - exists hits. split; [exact Hlen | exact Hc].
  - rewrite <- Hlen. apply Forall2_length in Hc. rewrite <- Hc.
    apply sublist_length, list_filter_sublist.
  - exists [("1", 1%Q)]. split; [vm_compute; reflexivity | vm_compute; lia].
Qed.

End search.


Lemma search_results_of_collection_witness :
  (forall doc_id score, (doc_id, score) ∈ [("1", 1%Q)] ->
     exists slot, index_to_id Spec.two_collections !! slot
                  = Some ("job_offers" +:+ ":" +:+ doc_id)) /\
  (exists hits,
     length hits = Nat.min (Z.to_nat 7) (faiss.ntotal (index Spec.two_collections)) /\
     Forall2 (fun h r => index_to_id Spec.two_collections !! snd h
                         = Some ("job_offers" +:+ ":" +:+ fst r) /\ snd r = fst h)
       (List.filter (Spec.retained (index_to_id Spec.two_collections) "job_offers") hits)
       [("1", 1%Q)]) /\
  length [("1", 1%Q)] <= Nat.min (Z.to_nat 7) (faiss.ntotal (index Spec.two_collections)) /\
  (exists results',
     @search integer_norm Spec.two_collections "candidates" [1; 0]%Q 5
       = Return results' /\
     length results' < Nat.min (Z.to_nat 5) (faiss.ntotal (index Spec.two_collections))).
Proof.
  apply (@search_results_of_collection integer_norm Spec.two_collections
           "job_offers" [0; 1]%Q 7).
  vm_compute. reflexivity.
Defined.

(** ** Retrieval fusion *)

Lemma slice_to_nonneg {A : Type} (l : list A) (k : Z) :
  (0 <= k)%Z -> py.slice_to l k = take (Z.to_nat k) l.
Proof.
  intros Hk. unfold py.slice_to.
  destruct (0 <=? k)%Z eqn:E; [reflexivity|]. apply Z.leb_gt in E. lia.
Qed.

Lemma fused_score_as_specified (fa es : option Q) :
  is_Some fa \/ is_Some es ->
  Spec.fused_as_specified fa es (LLMAgentService.fused_score fa es).
Proof.
  intros Hsome. destruct fa as [fa|], es as [es|]; simpl; try reflexivity.
  - destruct (Qeq_bool es 0) eqn:E; [|reflexivity].
    apply Qeq_bool_eq in E. rewrite E. reflexivity.
  - destruct Hsome as [[? [=]] | [? [=]]].
Qed.

Section fusion.
Context `{SetOrder}.


End fusion.


(** The sample fusion: ["b"] is in both sets and comes first, the
    lexical-only ["c"] is cut off by [top_k = 2]. *)
Example fuse_sample :
  map fst (@LLMAgentService.fuse elements_order Spec.sample_faiss_results
             Spec.sample_es_docs 2) = ["b"; "a"] /\
  Forall2 Qeq
    (map snd (@LLMAgentService.fuse elements_order Spec.sample_faiss_results
                Spec.sample_es_docs 2))
    [1.1%Q; 0.9%Q].
Proof.
  split; [vm_compute; reflexivity|].
  vm_compute. repeat constructor.
Qed.

(** ** Batch indexing *)

Section batch_index.
Context `{Numpy} `{EmbeddingProvider} {E : Type}.
Variable prepare : E -> result string.

Lemma mark_lookup (flag : bool) (ids : list string) (results : gmap string bool)
    (entity_id : string) :
  MatchingService.mark flag ids results !! entity_id
  = if decide (entity_id ∈ ids) then Some flag else results !! entity_id.
Proof.
  unfold MatchingService.mark. revert results.
  induction ids as [|i ids IH]; intros results.
  - rewrite decide_False by apply not_elem_of_nil. reflexivity.
  - change (fold_left (fun r x => <[x:=flag]> r) (i :: ids) results)
      with (fold_left (fun r x => <[x:=flag]> r) ids (<[i:=flag]> results)).
    rewrite IH. destruct (decide (entity_id ∈ ids)) as [Hin|Hnin].
    + rewrite decide_True by (by right). done.
    + destruct (decide (i = entity_id)) as [->|Hne].
      * rewrite decide_True by (by left). apply lookup_insert_eq.
      * rewrite decide_False by (intros [->|?]%elem_of_cons; done).
        by apply lookup_insert_ne.
Qed.

(** After the first loop every input id is either settled as failed or
    queued, the queue has one text per id, and nothing is marked as a
    success yet. *)
Lemma prepare_all_spec (data : list (string * E)) (results : gmap string bool)
    (texts ids : list string) :
  let out := MatchingService.prepare_all prepare data results texts ids in
  (forall entity_id,
     is_Some (fst (fst out) !! entity_id) \/ entity_id ∈ snd out <->
     is_Some (results !! entity_id) \/ entity_id ∈ ids \/ entity_id ∈ map fst data) /\
  (forall entity_id,
     fst (fst out) !! entity_id = Some true -> results !! entity_id = Some true) /\
  (length texts = length ids -> length (snd (fst out)) = length (snd out)).
Proof.
  revert results texts ids.
  induction data as [|[i e] data IH]; intros results texts ids; simpl.
  - split; [|split]; [|done|done].
    intros entity_id. rewrite elem_of_nil. tauto.
  - assert (Hfail :
      let out := MatchingService.prepare_all prepare data (<[i:=false]> results) texts ids in
      (forall entity_id,
         is_Some (fst (fst out) !! entity_id) \/ entity_id ∈ snd out <->
         is_Some (results !! entity_id) \/ entity_id ∈ ids \/
           entity_id ∈ i :: map fst data) /\
      (forall entity_id,
         fst (fst out) !! entity_id = Some true -> results !! entity_id = Some true) /\
      (length texts = length ids -> length (snd (fst out)) = length (snd out))).
    { destruct (IH (<[i:=false]> results) texts ids) as (Hdom & Htrue & Hlen).
      split; [|split]; [| |exact Hlen].
      - intros entity_id. rewrite Hdom, elem_of_cons.
        destruct (decide (i = entity_id)) as [->|Hne].
        + rewrite lookup_insert_eq. split; [auto|]. intros _. left. by eexists.
        + rewrite lookup_insert_ne by done. split; [tauto|].
          intros [?|[?|[?|?]]]; auto. congruence.
      - intros entity_id Ht. apply Htrue in Ht.
        destruct (decide (i = entity_id)) as [->|Hne].
        + by rewrite lookup_insert_eq in Ht.
        + by rewrite lookup_insert_ne in Ht. }
    destruct (prepare e) as [text|err]; [|exact Hfail].
    destruct (py.strip_nonempty text); [|exact Hfail].
    destruct (IH results (texts ++ [text]) (ids ++ [i])) as (Hdom & Htrue & Hlen).
    split; [|split]; [|exact Htrue|].
    + intros entity_id. rewrite Hdom, elem_of_app, !elem_of_cons, elem_of_nil.
      tauto.
    + intros Hl. apply Hlen. rewrite !length_app. simpl. lia.
Qed.

(** The result map of a batch has exactly the input ids as keys. *)
Lemma batch_index_keys (st : store) (index_name : string)
    (data : list (string * E)) (entity_id : string) :
  is_Some (snd (MatchingService.batch_index prepare st index_name data) !! entity_id)
  <-> entity_id ∈ map fst data.
Proof.
  unfold MatchingService.batch_index.
  destruct (prepare_all_spec data ∅ [] []) as (Hdom & _ & Hlen).
  specialize (Hdom entity_id). specialize (Hlen eq_refl).
  destruct (MatchingService.prepare_all prepare data ∅ [] []) as [[results texts] ids].
  simpl in Hdom, Hlen.
  rewrite lookup_empty, elem_of_nil in Hdom.
  assert (Hnone : ~ is_Some (@None bool)) by (intros [? [=]]).
  assert (Hmark : forall flag,
    is_Some (MatchingService.mark flag ids results !! entity_id)
    <-> entity_id ∈ map fst data).
  { intros flag. rewrite mark_lookup.
    destruct (decide (entity_id ∈ ids)) as [Hin|Hnin].
    - split; [|intros _; by eexists].
      intros _. destruct (proj1 Hdom) as [?|[[]|?]]; [by right|done..].
    - split.
      + intros Hs. destruct (proj1 Hdom) as [?|[[]|?]]; [by left|done..].
      + intros Hd. destruct (proj2 Hdom) as [?|?]; [by right; right|done..]. }
  destruct texts as [|t texts].
  - destruct ids; [|discriminate]. simpl.
    rewrite elem_of_nil in Hdom. split.
    + intros Hs. destruct (proj1 Hdom) as [?|[[]|?]]; [by left|done..].
    + intros Hd. destruct (proj2 Hdom) as [?|[]]; [by right; right|done].
  - destruct (embed_texts (t :: texts)) as [embeddings|err]; [|apply Hmark].
    destruct (upsert st index_name ids embeddings) as [st' [[]|err]]; apply Hmark.
Qed.

(** When the embedding call of the batch raises, every id of the input is
    marked as failed and the store is the one before the call. *)
Lemma batch_index_embedding_failure (st : store) (index_name : string)
    (data : list (string * E)) (err : exn) :
  embed_texts (Spec.queued_texts prepare data) = Raise err ->
  fst (MatchingService.batch_index prepare st index_name data) = st /\
  forall entity_id, entity_id ∈ map fst data ->
    snd (MatchingService.batch_index prepare st index_name data) !! entity_id = Some false.
Proof.
  intros Hfail.
  assert (Hall : forall entity_id, entity_id ∈ map fst data ->
    exists b, snd (MatchingService.batch_index prepare st index_name data) !! entity_id = Some b).
  { intros entity_id Hin.
    pose proof (proj2 (batch_index_keys st index_name data entity_id) Hin) as [b Hb].
    eauto. }
  unfold MatchingService.batch_index, Spec.queued_texts in *.
  destruct (prepare_all_spec data ∅ [] []) as (_ & Htrue & _).
  destruct (MatchingService.prepare_all prepare data ∅ [] []) as [[results texts] ids].
  simpl in Hfail, Htrue.
  assert (Hfalse : forall entity_id b,
    MatchingService.mark false ids results !! entity_id = Some b -> b = false).
  { intros entity_id b. rewrite mark_lookup.
    destruct (decide _); [by intros [= <-]|].
    destruct b; [|done]. intros Hb. apply Htrue in Hb.
    by rewrite lookup_empty in Hb. }
  destruct texts as [|t texts].
  - split; [done|]. intros entity_id Hin.
    destruct (Hall _ Hin) as [b Hb]. simpl in *. rewrite Hb. f_equal.
    destruct b; [|done]. apply Htrue in Hb. by rewrite lookup_empty in Hb.
  - rewrite Hfail in *. split; [done|]. intros entity_id Hin.
    destruct (Hall _ Hin) as [b Hb]. simpl in *. rewrite Hb. f_equal.
    by eapply Hfalse.
Qed.

(** When the batched upsert raises, every id of the input is marked as
    failed as well. *)
Lemma batch_index_upsert_failure (st : store) (index_name : string)
    (data : list (string * E)) (embeddings : list vec) (err : exn) :
  Spec.queued_texts prepare data <> [] ->
  embed_texts (Spec.queued_texts prepare data) = Return embeddings ->
  snd (upsert st index_name (Spec.queued_ids prepare data) embeddings) = Raise err ->
  forall entity_id, entity_id ∈ map fst data ->
    snd (MatchingService.batch_index prepare st index_name data) !! entity_id = Some false.
Proof.
  intros Hne Hemb Hups entity_id Hin.
  pose proof (proj2 (batch_index_keys st index_name data entity_id) Hin) as [b Hb].
  rewrite Hb. f_equal.
  unfold MatchingService.batch_index, Spec.queued_texts, Spec.queued_ids in *.
  destruct (prepare_all_spec data ∅ [] []) as (_ & Htrue & _).
  destruct (MatchingService.prepare_all prepare data ∅ [] []) as [[results texts] ids].
  simpl in *. destruct texts as [|t texts]; [done|].
  rewrite Hemb in Hb.
  destruct (upsert st index_name ids embeddings) as [st' [[]|err']]; [discriminate|].
  simpl in Hb. rewrite mark_lookup in Hb.
  destruct (decide _); [by injection Hb|].
  destruct b; [|done]. apply Htrue in Hb. by rewrite lookup_empty in Hb.
Qed.

End batch_index.

Lemma snd_batch_index_candidates `{Numpy} `{EmbeddingProvider}
    (self : MatchingService.service)
    (candidates_data : list (string * TextProcessor.CandidateData)) :
  snd (MatchingService.batch_index_candidates self candidates_data)
  = snd (MatchingService.batch_index Spec.candidate_text
           (MatchingService.candidates_store self) "candidates" candidates_data).
Proof.
  unfold MatchingService.batch_index_candidates, Spec.candidate_text.
  by destruct (MatchingService.batch_index _ _ _ _).
Qed.

Lemma snd_batch_index_job_offers `{Numpy} `{EmbeddingProvider}
    (self : MatchingService.service)
    (jobs_data : list (string * TextProcessor.JobData)) :
  snd (MatchingService.batch_index_job_offers self jobs_data)
  = snd (MatchingService.batch_index Spec.job_text
           (MatchingService.job_offers_store self) "job_offers" jobs_data).
Proof.
  unfold MatchingService.batch_index_job_offers, Spec.job_text.
  by destruct (MatchingService.batch_index _ _ _ _).
Qed.

Lemma size_of_keys {V : Type} (m : gmap string V) (keys : list string) :
  (forall k, is_Some (m !! k) <-> k ∈ keys) -> NoDup keys -> size m = length keys.
Proof.
  intros Hkeys Hnd. rewrite <- size_dom.
  assert (Hdom : dom m = list_to_set keys).
  { apply set_eq. intros k. rewrite elem_of_dom, elem_of_list_to_set. apply Hkeys. }
  rewrite Hdom. by apply size_list_to_set.
Qed.

Section batch_index_service.
Context `{Numpy} `{EmbeddingProvider}.

(** C8: the result map of either batch function has exactly the input ids
    as keys, whichever path each entity took, hence [N] keys for [N]
    distinct ids; and when the embedding call of the batch raises, every
    input id is mapped to [false]. *)
Theorem batch_index_result_map (self : MatchingService.service)
    (candidates_data : list (string * TextProcessor.CandidateData))
    (jobs_data : list (string * TextProcessor.JobData)) :
  let rc := snd (MatchingService.batch_index_candidates self candidates_data) in
  let rj := snd (MatchingService.batch_index_job_offers self jobs_data) in
  (forall entity_id, is_Some (rc !! entity_id) <-> entity_id ∈ map fst candidates_data) /\
  (forall entity_id, is_Some (rj !! entity_id) <-> entity_id ∈ map fst jobs_data) /\
  (NoDup (map fst candidates_data) -> size rc = length candidates_data) /\
  (NoDup (map fst jobs_data) -> size rj = length jobs_data) /\
  (forall err,
     embed_texts (Spec.queued_texts Spec.candidate_text candidates_data) = Raise err ->
     forall entity_id, entity_id ∈ map fst candidates_data ->
       rc !! entity_id = Some false) /\
  (forall err,
     embed_texts (Spec.queued_texts Spec.job_text jobs_data) = Raise err ->
     forall entity_id, entity_id ∈ map fst jobs_data ->
       rj !! entity_id = Some false).
Proof.
  intros rc rj. unfold rc, rj.
  rewrite snd_batch_index_candidates, snd_batch_index_job_offers.
  split; [|split; [|split; [|split; [|split]]]].
  - intros entity_id. apply batch_index_keys.
  - intros entity_id. apply batch_index_keys.
  - intros Hnd. rewrite <- (length_map fst).
    apply size_of_keys; [|done]. intros k. apply batch_index_keys.
  - intros Hnd. rewrite <- (length_map fst).
    apply size_of_keys; [|done]. intros k. apply batch_index_keys.
  - intros err Hfail. by eapply batch_index_embedding_failure.
  - intros err Hfail. by eapply batch_index_embedding_failure.
Qed.

End batch_index_service.

(** A batch of one blank and one named candidate with a failing embedding
    model: both ids are keys of the result and both are [false]. *)
Lemma batch_index_result_map_witness :
  let data := [("1", Spec.blank_candidate); ("2", Spec.named_candidate)] in
  let rc := snd (@MatchingService.batch_index_candidates integer_norm failing_provider
                   Spec.sample_service data) in
  size rc = 2 /\ rc !! "1" = Some false /\ rc !! "2" = Some false.
Proof.
  intros data rc.
  destruct (@batch_index_result_map integer_norm failing_provider
              Spec.sample_service data [])
    as (_ & _ & Hsize & _ & Hfail & _).
  split; [apply Hsize; compute_done|].
  split; eapply Hfail; try reflexivity; compute_done.
Defined.

(** The same batch with a working model: the blank candidate fails, the
    named one is indexed. *)
Example batch_index_sample :
  let data := [("1", Spec.blank_candidate); ("2", Spec.named_candidate)] in
  let out := @MatchingService.batch_index_candidates integer_norm constant_provider
               Spec.sample_service data in
  snd out !! "1" = Some false /\ snd out !! "2" = Some true /\
  faiss.ntotal (index (MatchingService.candidates_store (fst out))) = 1.
Proof. vm_compute. repeat split. Qed.

(** ** Vector index store: [delete] *)

(** The marking loop removes from both mappings what it lists, and lists the
    slot of every id of [ids] that is stored. *)
Lemma mark_removed_spec (index_name : string) (ids : list string)
    (m1 : gmap string nat) (m2 : gmap nat string) (acc : list nat) :
  exists new,
    mark_removed index_name ids m1 m2 acc
    = (foldr (fun doc_id => base.delete (full_id index_name doc_id)) m1 ids,
       foldr base.delete m2 new, acc ++ new) /\
    (forall slot, slot ∈ new <->
       exists doc_id, doc_id ∈ ids /\ m1 !! full_id index_name doc_id = Some slot).
Proof.
  revert m1 m2 acc. induction ids as [|doc_id ids IH]; intros m1 m2 acc.
  - exists []. simpl. rewrite app_nil_r. split; [done|].
    intros slot. split; [by intros ?%elem_of_nil|].
    by intros (? & ?%elem_of_nil & _).
  - simpl. destruct (m1 !! full_id index_name doc_id) as [faiss_idx|] eqn:Hm.
    + destruct (IH (base.delete (full_id index_name doc_id) m1) (base.delete faiss_idx m2)
                  (acc ++ [faiss_idx])) as (new & -> & Hnew).
      exists (faiss_idx :: new). split.
      * f_equal; [f_equal|by rewrite <- app_assoc].
        -- clear. induction ids as [|i ids IH]; simpl; [done|].
           rewrite IH. apply delete_delete.
        -- clear. induction new as [|i new IH]; simpl; [done|].
           rewrite IH. apply delete_delete.
      * intros slot. rewrite elem_of_cons, Hnew. split.
        -- intros [->|(d & Hd & Hl)].
           ++ exists doc_id. split; [by left | done].
           ++ exists d. split; [by right|].
              apply lookup_delete_Some in Hl. tauto.
        -- intros (d & [->|Hd]%elem_of_cons & Hl).
           ++ left. congruence.
           ++ destruct (decide (full_id index_name doc_id = full_id index_name d))
                as [Heq|Hne].
              ** left. congruence.
              ** right. exists d. split; [done|].
                 by rewrite lookup_delete_ne.
    + destruct (IH m1 m2 acc) as (new & -> & Hnew).
      exists new. split.
      * f_equal. f_equal. symmetry. apply delete_id.
        clear -Hm. induction ids as [|i ids IH]; simpl; [done|].
        destruct (decide (full_id index_name i = full_id index_name doc_id)) as [->|Hne].
        -- apply lookup_delete_eq.
        -- by rewrite lookup_delete_ne.
      * intros slot. rewrite Hnew. split.
        -- intros (d & Hd & Hl). exists d. split; [by right | done].
        -- intros (d & [->|Hd]%elem_of_cons & Hl); [congruence|].
           exists d. by split.
Qed.

Lemma foldr_delete_lookup `{Countable K} {V : Type} (m : gmap K V)
    (keys : list K) (k : K) :
  foldr base.delete m keys !! k = if decide (k ∈ keys) then None else m !! k.
Proof.
  induction keys as [|x keys IH]; cbn [foldr].
  - by rewrite decide_False by apply not_elem_of_nil.
  - destruct (decide (x = k)) as [->|Hne].
    + rewrite lookup_delete_eq. by rewrite decide_True by (by left).
    + rewrite lookup_delete_ne by done. rewrite IH.
      destruct (decide (k ∈ keys)) as [Hin|Hnin].
      * by rewrite decide_True by (by right).
      * rewrite decide_False; [done|]. intros [->|?]%elem_of_cons; done.
Qed.

Lemma survivors_from_cons (S : gmap nat string) (i0 : nat) (v : vec)
    (rows : list vec) :
  Spec.survivors_from S i0 (v :: rows)
  = match S !! i0 with
    | Some fid => (i0, v, fid) :: Spec.survivors_from S (Datatypes.S i0) rows
    | None => Spec.survivors_from S (Datatypes.S i0) rows
    end.
Proof. unfold Spec.survivors_from. simpl. by destruct (S !! i0). Qed.

(** The scan keeps the surviving rows in slot order and numbers them from
    the current length of [all_vectors]. *)
Lemma rebuild_scan_spec (rows : list vec) (i0 : nat) (rem : list nat)
    (S : gmap nat string) (av : list vec) (nm : list (nat * string)) :
  (forall i, i ∈ rem -> S !! i = None) ->
  rebuild_scan rows i0 rem S av nm
  = (av ++ map (fun p => p.1.2) (Spec.survivors_from S i0 rows),
     nm ++ imap (fun j p => (length av + j, p.2)) (Spec.survivors_from S i0 rows)).
Proof.
  intros Hrem. revert i0 av nm.
  induction rows as [|v rows IH]; intros i0 av nm.
  - unfold Spec.survivors_from. simpl. by rewrite !app_nil_r.
  - rewrite survivors_from_cons. simpl.
    destruct (bool_decide (i0 ∉ rem)) eqn:Hdec.
    + destruct (S !! i0) as [fid|]; [|apply IH].
      rewrite IH. rewrite imap_cons. simpl.
      rewrite <- !app_assoc. simpl. f_equal.
      f_equal. f_equal; [f_equal; rewrite length_app; simpl; lia|].
      apply imap_ext. intros j p _. simpl. f_equal.
      rewrite length_app. simpl. lia.
    + apply bool_decide_eq_false in Hdec.
      rewrite Hrem by (by apply dec_stable). apply IH.
Qed.

(** Lookups in the dicts built from the renumbered survivors. *)
Lemma of_items_numbered {P : Type} (g : P -> string) (l : list P) (j : nat) :
  pydict.of_items (imap (fun j p => (j, g p)) l) !! j = g <$> l !! j.
Proof.
  unfold pydict.of_items. revert j.
  induction l as [|x l IH] using rev_ind; intros j; [done|].
  rewrite imap_app, fold_left_app. simpl.
  destruct (decide (j = length l + 0)) as [->|Hne].
  - rewrite lookup_insert_eq, Nat.add_0_r.
    by rewrite lookup_app_r, Nat.sub_diag by lia.
  - rewrite lookup_insert_ne by done. rewrite IH.
    destruct (decide (j < length l)) as [Hlt|Hge].
    + by rewrite lookup_app_l.
    + rewrite !lookup_ge_None_2; [done| |]; rewrite ?length_app; simpl; lia.
Qed.

Lemma inverted_numbered {P : Type} (g : P -> string) (l : list P)
    (fid : string) (j : nat) :
  NoDup (map g l) ->
  pydict.inverted (imap (fun j p => (j, g p)) l) !! fid = Some j
  <-> g <$> l !! j = Some fid.
Proof.
  unfold pydict.inverted. revert j.
  induction l as [|x l IH] using rev_ind; intros j Hnd.
  - simpl. rewrite lookup_empty. split; discriminate.
  - rewrite map_app in Hnd. apply NoDup_app in Hnd as (Hnd & Hx & _).
    rewrite imap_app, fold_left_app. simpl. rewrite Nat.add_0_r.
    destruct (decide (g x = fid)) as [<-|Hne].
    + rewrite lookup_insert_eq. split.
      * intros [= <-]. by rewrite lookup_app_r, Nat.sub_diag by lia.
      * intros Hj. f_equal.
        destruct (decide (j < length l)) as [Hlt|Hge].
        -- rewrite lookup_app_l in Hj by done.
           destruct (l !! j) as [p|] eqn:Hp; [|done]. injection Hj as Hj.
           exfalso. apply (Hx (g x)); [|by left].
           rewrite <- Hj. apply list_elem_of_In, in_map, list_elem_of_In.
           eapply list_elem_of_lookup_2, Hp.
        -- destruct (decide (j = length l)) as [->|Hne']; [done|].
           rewrite lookup_ge_None_2 in Hj; [done|].
           rewrite length_app. simpl. lia.
    + rewrite lookup_insert_ne by done. rewrite IH by done.
      destruct (decide (j < length l)) as [Hlt|Hge].
      * by rewrite lookup_app_l.
      * rewrite (lookup_ge_None_2 l) by lia.
        destruct (decide (j = length l)) as [->|Hne'].
        -- rewrite lookup_app_r, Nat.sub_diag by lia. simpl.
           split; [discriminate|]. intros [=]. done.
        -- rewrite lookup_ge_None_2; [done|]. rewrite length_app. simpl. lia.
Qed.

(** Sorting commutes with relabelling and with filtering. *)
Lemma sort_desc_map {A B : Type} (key : A -> Q) (key' : B -> Q) (f : A -> B)
    (l : list A) :
  (forall a, key' (f a) = key a) ->
  py.sort_desc key' (map f l) = map f (py.sort_desc key l).
Proof.
  intros Hkey.
  assert (Hins : forall x s,
    py.insert_desc key' (f x) (map f s) = map f (py.insert_desc key x s)).
  { intros x s. induction s as [|y s IH]; simpl; [done|].
    rewrite !Hkey. destruct (Qlt_bool (key x) (key y)); simpl; [|done].
    by rewrite IH. }
  induction l as [|x l IH]; simpl; [done|]. by rewrite IH, Hins.
Qed.

Lemma insert_desc_filter {A : Type} (key : A -> Q) (p : A -> bool) (x : A)
    (l : list A) :
  StronglySorted (Spec.desc key) l ->
  List.filter p (py.insert_desc key x l)
  = if p x then py.insert_desc key x (List.filter p l) else List.filter p l.
Proof.
  induction l as [|y l IH]; intros Hs.
  - simpl. by destruct (p x).
  - apply StronglySorted_inv in Hs as [Hs Hy]. simpl.
    destruct (Qlt_bool (key x) (key y)) eqn:E.
    + simpl. rewrite IH by done.
      destruct (p x), (p y); simpl; rewrite ?E; reflexivity.
    + change (List.filter p (x :: y :: l))
        with (if p x then x :: List.filter p (y :: l) else List.filter p (y :: l)).
      destruct (p x); [|done].
      symmetry. apply insert_desc_front.
      apply Qlt_bool_false in E.
      eapply Forall_sublist_of; [apply list_filter_sublist|].
      constructor; [done|].
      eapply Forall_impl; [exact Hy|]. intros z Hz. simpl.
      unfold Spec.desc in Hz. eapply Qle_trans; eauto.
Qed.

Lemma sort_desc_filter {A : Type} (key : A -> Q) (p : A -> bool) (l : list A) :
  py.sort_desc key (List.filter p l) = List.filter p (py.sort_desc key l).
Proof.
  induction l as [|x l IH]; simpl; [done|].
  rewrite insert_desc_filter by apply sort_desc_is_desc.
  destruct (p x); simpl; by rewrite IH.
Qed.

Lemma collect_as_resolved (m : gmap nat string) (index_name : string)
    (hits : list (Q * nat)) :
  collect m index_name hits
  = Spec.collect_resolved index_name (map (Spec.resolve m) hits).
Proof.
  induction hits as [|[score idx] hits IH]; simpl; [done|].
  destruct (m !! idx) as [fid|]; [|done].
  destruct (py.startswith _ _); by rewrite IH.
Qed.

Lemma collect_resolved_has_id (index_name : string)
    (hits : list (Q * option string)) :
  Spec.collect_resolved index_name (List.filter Spec.has_id hits)
  = Spec.collect_resolved index_name hits.
Proof.
  induction hits as [|[score [fid|]] hits IH]; simpl; [done| |done].
  destruct (py.startswith _ _); by rewrite IH.
Qed.

(** The survivors, scored against a query, are the scored rows whose slot
    the mapping still knows. *)
Lemma survivors_scores (S : gmap nat string) (q : vec) (rows : list vec) (i0 : nat) :
  map (fun p => (faiss.inner_product q p.1.2, Some p.2)) (Spec.survivors_from S i0 rows)
  = List.filter Spec.has_id
      (map (Spec.resolve S)
         (imap (fun i x => (faiss.inner_product q x, i0 + i)) rows)).
Proof.
  revert i0. induction rows as [|v rows IH]; intros i0; [done|].
  rewrite survivors_from_cons, imap_cons.
  rewrite (imap_ext _ (fun i x => (faiss.inner_product q x, Datatypes.S i0 + i)))
    by (intros; simpl; f_equal; lia).
  simpl. unfold Spec.resolve at 1, Spec.has_id at 1. simpl.
  rewrite Nat.add_0_r.
  destruct (S !! i0) as [fid|] eqn:Hi; simpl; [|exact (IH (Datatypes.S i0))].
  f_equal; [|exact (IH (Datatypes.S i0))].
  unfold Spec.resolve. simpl. by rewrite Hi.
Qed.

Lemma survivors_from_facts (S : gmap nat string) (rows : list vec) (i0 : nat) :
  Forall (fun p => S !! p.1.1 = Some p.2 /\ i0 <= p.1.1 /\
                   rows !! (p.1.1 - i0) = Some p.1.2)
    (Spec.survivors_from S i0 rows) /\
  StronglySorted lt (map (fun p => p.1.1) (Spec.survivors_from S i0 rows)).
Proof.
  revert i0. induction rows as [|v rows IH]; intros i0.
  - split; constructor.
  - rewrite survivors_from_cons. destruct (IH (Datatypes.S i0)) as [Hf Hs].
    assert (Hf' : Forall (fun p => S !! p.1.1 = Some p.2 /\ i0 <= p.1.1 /\
                            (v :: rows) !! (p.1.1 - i0) = Some p.1.2)
                    (Spec.survivors_from S (Datatypes.S i0) rows)).
    { eapply Forall_impl; [exact Hf|]. intros p (Hp & Hle & Hrow).
      split; [done|]. split; [lia|].
      replace (p.1.1 - i0) with (Datatypes.S (p.1.1 - Datatypes.S i0)) by lia.
      exact Hrow. }
    destruct (S !! i0) as [fid|] eqn:Hi; [|by split].
    split.
    + constructor; [|done]. simpl. by rewrite Nat.sub_diag.
    + simpl. constructor; [done|].
      apply Forall_forall. intros i Hin.
      apply list_elem_of_In, in_map_iff in Hin as (p & <- & Hp).
      apply list_elem_of_In in Hp.
      rewrite Forall_forall in Hf. destruct (Hf p Hp) as (_ & Hle & _). lia.
Qed.

Lemma np_array_uniform (rows : list vec) (dim : nat) :
  rows <> [] -> Forall (fun r => length r = dim) rows ->
  np.array rows = Return (dim, rows).
Proof.
  intros Hne Hall. destruct rows as [|r rows]; [done|].
  apply Forall_cons in Hall as [Hr Hall]. unfold np.array.
  rewrite (proj2 (forallb_forall _ _)).
  - by rewrite Hr.
  - intros r' Hin. apply Nat.eqb_eq. rewrite Hr.
    rewrite Forall_forall in Hall. apply Hall. by apply list_elem_of_In.
Qed.

Lemma mark_removed_surviving (st : store) (index_name : string) (ids : list string) :
  exists new,
    mark_removed index_name ids (id_to_index st) (index_to_id st) []
    = (foldr (fun doc_id => base.delete (full_id index_name doc_id))
         (id_to_index st) ids,
       Spec.surviving st index_name ids, new) /\
    (forall slot, slot ∈ new <-> slot ∈ Spec.removed_slots st index_name ids) /\
    (forall slot, slot ∈ new -> Spec.surviving st index_name ids !! slot = None).
Proof.
  destruct (mark_removed_spec index_name ids (id_to_index st) (index_to_id st) [])
    as (new & Heq & Hnew).
  assert (Hsame : forall slot, slot ∈ new <-> slot ∈ Spec.removed_slots st index_name ids).
  { intros slot. rewrite Hnew. unfold Spec.removed_slots.
    rewrite list_elem_of_omap. reflexivity. }
  assert (HS : foldr base.delete (index_to_id st) new = Spec.surviving st index_name ids).
  { apply map_eq. intros slot. rewrite foldr_delete_lookup.
    unfold Spec.surviving.
    destruct (decide (slot ∈ new)) as [Hin|Hnin].
    - symmetry. apply map_lookup_filter_None. right. intros fid _ Hn.
      apply Hn. simpl. by apply Hsame.
    - destruct (index_to_id st !! slot) as [fid|] eqn:Hl.
      + symmetry. apply map_lookup_filter_Some. split; [done|].
        simpl. by rewrite <- Hsame.
      + symmetry. apply map_lookup_filter_None. by left. }
  exists new. rewrite Heq, HS. simpl. split; [done|]. split; [done|].
  intros slot Hin. rewrite <- HS, foldr_delete_lookup. by rewrite decide_True.
Qed.

Lemma delete_absent_ids (index_name : string) (ids : list string)
    (m1 : gmap string nat) :
  (forall doc_id, doc_id ∈ ids -> m1 !! full_id index_name doc_id = None) ->
  foldr (fun doc_id => base.delete (full_id index_name doc_id)) m1 ids = m1.
Proof.
  induction ids as [|i ids IH]; intros Habs; simpl; [done|].
  rewrite IH by (intros; apply Habs; by right).
  apply delete_id, Habs. by left.
Qed.

Lemma surviving_all (st : store) (index_name : string) (ids : list string) :
  Spec.removed_slots st index_name ids = [] ->
  Spec.surviving st index_name ids = index_to_id st.
Proof.
  intros Hnil. unfold Spec.surviving. rewrite Hnil.
  apply map_eq. intros slot.
  destruct (index_to_id st !! slot) as [fid|] eqn:Hl.
  - apply map_lookup_filter_Some. split; [done|]. apply not_elem_of_nil.
  - apply map_lookup_filter_None. by left.
Qed.

(** What [delete] does on a well-formed store: nothing when no id of the
    list is stored, otherwise the rebuild from the surviving mapping; it
    never raises. *)
Lemma delete_outcome (st : store) (index_name : string) (ids : list string) :
  Spec.well_formed st ->
  delete st index_name ids
  = (if decide (Spec.removed_slots st index_name ids = [])
     then st
     else Spec.rebuilt st (Spec.surviving st index_name ids),
     Return tt).
Proof.
  intros [Hd Hrows]. unfold delete.
  destruct ids as [|i ids].
  { reflexivity. }
  destruct (mark_removed_surviving st index_name (i :: ids)) as (new & -> & Hnew & HS).
  destruct new as [|r new].
  - assert (Hnil : Spec.removed_slots st index_name (i :: ids) = []).
    { destruct (Spec.removed_slots _ _ _) as [|x l]; [done|].
      exfalso. eapply not_elem_of_nil, Hnew. by left. }
    rewrite decide_True by done.
    rewrite surviving_all by done.
    rewrite delete_absent_ids.
    + by destruct st.
    + intros doc_id Hin.
      destruct (id_to_index st !! full_id index_name doc_id) as [slot|] eqn:Hl; [|done].
      exfalso. eapply (not_elem_of_nil slot). rewrite <- Hnil.
      unfold Spec.removed_slots. apply list_elem_of_omap. eauto.
  - rewrite decide_False.
    2:{ intros Hnil. eapply (not_elem_of_nil r). rewrite <- Hnil, <- Hnew. by left. }
    unfold _rebuild_index_without_indices. simpl.
    rewrite rebuild_scan_spec by exact HS. simpl.
    unfold Spec.rebuilt.
    fold (Spec.survivors (Spec.surviving st index_name (i :: ids)) (faiss.xb (index st))).
    set (surv := Spec.survivors _ _).
    destruct (map (fun p => p.1.2) surv) as [|v vs] eqn:Hav.
    + destruct surv; [|discriminate]. reflexivity.
    + rewrite (np_array_uniform _ (dimension st)); [| done |].
      * unfold faiss.add. simpl. rewrite Nat.eqb_refl. by rewrite <- Hav.
      * rewrite <- Hav. apply Forall_forall. intros row Hin.
        apply list_elem_of_In, in_map_iff in Hin as (p & <- & Hp).
        destruct (survivors_from_facts (Spec.surviving st index_name (i :: ids))
                    (faiss.xb (index st)) 0) as [Hf _].
        rewrite Forall_forall in Hf.
        destruct (Hf p) as (_ & _ & Hrow); [by apply list_elem_of_In|].
        rewrite Forall_forall in Hrows. apply Hrows.
        eapply list_elem_of_lookup_2, Hrow.
Qed.

(** *** The rebuilt store *)

Lemma rebuilt_index_to_id (st : store) (S : gmap nat string) (j : nat) :
  index_to_id (Spec.rebuilt st S) !! j
  = (fun p => p.2) <$> Spec.survivors S (faiss.xb (index st)) !! j.
Proof. unfold Spec.rebuilt. simpl. apply of_items_numbered. Qed.

Lemma NoDup_map_transfer {A B C : Type} (f : A -> B) (g : A -> C) (l : list A) :
  NoDup (map f l) ->
  (forall x y, x ∈ l -> y ∈ l -> g x = g y -> f x = f y) ->
  NoDup (map g l).
Proof.
  induction l as [|a l IH]; intros Hnd Hinj; simpl; [constructor|].
  simpl in Hnd. apply NoDup_cons in Hnd as [Ha Hnd].
  apply NoDup_cons. split.
  - intros Hin. apply Ha.
    apply list_elem_of_In, in_map_iff in Hin as (b & Hgb & Hb).
    apply list_elem_of_In in Hb.
    rewrite (Hinj a b); [| by left | by right | done].
    apply list_elem_of_In, in_map, list_elem_of_In, Hb.
  - apply IH; [done|]. intros x y Hx Hy. apply Hinj; by right.
Qed.

Lemma StronglySorted_lt_NoDup (l : list nat) : StronglySorted lt l -> NoDup l.
Proof.
  induction 1 as [|x l Hs IH Hx]; [constructor|].
  apply NoDup_cons. split; [|done].
  intros Hin. rewrite Forall_forall in Hx. specialize (Hx x Hin). lia.
Qed.

(** Distinct surviving slots carry distinct ids when the mapping does. *)
Lemma survivors_ids_NoDup (S : gmap nat string) (rows : list vec) :
  (forall i i' fid, S !! i = Some fid -> S !! i' = Some fid -> i = i') ->
  NoDup (map (fun p => p.2) (Spec.survivors S rows)).
Proof.
  intros Hinj. destruct (survivors_from_facts S rows 0) as [Hf Hs].
  fold (Spec.survivors S rows) in Hf, Hs.
  apply (NoDup_map_transfer (fun p => p.1.1)).
  - by apply StronglySorted_lt_NoDup.
  - intros x y Hx Hy Hxy. rewrite Forall_forall in Hf.
    destruct (Hf x Hx) as (Hsx & _), (Hf y Hy) as (Hsy & _).
    eapply Hinj; [exact Hsx|]. by rewrite Hxy.
Qed.

Lemma rebuilt_inverse (st : store) (S : gmap nat string) (fid : string) (j : nat) :
  (forall i i' fid, S !! i = Some fid -> S !! i' = Some fid -> i = i') ->
  id_to_index (Spec.rebuilt st S) !! fid = Some j
  <-> index_to_id (Spec.rebuilt st S) !! j = Some fid.
Proof.
  intros Hinj. rewrite rebuilt_index_to_id. unfold Spec.rebuilt. simpl.
  apply inverted_numbered. by apply survivors_ids_NoDup.
Qed.

Lemma rebuilt_ntotal (st : store) (S : gmap nat string) :
  faiss.ntotal (index (Spec.rebuilt st S))
  = length (Spec.survivors S (faiss.xb (index st))).
Proof. unfold Spec.rebuilt, faiss.ntotal. simpl. apply length_map. Qed.

Lemma survivors_length_le (S : gmap nat string) (rows : list vec) (i0 : nat) :
  length (Spec.survivors_from S i0 rows) <= length rows.
Proof.
  revert i0. induction rows as [|v rows IH]; intros i0; [done|].
  rewrite survivors_from_cons. specialize (IH (Datatypes.S i0)).
  destruct (S !! i0); simpl; lia.
Qed.

(** The scores of the rebuilt index, looked up in the regenerated mapping,
    are the survivors' scores with their old ids. *)
Lemma rebuilt_scores (st : store) (S : gmap nat string) (q : vec) :
  map (Spec.resolve (index_to_id (Spec.rebuilt st S)))
    (faiss.scores (index (Spec.rebuilt st S)) q)
  = map (fun p => (faiss.inner_product q p.1.2, Some p.2))
      (Spec.survivors S (faiss.xb (index st))).
Proof.
  pose proof (rebuilt_index_to_id st S) as Hm.
  set (m' := index_to_id (Spec.rebuilt st S)) in *. clearbody m'.
  unfold faiss.scores.
  change (faiss.xb (index (Spec.rebuilt st S)))
    with (map (fun p => p.1.2) (Spec.survivors S (faiss.xb (index st)))).
  set (surv := Spec.survivors S (faiss.xb (index st))) in *.
  apply list_eq. intros j.
  rewrite !list_lookup_fmap, list_lookup_imap, list_lookup_fmap.
  destruct (surv !! j) as [p|] eqn:Hp; [|done].
  cbn [fmap option_fmap option_map]. unfold Spec.resolve.
  cbn [fst snd]. by rewrite Hm, Hp.
Qed.

Section rebuilt_search.
Context `{Numpy}.

(** Searching the rebuilt store ranks the survivors as the old index ranked
    them: the result is the old ranking read through the surviving
    mapping. *)
Lemma rebuilt_search (st : store) (S : gmap nat string) (index_name : string)
    (vector : vec) (top_k : Z) :
  (0 < top_k)%Z -> (Z.of_nat (faiss.ntotal (index st)) <= top_k)%Z ->
  length (normalize vector) = dimension st ->
  search (Spec.rebuilt st S) index_name vector top_k
  = Return (collect S index_name
              (py.sort_desc fst (faiss.scores (index st) (normalize vector)))).
Proof.
  intros Hk Hn Hd.
  rewrite search_returns by done.
  rewrite take_ge.
  2:{ rewrite ranking_length, rebuilt_ntotal.
      pose proof (survivors_length_le S (faiss.xb (index st)) 0) as Hle.
      unfold faiss.ntotal in Hn. fold (Spec.survivors S (faiss.xb (index st))) in Hle.
      lia. }
  f_equal. rewrite !collect_as_resolved.
  rewrite <- (sort_desc_map fst fst (Spec.resolve _)) by done.
  rewrite rebuilt_scores.
  unfold Spec.survivors. rewrite (survivors_scores S (normalize vector) _ 0).
  rewrite sort_desc_filter, collect_resolved_has_id.
  rewrite (sort_desc_map fst fst (Spec.resolve S)) by done.
  reflexivity.
Qed.

End rebuilt_search.

(** When the mapping knows every slot, every row survives. *)
Lemma survivors_full_vectors (S : gmap nat string) (i0 : nat) (rows : list vec) :
  (forall i, i < length rows -> is_Some (S !! (i0 + i))) ->
  map (fun p => p.1.2) (Spec.survivors_from S i0 rows) = rows.
Proof.
  revert i0. induction rows as [|v rows IH]; intros i0 Hfull; [done|].
  rewrite survivors_from_cons.
  destruct (Hfull 0) as [fid Hfid]; [simpl; lia|].
  rewrite Nat.add_0_r in Hfid. rewrite Hfid. simpl. f_equal.
  apply IH. intros i Hi.
  replace (Datatypes.S i0 + i) with (i0 + Datatypes.S i) by lia.
  apply Hfull. simpl. lia.
Qed.

Lemma survivors_full_ids (S : gmap nat string) (i0 : nat) (rows : list vec)
    (j : nat) :
  (forall i, i < length rows -> is_Some (S !! (i0 + i))) ->
  (fun p => p.2) <$> Spec.survivors_from S i0 rows !! j
  = if decide (j < length rows) then S !! (i0 + j) else None.
Proof.
  revert i0 j. induction rows as [|v rows IH]; intros i0 j Hfull.
  - rewrite decide_False by (simpl; lia). done.
  - rewrite survivors_from_cons.
    destruct (Hfull 0) as [fid Hfid]; [simpl; lia|].
    rewrite Nat.add_0_r in Hfid. rewrite Hfid.
    destruct j as [|j].
    + rewrite decide_True by (simpl; lia). simpl. by rewrite Nat.add_0_r.
    + simpl. rewrite IH.
      * replace (Datatypes.S i0 + j) with (i0 + Datatypes.S j) by lia.
        destruct (decide (j < length rows)), (decide (Datatypes.S j < Datatypes.S (length rows)));
          (done || lia).
      * intros i Hi. replace (Datatypes.S i0 + i) with (i0 + Datatypes.S i) by lia.
        apply Hfull. simpl. lia.
Qed.

Lemma bijective_injective (st : store) (i i' : nat) (fid : string) :
  Spec.bijective st ->
  index_to_id st !! i = Some fid -> index_to_id st !! i' = Some fid -> i = i'.
Proof.
  intros [Hinv _] Hi Hi'. apply Hinv in Hi, Hi'. congruence.
Qed.

(** Rebuilding a consistent store from its whole mapping changes nothing. *)
Lemma rebuilt_identity (st : store) :
  Spec.well_formed st -> Spec.bijective st ->
  Spec.rebuilt st (index_to_id st) = st.
Proof.
  intros [Hd Hrows] Hbij.
  assert (Hfull : forall i, i < length (faiss.xb (index st)) ->
                            is_Some (index_to_id st !! (0 + i))).
  { intros i Hi. by apply Hbij. }
  assert (Hto : index_to_id (Spec.rebuilt st (index_to_id st)) = index_to_id st).
  { apply map_eq. intros j. rewrite rebuilt_index_to_id.
    unfold Spec.survivors. rewrite survivors_full_ids by done.
    destruct (decide (j < length (faiss.xb (index st)))) as [Hlt|Hge]; [done|].
    symmetry. apply eq_None_not_Some. intros Hs. apply Hbij in Hs.
    unfold faiss.ntotal in Hs. lia. }
  assert (Hfrom : id_to_index (Spec.rebuilt st (index_to_id st)) = id_to_index st).
  { apply map_eq. intros fid. apply option_eq. intros j.
    rewrite rebuilt_inverse by (intros; by eapply bijective_injective).
    rewrite Hto. symmetry. apply Hbij. }
  assert (Hidx : index (Spec.rebuilt st (index_to_id st)) = index st).
  { unfold Spec.rebuilt, Spec.survivors. simpl.
    rewrite survivors_full_vectors by done. rewrite <- Hd. by destruct (index st). }
  destruct st as [dim idx m1 m2 f1 f2].
  unfold Spec.rebuilt in *. simpl in *. by rewrite Hto, Hfrom, Hidx.
Qed.

(** On a consistent store, [delete] always yields the store rebuilt from
    the surviving mapping. *)
Lemma delete_is_rebuild (st : store) (index_name : string) (ids : list string) :
  Spec.well_formed st -> Spec.bijective st ->
  delete st index_name ids
  = (Spec.rebuilt st (Spec.surviving st index_name ids), Return tt).
Proof.
  intros Hwf Hbij. rewrite delete_outcome by done.
  destruct (decide _) as [Hnil|]; [|done].
  rewrite surviving_all by done. by rewrite rebuilt_identity.
Qed.

Lemma surviving_lookup (st : store) (index_name : string) (ids : list string)
    (slot : nat) (fid : string) :
  Spec.surviving st index_name ids !! slot = Some fid
  <-> index_to_id st !! slot = Some fid /\
      slot ∉ Spec.removed_slots st index_name ids.
Proof. unfold Spec.surviving. apply map_lookup_filter_Some. Qed.

Lemma surviving_injective (st : store) (index_name : string) (ids : list string)
    (i i' : nat) (fid : string) :
  Spec.bijective st ->
  Spec.surviving st index_name ids !! i = Some fid ->
  Spec.surviving st index_name ids !! i' = Some fid -> i = i'.
Proof.
  intros Hbij [Hi _]%surviving_lookup [Hi' _]%surviving_lookup.
  by eapply bijective_injective.
Qed.

(** The rebuilt store is consistent again. *)
Lemma rebuilt_consistent (st : store) (S : gmap nat string) :
  Spec.well_formed st ->
  (forall i i' fid, S !! i = Some fid -> S !! i' = Some fid -> i = i') ->
  Spec.well_formed (Spec.rebuilt st S) /\ Spec.bijective (Spec.rebuilt st S).
Proof.
  intros [Hd Hrows] Hinj. split; [split|split].
  - reflexivity.
  - unfold Spec.rebuilt. simpl. apply Forall_forall. intros row Hin.
    apply list_elem_of_In, in_map_iff in Hin as (p & <- & Hp).
    destruct (survivors_from_facts S (faiss.xb (index st)) 0) as [Hf _].
    rewrite Forall_forall in Hf.
    destruct (Hf p) as (_ & _ & Hrow); [by apply list_elem_of_In|].
    rewrite Forall_forall in Hrows. apply Hrows.
    eapply list_elem_of_lookup_2, Hrow.
  - intros fid slot. by apply rebuilt_inverse.
  - intros slot. rewrite rebuilt_index_to_id, rebuilt_ntotal.
    rewrite fmap_is_Some. apply lookup_lt_is_Some.
Qed.

Lemma survivors_from_elem (S : gmap nat string) (i0 : nat) (rows : list vec)
    (slot : nat) (row : vec) (fid : string) :
  (slot, row, fid) ∈ Spec.survivors_from S i0 rows
  <-> i0 <= slot /\ rows !! (slot - i0) = Some row /\ S !! slot = Some fid.
Proof.
  revert i0. induction rows as [|v rows IH]; intros i0.
  - unfold Spec.survivors_from. simpl. rewrite elem_of_nil.
    split; [done|]. by intros (_ & ? & _).
  - rewrite survivors_from_cons.
    assert (Hrest : (slot, row, fid) ∈ Spec.survivors_from S (Datatypes.S i0) rows
                    <-> i0 < slot /\ (v :: rows) !! (slot - i0) = Some row /\
                        S !! slot = Some fid).
    { rewrite IH. split.
      - intros (Hle & Hrow & HS). split; [lia|]. split; [|done].
        replace (slot - i0) with (Datatypes.S (slot - Datatypes.S i0)) by lia. done.
      - intros (Hlt & Hrow & HS). split; [lia|]. split; [|done].
        replace (slot - i0) with (Datatypes.S (slot - Datatypes.S i0)) in Hrow by lia.
        done. }
    destruct (S !! i0) as [fid0|] eqn:Hi.
    + rewrite elem_of_cons, Hrest. split.
      * intros [[= -> -> ->]|(Hlt & Hrow & HS)].
        -- rewrite Nat.sub_diag. done.
        -- split; [lia|done].
      * intros (Hle & Hrow & HS).
        destruct (decide (slot = i0)) as [->|Hne].
        -- left. rewrite Nat.sub_diag in Hrow. simpl in Hrow. congruence.
        -- right. split; [lia|done].
    + rewrite Hrest. split.
      * intros (Hlt & Hrow & HS). split; [lia|done].
      * intros (Hle & Hrow & HS). split; [|done].
        destruct (decide (slot = i0)) as [->|Hne]; [congruence|lia].
Qed.

(** Reading the same hits through a smaller mapping gives a sublist. *)
Lemma collect_sublist (m' m : gmap nat string) (index_name : string)
    (hits : list (Q * nat)) :
  (forall slot fid, m' !! slot = Some fid -> m !! slot = Some fid) ->
  collect m' index_name hits `sublist_of` collect m index_name hits.
Proof.
  intros Hsub. induction hits as [|[score idx] hits IH]; simpl; [constructor|].
  destruct (m' !! idx) as [fid|] eqn:Hm'.
  - rewrite (Hsub _ _ Hm'). destruct (py.startswith _ _); [by constructor | done].
  - destruct (m !! idx) as [fid|]; [|done].
    destruct (py.startswith _ _); [by constructor | done].
Qed.

Section delete_rebuild.
Context `{Numpy}.


End delete_rebuild.

(** ** Vector index store: consistency is kept by every operation *)

Lemma string_app_inv_l (p a b : string) : p +:+ a = p +:+ b -> a = b.
Proof.
  induction p as [|c p IH]; intros Heq.
  - exact Heq.
  - change (String c (p +:+ a) = String c (p +:+ b)) in Heq.
    apply IH. congruence.
Qed.

Lemma full_id_inj (index_name a b : string) :
  full_id index_name a = full_id index_name b -> a = b.
Proof.
  unfold full_id. intros Heq.
  by apply string_app_inv_l, string_app_inv_l in Heq.
Qed.

Lemma create_consistent (dim : nat) :
  Spec.well_formed (create dim) /\ Spec.bijective (create dim).
Proof.
  split; [split; [reflexivity | constructor]|]. split.
  - intros fid slot. simpl. rewrite !lookup_empty. split; discriminate.
  - intros slot. simpl. rewrite lookup_empty. unfold faiss.ntotal. simpl.
    split; [by intros [? [=]] | lia].
Qed.

Lemma np_array_inv (rows : list vec) (arr : nat * list vec) :
  np.array rows = Return arr ->
  snd arr = rows /\ Forall (fun r => length r = fst arr) rows.
Proof.
  unfold np.array. destruct rows as [|r rows].
  - intros [= <-]. split; [done | constructor].
  - destruct (forallb _ rows) eqn:Hall; [|discriminate].
    intros [= <-]. split; [done|]. constructor; [done|].
    apply Forall_forall. intros r' Hin.
    rewrite forallb_forall in Hall. apply Nat.eqb_eq, Hall.
    by apply list_elem_of_In.
Qed.

(** The mapping loop of [upsert] keeps the two directions inverse when the
    ids are new and distinct and the slots are the next free ones. *)
Lemma record_ids_consistent (index_name : string) (start i : nat)
    (ids : list string) (m1 : gmap string nat) (m2 : gmap nat string) :
  (forall fid slot, m1 !! fid = Some slot <-> m2 !! slot = Some fid) ->
  (forall slot, is_Some (m2 !! slot) <-> slot < start + i) ->
  NoDup ids ->
  (forall doc_id, doc_id ∈ ids -> m1 !! full_id index_name doc_id = None) ->
  (forall fid slot,
     (record_ids index_name start i ids m1 m2).1 !! fid = Some slot
     <-> (record_ids index_name start i ids m1 m2).2 !! slot = Some fid) /\
  (forall slot,
     is_Some ((record_ids index_name start i ids m1 m2).2 !! slot)
     <-> slot < start + i + length ids).
Proof.
  revert i m1 m2. induction ids as [|d ids IH]; intros i m1 m2 Hinv Hdom Hnd Hnew.
  - simpl. split; [done|]. intros slot. rewrite Hdom. lia.
  - apply NoDup_cons in Hnd as [Hd Hnd]. simpl.
    assert (Hfree : m2 !! (start + i) = None).
    { apply eq_None_not_Some. rewrite Hdom. lia. }
    assert (Hfid : m1 !! full_id index_name d = None) by (apply Hnew; by left).
    destruct (IH (Datatypes.S i)
                (<[full_id index_name d := start + i]> m1)
                (<[start + i := full_id index_name d]> m2)) as [Hinv' Hdom'].
    + intros fid slot.
      destruct (decide (fid = full_id index_name d)) as [->|Hne1];
        destruct (decide (slot = start + i)) as [->|Hne2].
      * by rewrite !lookup_insert_eq.
      * rewrite lookup_insert_eq, lookup_insert_ne by done.
        split; [intros [=]; congruence|].
        intros Hl. apply Hinv in Hl. congruence.
      * rewrite lookup_insert_ne, lookup_insert_eq by done.
        split; [|intros [=]; congruence].
        intros Hl. apply Hinv in Hl. congruence.
      * rewrite !lookup_insert_ne by done. apply Hinv.
    + intros slot. destruct (decide (slot = start + i)) as [->|Hne].
      * rewrite lookup_insert_eq. split; [lia | by eexists].
      * rewrite lookup_insert_ne by done. rewrite Hdom. lia.
    + done.
    + intros doc_id Hin. rewrite lookup_insert_ne.
      * apply Hnew. by right.
      * intros Heq%full_id_inj. congruence.
    + split; [exact Hinv'|]. intros slot. rewrite Hdom'. lia.
Qed.

Lemma delete_consistent (st : store) (index_name : string) (ids : list string) :
  Spec.well_formed st -> Spec.bijective st ->
  Spec.well_formed (fst (delete st index_name ids)) /\
  Spec.bijective (fst (delete st index_name ids)).
Proof.
  intros Hwf Hbij. rewrite delete_is_rebuild by done. simpl.
  apply rebuilt_consistent; [done|].
  intros i i' fid. by apply surviving_injective.
Qed.

(** After [delete], none of the deleted ids is mapped. *)
Lemma delete_unmaps (st : store) (index_name : string) (ids : list string)
    (doc_id : string) :
  Spec.well_formed st -> Spec.bijective st -> doc_id ∈ ids ->
  id_to_index (fst (delete st index_name ids)) !! full_id index_name doc_id = None.
Proof.
  intros Hwf Hbij Hin. rewrite delete_is_rebuild by done. simpl.
  apply eq_None_not_Some. intros [j Hj].
  apply rebuilt_inverse in Hj; [|intros i i' f; by apply surviving_injective].
  rewrite rebuilt_index_to_id in Hj.
  destruct (Spec.survivors _ _ !! j) as [[[slot row] fid]|] eqn:Hp; [|done].
  injection Hj as Hfid. simpl in Hfid. subst fid.
  apply list_elem_of_lookup_2 in Hp. unfold Spec.survivors in Hp.
  apply survivors_from_elem in Hp as (_ & _ & HS).
  apply surviving_lookup in HS as [Hl Hnot]. apply Hnot.
  unfold Spec.removed_slots. apply list_elem_of_omap.
  exists doc_id. split; [done|]. by apply Hbij.
Qed.

Section consistency.
Context `{Numpy}.

Lemma upsert_consistent (st : store) (index_name : string) (ids : list string)
    (vectors : list vec) :
  Spec.well_formed st -> Spec.bijective st -> NoDup ids ->
  Spec.well_formed (fst (upsert st index_name ids vectors)) /\
  Spec.bijective (fst (upsert st index_name ids vectors)).
Proof.
  intros Hwf Hbij Hnd. unfold upsert.
  destruct ids as [|i ids]; [done|]. destruct vectors as [|v vectors]; [done|].
  destruct (negb _) eqn:Hlen; [done|].
  apply negb_false_iff, Nat.eqb_eq in Hlen.
  destruct (np.array _) as [arr|e] eqn:Harr; [|done].
  apply np_array_inv in Harr as [Hrows Hdim].
  pose proof (delete_consistent st index_name (i :: ids) Hwf Hbij) as [Hwf1 Hbij1].
  pose proof (fun d => delete_unmaps st index_name (i :: ids) d Hwf Hbij) as Hnew.
  destruct (delete st index_name (i :: ids)) as [st1 [[]|e]]; [|done].
  simpl in Hwf1, Hbij1, Hnew.
  unfold faiss.add. destruct (arr.1 =? faiss.d (index st1)) eqn:Hd; [|done].
  apply Nat.eqb_eq in Hd.
  destruct (record_ids_consistent index_name (faiss.ntotal (index st1)) 0 (i :: ids)
              (id_to_index st1) (index_to_id st1)) as [Hinv Hdom].
  { apply Hbij1. }
  { intros slot. rewrite Nat.add_0_r. apply Hbij1. }
  { done. }
  { done. }
  destruct (record_ids _ _ _ _ _ _) as [m1 m2]. simpl in Hinv, Hdom |- *.
  destruct Hwf1 as [Hd1 Hrows1].
  split; [split|split]; simpl.
  - done.
  - apply Forall_app. split; [done|]. rewrite Hrows.
    eapply Forall_impl; [exact Hdim|]. intros r Hr. simpl in Hr. congruence.
  - exact Hinv.
  - intros slot. rewrite Hdom. unfold faiss.ntotal. simpl.
    rewrite length_app, Hrows, length_map. simpl in Hlen. simpl. lia.
Qed.

Lemma run_op_consistent (st : store) (o : Spec.op) :
  Spec.distinct_ids o -> Spec.well_formed st -> Spec.bijective st ->
  Spec.well_formed (Spec.run_op st o) /\ Spec.bijective (Spec.run_op st o).
Proof.
  destruct o as [index_name ids vectors | index_name ids]; simpl; intros Hd Hwf Hbij.
  - by apply upsert_consistent.
  - by apply delete_consistent.
Qed.

Lemma run_consistent (st : store) (ops : list Spec.op) :
  Forall Spec.distinct_ids ops -> Spec.well_formed st -> Spec.bijective st ->
  Spec.well_formed (Spec.run st ops) /\ Spec.bijective (Spec.run st ops).
Proof.
  unfold Spec.run. revert st.
  induction ops as [|o ops IH]; intros st Hops Hwf Hbij; [done|].
  apply Forall_cons in Hops as [Ho Hops]. simpl.
  destruct (run_op_consistent st o Ho Hwf Hbij) as [Hwf' Hbij'].
  by apply IH.
Qed.

End consistency.

Lemma bijective_mapping_invariant (st : store) :
  Spec.bijective st -> Spec.mapping_invariant st.
Proof.
  intros [Hinv Hdom]. split.
  - apply set_eq. intros slot. unfold Spec.occupied.
    rewrite elem_of_dom, Hdom, elem_of_list_to_set, elem_of_seq. lia.
  - apply set_eq. intros slot. unfold Spec.referenced, Spec.occupied.
    rewrite elem_of_map_img, elem_of_list_to_set, elem_of_seq.
    split.
    + intros [fid Hfid]. apply Hinv in Hfid.
      assert (Hs : is_Some (index_to_id st !! slot)) by eauto.
      apply Hdom in Hs. lia.
    + intros [_ Hlt]. simpl in Hlt. apply Hdom in Hlt as [fid Hfid].
      exists fid. by apply Hinv.
Qed.

(** From the empty store, every sequence of upserts and deletes in which no
    upsert repeats an id inside its batch keeps the mapping-table
    invariant. *)
Theorem mapping_invariant_of_distinct_batches `{Numpy} (dim : nat)
    (ops : list Spec.op) :
  Forall Spec.distinct_ids ops ->
  Spec.mapping_invariant (Spec.run (create dim) ops).
Proof.
  intros Hops. apply bijective_mapping_invariant.
  destruct (create_consistent dim) as [Hwf Hbij].
  by apply run_consistent.
Qed.

(** The scenario store is reached from the empty store by two upserts. *)
Lemma scenario_consistent :
  Spec.well_formed Spec.scenario /\ Spec.bijective Spec.scenario.
Proof.
  change Spec.scenario
    with (@Spec.run integer_norm (create 3)
            [Spec.Upsert "jobs" ["42"] [[1; 0; 0]%Q];
             Spec.Upsert "jobs" ["43"] [[0; 1; 0]%Q]]).
  destruct (create_consistent 3) as [Hwf Hbij].
  apply (@run_consistent integer_norm); [|done|done].
  repeat constructor; simpl; by intros ?%elem_of_nil.
Qed.


(** The scenario of the specification, run on the model: after deleting
    ["42"] the query [[1,0,0]] finds ["43"] with score 0, and the ranking of
    the survivors is the ranking before the delete without ["42"]. *)
Example scenario_delete :
  @search integer_norm Spec.scenario "jobs" [1; 0; 0]%Q 5
    = Return [("42", 1%Q); ("43", 0%Q)] /\
  @search integer_norm (fst (delete Spec.scenario "jobs" ["42"])) "jobs" [1; 0; 0]%Q 5
    = Return [("43", 0%Q)] /\
  faiss.xb (index (fst (delete Spec.scenario "jobs" ["42"]))) = [[0; 1; 0]%Q] /\
  id_to_index (fst (delete Spec.scenario "jobs" ["42"])) !! "jobs:43" = Some 0.
Proof. repeat split; vm_compute; reflexivity. Qed.

(** * Further properties of the vector index store *)

(** ** Files: what a new process finds *)

Lemma in_sync_reload (st : store) :
  Spec.in_sync st -> _load_or_create_index st = st.
Proof.
  destruct st as [dim idx m1 m2 f1 f2]. unfold Spec.in_sync. simpl.
  intros [-> ->]. reflexivity.
Qed.

Section reload.
Context `{Numpy}.


(** A store opened on an index file that has no mappings file next to it
    starts with empty mappings: the statistics count the vectors of the
    file and zero mapped ids, and no search on it returns a result. *)
Theorem reload_without_mappings (files : store) (idx : faiss.IndexFlatIP) :
  index_file files = Some idx -> mappings_file files = None ->
  get_stats (_load_or_create_index files)
    = (faiss.ntotal idx, dimension files, 0) /\
  forall index_name vector top_k results,
    search (_load_or_create_index files) index_name vector top_k = Return results ->
    results = [].
Proof.
  intros Hidx Hmap. unfold _load_or_create_index. rewrite Hidx, Hmap.
  split; [reflexivity|].
  intros index_name vector top_k results Hs.
  apply search_inv in Hs. simpl in Hs. rewrite Hs.
  generalize (take (Nat.min (Z.to_nat top_k) (faiss.ntotal idx))
                (py.sort_desc fst (faiss.scores idx (normalize vector)))).
  intros hits. induction hits as [|[score slot] hits IH]; [done|].
  simpl. by rewrite lookup_empty.
Qed.

End reload.


Lemma reload_without_mappings_witness :
  let files :=
    {| dimension := 3;
       index := faiss.new 3;
       id_to_index := ∅;
       index_to_id := ∅;
       index_file := Some {| faiss.d := 3; faiss.xb := [[1; 0; 0]%Q] |};
       mappings_file := None |} in
  get_stats (_load_or_create_index files) = (1, 3, 0) /\
  @search integer_norm (_load_or_create_index files) "jobs" [1; 0; 0]%Q 5 = Return [].
Proof.
  intros files.
  destruct (@reload_without_mappings integer_norm files
              {| faiss.d := 3; faiss.xb := [[1; 0; 0]%Q] |})
    as [Hstats Hnone]; [reflexivity | reflexivity |].
  split; [exact Hstats|].
  destruct (@search integer_norm (_load_or_create_index files) "jobs" [1; 0; 0]%Q 5)
    as [results|e] eqn:Hs; [|vm_compute in Hs; discriminate].
  f_equal. by eapply Hnone.
Defined.

(** ** Deleting ids that are not stored, and deleting twice *)

Lemma removed_slots_nil (st : store) (index_name : string) (ids : list string) :
  (forall doc_id, doc_id ∈ ids -> id_to_index st !! full_id index_name doc_id = None) ->
  Spec.removed_slots st index_name ids = [].
Proof.
  intros Habs. unfold Spec.removed_slots.
  induction ids as [|i ids IH]; [done|]. simpl.
  rewrite Habs by (by left). apply IH. intros d Hd. apply Habs. by right.
Qed.

Lemma delete_unmapped (st : store) (index_name : string) (ids : list string) :
  (forall doc_id, doc_id ∈ ids -> id_to_index st !! full_id index_name doc_id = None) ->
  delete st index_name ids = (st, Return tt).
Proof.
  intros Habs. unfold delete. destruct ids as [|i ids]; [done|].
  destruct (mark_removed_surviving st index_name (i :: ids)) as (new & -> & Hnew & _).
  pose proof (removed_slots_nil st index_name (i :: ids) Habs) as Hnil.
  destruct new as [|r new].
  - rewrite surviving_all by done. rewrite delete_absent_ids by done.
    by destruct st.
  - exfalso. apply (not_elem_of_nil r). rewrite <- Hnil, <- Hnew. by left.
Qed.

(** Deleting ids none of which is stored changes nothing and raises
    nothing, on any store; and on a consistent store a delete that is
    repeated finds nothing left to do. *)
Theorem delete_absent_and_repeated (st : store) (index_name : string)
    (ids : list string) :
  ((forall doc_id, doc_id ∈ ids ->
      id_to_index st !! full_id index_name doc_id = None) ->
   delete st index_name ids = (st, Return tt)) /\
  (Spec.well_formed st -> Spec.bijective st ->
   exists st',
     delete st index_name ids = (st', Return tt) /\
     delete st' index_name ids = (st', Return tt) /\
     get_stats st' = get_stats (fst (delete st' index_name ids))).
Proof.
  split; [apply delete_unmapped|].
  intros Hwf Hbij.
  exists (fst (delete st index_name ids)).
  assert (Hagain : delete (fst (delete st index_name ids)) index_name ids
                   = (fst (delete st index_name ids), Return tt)).
  { apply delete_unmapped. intros d Hd. by apply delete_unmaps. }
  split; [|split].
  - by rewrite delete_is_rebuild.
  - exact Hagain.
  - by rewrite Hagain.
Qed.

Lemma delete_absent_and_repeated_witness :
  delete Spec.scenario "jobs" ["7"] = (Spec.scenario, Return tt) /\
  exists st',
    delete Spec.scenario "jobs" ["42"] = (st', Return tt) /\
    delete st' "jobs" ["42"] = (st', Return tt) /\
    get_stats st' = get_stats (fst (delete st' "jobs" ["42"])).
Proof.
  split.
  - apply (proj1 (delete_absent_and_repeated Spec.scenario "jobs" ["7"])).
    intros d ->%list_elem_of_singleton. vm_compute. reflexivity.
  - destruct scenario_consistent as [Hwf Hbij].
    by apply (proj2 (delete_absent_and_repeated Spec.scenario "jobs" ["42"])).
Defined.

(** ** An upsert that raises *)

Section upsert_failure.
Context `{Numpy}.

(** On a well-formed store an upsert that raises has written nothing. If
    the error is a [ValueError] (lengths differ, or the vectors do not all
    have one length) the store is untouched; otherwise it is the
    [AssertionError] of the index for vectors of another dimension, raised
    after the delete step: the stored vectors of these ids are gone from
    memory and nothing was appended. *)
Theorem upsert_raise_leaves_files (st st' : store) (index_name : string)
    (ids : list string) (vectors : list vec) (e : exn) :
  Spec.well_formed st ->
  upsert st index_name ids vectors = (st', Raise e) ->
  index_file st' = index_file st /\
  mappings_file st' = mappings_file st /\
  ((e = ValueError /\ st' = st) \/
   (e = AssertionError /\ st' = fst (delete st index_name ids) /\
    length ids = length vectors /\
    exists v, v ∈ vectors /\ length (normalize v) <> dimension st)).
Proof.
  intros Hwf. unfold upsert.
  destruct ids as [|i ids]; [discriminate|].
  destruct vectors as [|v vectors]; [discriminate|].
  destruct (negb _) eqn:Hlen.
  { intros [= <- <-]. split; [done|]. split; [done|]. by left. }
  apply negb_false_iff, Nat.eqb_eq in Hlen.
  destruct (np.array _) as [arr|e'] eqn:Harr.
  2:{ intros [= <- <-]. split; [done|]. split; [done|]. left. split; [|done].
      unfold np.array in Harr. simpl in Harr.
      destruct (forallb _ _); [discriminate|]. by injection Harr as <-. }
  rewrite (delete_outcome st index_name (i :: ids) Hwf).
  set (st1 := if decide _ then st else _).
  assert (Hst1 : st1 = fst (delete st index_name (i :: ids))).
  { by rewrite (delete_outcome st index_name (i :: ids) Hwf). }
  assert (Hd1 : faiss.d (index st1) = dimension st).
  { unfold st1. destruct (decide _); [apply Hwf | reflexivity]. }
  unfold faiss.add. destruct (arr.1 =? faiss.d (index st1)) eqn:Hd.
  { destruct (record_ids _ _ _ _ _ _). discriminate. }
  apply Nat.eqb_neq in Hd.
  intros [= <- <-].
  destruct (delete_keeps_files st index_name (i :: ids)) as [Hf1 Hf2].
  rewrite Hst1. split; [done|]. split; [done|]. right.
  split; [done|]. split; [done|]. split; [done|].
  exists v. split; [by left|].
  apply np_array_inv in Harr as [_ Hall].
  apply Forall_cons in Hall as [Hv _]. rewrite Hv. congruence.
Qed.

End upsert_failure.

Lemma upsert_raise_leaves_files_witness :
  let st := fst (@upsert integer_norm (create 3) "jobs" ["42"] [[1; 0; 0]%Q]) in
  let st' := fst (@upsert integer_norm st "jobs" ["42"] [[1; 0]%Q]) in
  index_file st' = index_file st /\
  mappings_file st' = mappings_file st /\
  ((AssertionError = ValueError /\ st' = st) \/
   (AssertionError = AssertionError /\ st' = fst (delete st "jobs" ["42"]) /\
    length ["42"] = length [[1; 0]%Q] /\
    exists v, v ∈ [[1; 0]%Q] /\ length (@normalize integer_norm v) <> dimension st)).
Proof.
  intros st st'.
  apply (@upsert_raise_leaves_files integer_norm st st' "jobs" ["42"] [[1; 0]%Q]).
  - split; [reflexivity|]. vm_compute. repeat constructor.
  - vm_compute. reflexivity.
Defined.

(** ** What [delete] and [upsert] do to the ids of a consistent store *)

Lemma bijective_sizes (st : store) :
  Spec.bijective st ->
  size (index_to_id st) = faiss.ntotal (index st) /\
  size (id_to_index st) = faiss.ntotal (index st).
Proof.
  intros [Hinv Hdom].
  assert (Hto : size (index_to_id st) = faiss.ntotal (index st)).
  { rewrite <- size_dom.
    assert (Hd : dom (index_to_id st) = list_to_set (seq 0 (faiss.ntotal (index st)))).
    { apply set_eq. intros slot.
      rewrite elem_of_dom, Hdom, elem_of_list_to_set, elem_of_seq. lia. }
    rewrite Hd, size_list_to_set by apply NoDup_seq. apply length_seq. }
  split; [exact Hto|]. rewrite <- Hto.
  rewrite <- !length_map_to_list.
  rewrite <- (length_map (fun kv : nat * string => (kv.2, kv.1))
               (map_to_list (index_to_id st))).
  apply Permutation_length, NoDup_Permutation.
  - apply NoDup_map_to_list.
  - apply (NoDup_map_transfer (fun kv : nat * string => kv) _).
    + rewrite map_id. apply NoDup_map_to_list.
    + intros [a b] [c e] _ _ [= -> ->]. reflexivity.
  - intros [fid slot]. rewrite elem_of_map_to_list, Hinv.
    rewrite list_elem_of_In, in_map_iff. split.
    + intros Hl. exists (slot, fid). split; [done|].
      by apply list_elem_of_In, elem_of_map_to_list.
    + intros ([a b] & [= <- <-] & Hin).
      by apply list_elem_of_In, elem_of_map_to_list in Hin.
Qed.

(** A slot is removed exactly when its id is one of the listed ids. *)
Lemma removed_slot_iff (st : store) (index_name : string) (ids : list string)
    (fid : string) (slot : nat) :
  Spec.bijective st -> index_to_id st !! slot = Some fid ->
  slot ∈ Spec.removed_slots st index_name ids
  <-> exists doc_id, doc_id ∈ ids /\ fid = full_id index_name doc_id.
Proof.
  intros [Hinv _] Hfid. unfold Spec.removed_slots. rewrite list_elem_of_omap.
  split; intros (d & Hd & Hl); exists d; (split; [done|]).
  - apply Hinv in Hl. congruence.
  - apply Hinv. congruence.
Qed.

(** An id that survives the rebuild is mapped to the slot that now holds
    its vector. *)
Lemma rebuilt_keeps (st : store) (S : gmap nat string) (fid : string)
    (slot : nat) :
  (forall i i' f, S !! i = Some f -> S !! i' = Some f -> i = i') ->
  S !! slot = Some fid -> slot < faiss.ntotal (index st) ->
  exists slot',
    id_to_index (Spec.rebuilt st S) !! fid = Some slot' /\
    faiss.xb (index (Spec.rebuilt st S)) !! slot' = faiss.xb (index st) !! slot /\
    slot' <= slot.
Proof.
  intros Hinj HS Hlt.
  destruct (lookup_lt_is_Some_2 (faiss.xb (index st)) slot Hlt) as [row Hrow].
  assert (Hin : (slot, row, fid) ∈ Spec.survivors S (faiss.xb (index st))).
  { unfold Spec.survivors. apply survivors_from_elem.
    rewrite Nat.sub_0_r. split; [lia|done]. }
  apply list_elem_of_lookup in Hin as [j Hj].
  exists j. split; [|split].
  - apply rebuilt_inverse; [done|]. rewrite rebuilt_index_to_id. by rewrite Hj.
  - unfold Spec.rebuilt. simpl.
    rewrite Hrow.
    change (map (fun p => p.1.2) (Spec.survivors S (faiss.xb (index st))))
      with ((fun p : nat * vec * string => p.1.2) <$>
              Spec.survivors S (faiss.xb (index st))).
    by rewrite list_lookup_fmap, Hj.
  - destruct (survivors_from_facts S (faiss.xb (index st)) 0) as [_ Hs].
    fold (Spec.survivors S (faiss.xb (index st))) in Hs.
    assert (Hgen : forall (l : list nat) b j x,
              StronglySorted lt l -> Forall (fun y => b <= y) l ->
              l !! j = Some x -> b + j <= x).
    { clear. induction l as [|y l IH]; intros b j x Hs Hb Hl; [done|].
      apply StronglySorted_inv in Hs as [Hs Hy].
      apply Forall_cons in Hb as [Hby _].
      destruct j as [|j]; [injection Hl as <-; lia|]. simpl in Hl.
      assert (Hb' : Forall (fun z => Datatypes.S b <= z) l).
      { eapply Forall_impl; [exact Hy|]. intros z Hz. simpl in *. lia. }
      specialize (IH (Datatypes.S b) j x Hs Hb' Hl). lia. }
    apply (Hgen _ 0 j slot Hs); [apply Forall_forall; intros; lia|].
    change (map (fun p => p.1.1) (Spec.survivors S (faiss.xb (index st))))
      with ((fun p : nat * vec * string => p.1.1) <$>
              Spec.survivors S (faiss.xb (index st))).
    by rewrite list_lookup_fmap, Hj.
Qed.

(** Every id the rebuilt store maps was mapped by [S]. *)
Lemma rebuilt_only (st : store) (S : gmap nat string) (fid : string) (slot' : nat) :
  id_to_index (Spec.rebuilt st S) !! fid = Some slot' ->
  (forall i i' f, S !! i = Some f -> S !! i' = Some f -> i = i') ->
  exists slot, S !! slot = Some fid.
Proof.
  intros Hl Hinj. apply rebuilt_inverse in Hl; [|done].
  rewrite rebuilt_index_to_id in Hl.
  destruct (Spec.survivors _ _ !! slot') as [[[slot row] f]|] eqn:Hp; [|done].
  injection Hl as ->.
  apply list_elem_of_lookup_2 in Hp. unfold Spec.survivors in Hp.
  apply survivors_from_elem in Hp as (_ & _ & HS). eauto.
Qed.

Lemma delete_removes_keep (st : store) (index_name : string) (ids : list string)
    (fid : string) (slot : nat) :
  Spec.well_formed st -> Spec.bijective st ->
  id_to_index st !! fid = Some slot ->
  (forall doc_id, doc_id ∈ ids -> fid <> full_id index_name doc_id) ->
  exists slot',
    id_to_index (fst (delete st index_name ids)) !! fid = Some slot' /\
    faiss.xb (index (fst (delete st index_name ids))) !! slot'
      = faiss.xb (index st) !! slot /\
    slot' <= slot.
Proof.
  intros Hwf Hbij Hl Hnot. rewrite delete_is_rebuild by done. simpl.
  pose proof (proj1 (proj1 Hbij fid slot) Hl) as Hto.
  apply rebuilt_keeps.
  - intros i i' f. by apply surviving_injective.
  - apply surviving_lookup. split; [done|].
    rewrite (removed_slot_iff st index_name ids fid slot Hbij Hto).
    intros (d & Hd & ->). by apply (Hnot d).
  - apply Hbij. eauto.
Qed.

(** [delete] on a consistent store removes the listed ids of the collection
    and nothing else: every other id stays mapped, to a slot that holds the
    vector it had (a slot that is not later than before), and the number of
    vectors equals the number of mapped ids. *)
Theorem delete_removes_exactly (st : store) (index_name : string)
    (ids : list string) :
  Spec.well_formed st -> Spec.bijective st ->
  let st' := fst (delete st index_name ids) in
  (forall fid,
     is_Some (id_to_index st' !! fid) <->
     is_Some (id_to_index st !! fid) /\
     forall doc_id, doc_id ∈ ids -> fid <> full_id index_name doc_id) /\
  (forall fid slot,
     id_to_index st !! fid = Some slot ->
     (forall doc_id, doc_id ∈ ids -> fid <> full_id index_name doc_id) ->
     exists slot',
       id_to_index st' !! fid = Some slot' /\
       faiss.xb (index st') !! slot' = faiss.xb (index st) !! slot /\
       slot' <= slot) /\
  get_stats st' = (size (id_to_index st'), dimension st, size (id_to_index st')).
Proof.
  intros Hwf Hbij st'.
  assert (Hst' : st' = Spec.rebuilt st (Spec.surviving st index_name ids)).
  { unfold st'. by rewrite delete_is_rebuild. }
  assert (Hinj : forall i i' f,
            Spec.surviving st index_name ids !! i = Some f ->
            Spec.surviving st index_name ids !! i' = Some f -> i = i').
  { intros i i' f. by apply surviving_injective. }
  assert (Hkeep : forall fid slot,
     id_to_index st !! fid = Some slot ->
     (forall doc_id, doc_id ∈ ids -> fid <> full_id index_name doc_id) ->
     exists slot',
       id_to_index st' !! fid = Some slot' /\
       faiss.xb (index st') !! slot' = faiss.xb (index st) !! slot /\
       slot' <= slot).
  { intros fid slot Hl Hnot. rewrite Hst'.
    pose proof (proj1 (proj1 Hbij fid slot) Hl) as Hto.
    apply rebuilt_keeps; [done| |].
    - apply surviving_lookup. split; [done|].
      rewrite (removed_slot_iff st index_name ids fid slot Hbij Hto).
      intros (d & Hd & ->). by apply (Hnot d).
    - apply Hbij. eauto. }
  split; [|split]; [|exact Hkeep|].
  - intros fid. split.
    + intros [slot' Hl]. rewrite Hst' in Hl.
      destruct (rebuilt_only _ _ _ _ Hl Hinj) as [slot HS].
      apply surviving_lookup in HS as [Hto Hnot].
      split; [exists slot; by apply Hbij|].
      intros d Hd ->. apply Hnot.
      apply (removed_slot_iff st index_name ids _ slot Hbij Hto). eauto.
    + intros [[slot Hl] Hnot].
      destruct (Hkeep fid slot Hl Hnot) as (slot' & Hl' & _). eauto.
  - destruct (delete_consistent st index_name ids Hwf Hbij) as [_ Hbij'].
    fold st' in Hbij'. destruct (bijective_sizes st' Hbij') as [_ Hsize].
    unfold get_stats. rewrite Hsize. f_equal. f_equal.
    rewrite Hst'. reflexivity.
Qed.

Lemma delete_removes_exactly_witness :
  let st' := fst (delete Spec.scenario "jobs" ["42"]) in
  (forall fid,
     is_Some (id_to_index st' !! fid) <->
     is_Some (id_to_index Spec.scenario !! fid) /\
     forall doc_id, doc_id ∈ ["42"] -> fid <> full_id "jobs" doc_id) /\
  (forall fid slot,
     id_to_index Spec.scenario !! fid = Some slot ->
     (forall doc_id, doc_id ∈ ["42"] -> fid <> full_id "jobs" doc_id) ->
     exists slot',
       id_to_index st' !! fid = Some slot' /\
       faiss.xb (index st') !! slot' = faiss.xb (index Spec.scenario) !! slot /\
       slot' <= slot) /\
  get_stats st' = (size (id_to_index st'), dimension Spec.scenario, size (id_to_index st')).
Proof.
  destruct scenario_consistent as [Hwf Hbij].
  by apply (delete_removes_exactly Spec.scenario "jobs" ["42"]).
Defined.

Lemma record_ids_old (index_name : string) (start i : nat) (ids : list string)
    (m1 : gmap string nat) (m2 : gmap nat string) (slot : nat) :
  slot < start + i ->
  (record_ids index_name start i ids m1 m2).2 !! slot = m2 !! slot.
Proof.
  revert i m1 m2. induction ids as [|d ids IH]; intros i m1 m2 Hlt; [done|].
  simpl. rewrite IH by lia. apply lookup_insert_ne. lia.
Qed.

Lemma record_ids_new (index_name : string) (start i : nat) (ids : list string)
    (m1 : gmap string nat) (m2 : gmap nat string) (j : nat) (doc_id : string) :
  ids !! j = Some doc_id ->
  (record_ids index_name start i ids m1 m2).2 !! (start + i + j)
  = Some (full_id index_name doc_id).
Proof.
  revert i m1 m2 j. induction ids as [|d ids IH]; intros i m1 m2 j Hj; [done|].
  simpl. destruct j as [|j].
  - injection Hj as ->. rewrite record_ids_old by lia.
    rewrite Nat.add_0_r. apply lookup_insert_eq.
  - simpl in Hj. replace (start + i + Datatypes.S j) with (start + Datatypes.S i + j) by lia.
    by apply IH.
Qed.

Section upsert_effect.
Context `{Numpy}.

(** The store an upsert leaves when it returns after its guards. *)
Lemma upsert_returned (st st' : store) (index_name : string)
    (ids : list string) (vectors : list vec) :
  Spec.well_formed st -> ids <> [] -> vectors <> [] ->
  upsert st index_name ids vectors = (st', Return tt) ->
  let st1 := fst (delete st index_name ids) in
  length ids = length vectors /\
  Forall (fun v => length (normalize v) = dimension st) vectors /\
  dimension st' = dimension st /\
  faiss.d (index st') = faiss.d (index st1) /\
  faiss.xb (index st') = faiss.xb (index st1) ++ map normalize vectors /\
  id_to_index st'
    = (record_ids index_name (faiss.ntotal (index st1)) 0 ids
         (id_to_index st1) (index_to_id st1)).1 /\
  index_to_id st'
    = (record_ids index_name (faiss.ntotal (index st1)) 0 ids
         (id_to_index st1) (index_to_id st1)).2.
Proof.
  intros Hwf Hi Hv Hu st1.
  assert (Hdel : delete st index_name ids = (st1, Return tt)).
  { unfold st1. by rewrite (delete_outcome st index_name ids Hwf). }
  assert (Hd1 : faiss.d (index st1) = dimension st /\ dimension st1 = dimension st).
  { unfold st1. rewrite (delete_outcome st index_name ids Hwf). simpl.
    destruct (decide _); [split; [apply Hwf|done] | done]. }
  destruct Hd1 as [Hd1 Hdim1]. clearbody st1.
  unfold upsert in Hu.
  destruct ids as [|i ids]; [done|]. destruct vectors as [|v vectors]; [done|].
  destruct (negb _) eqn:Hlen; [discriminate|].
  apply negb_false_iff, Nat.eqb_eq in Hlen.
  destruct (np.array _) as [arr|e] eqn:Harr; [|discriminate].
  apply np_array_inv in Harr as [Hrows Hdim].
  rewrite Hdel in Hu.
  unfold faiss.add in Hu.
  destruct (arr.1 =? faiss.d (index st1)) eqn:Hd; [|discriminate].
  apply Nat.eqb_eq in Hd.
  destruct (record_ids index_name (faiss.ntotal (index st1)) 0 (i :: ids)
              (id_to_index st1) (index_to_id st1)) as [m1 m2].
  injection Hu as <-.
  split; [done|]. split.
  { change (normalize v :: map normalize vectors) with (map normalize (v :: vectors)) in Hdim.
    apply Forall_forall. intros w Hw. rewrite Forall_forall in Hdim.
    rewrite <- Hd1, <- Hd. apply Hdim.
    apply list_elem_of_In, in_map, list_elem_of_In, Hw. }
  split; [done|]. split; [done|]. split; [|done].
  cbn [save index faiss.xb]. by rewrite Hrows.
Qed.

(** After such an upsert every listed id is mapped, in both directions, to
    the slot that holds its normalised vector. *)
Lemma upsert_slot_of_id (st st' : store) (index_name : string)
    (ids : list string) (vectors : list vec) (j : nat) (doc_id : string) (v : vec) :
  Spec.well_formed st -> Spec.bijective st -> NoDup ids ->
  ids <> [] -> vectors <> [] ->
  upsert st index_name ids vectors = (st', Return tt) ->
  ids !! j = Some doc_id -> vectors !! j = Some v ->
  exists slot,
    id_to_index st' !! full_id index_name doc_id = Some slot /\
    index_to_id st' !! slot = Some (full_id index_name doc_id) /\
    faiss.xb (index st') !! slot = Some (normalize v).
Proof.
  intros Hwf Hbij Hnd Hi Hv Hu Hj Hvj.
  destruct (upsert_consistent st index_name ids vectors Hwf Hbij Hnd) as [_ Hbij'].
  rewrite Hu in Hbij'. simpl in Hbij'.
  destruct (upsert_returned st st' index_name ids vectors Hwf Hi Hv Hu)
    as (Hlen & _ & _ & _ & Hxb & _ & Hto).
  exists (faiss.ntotal (index (fst (delete st index_name ids))) + j).
  assert (Hslot : index_to_id st' !! (faiss.ntotal (index (fst (delete st index_name ids))) + j)
                  = Some (full_id index_name doc_id)).
  { rewrite Hto.
    replace (faiss.ntotal (index (delete st index_name ids).1) + j)
      with (faiss.ntotal (index (delete st index_name ids).1) + 0 + j) by lia.
    by apply record_ids_new. }
  split; [by apply Hbij'|]. split; [exact Hslot|].
  rewrite Hxb. unfold faiss.ntotal.
  rewrite lookup_app_r by lia.
  replace (length (faiss.xb (index (delete st index_name ids).1)) + j
           - length (faiss.xb (index (delete st index_name ids).1))) with j by lia.
  change (map normalize vectors) with (normalize <$> vectors).
  by rewrite list_lookup_fmap, Hvj.
Qed.

(** Ids that are not listed keep their vector across the upsert. *)
Lemma upsert_keeps_other (st st' : store) (index_name : string)
    (ids : list string) (vectors : list vec) (fid : string) (slot : nat) :
  Spec.well_formed st -> Spec.bijective st -> NoDup ids ->
  ids <> [] -> vectors <> [] ->
  upsert st index_name ids vectors = (st', Return tt) ->
  id_to_index st !! fid = Some slot ->
  (forall doc_id, doc_id ∈ ids -> fid <> full_id index_name doc_id) ->
  exists slot',
    id_to_index st' !! fid = Some slot' /\
    faiss.xb (index st') !! slot' = faiss.xb (index st) !! slot.
Proof.
  intros Hwf Hbij Hnd Hi Hv Hu Hl Hnot.
  destruct (upsert_consistent st index_name ids vectors Hwf Hbij Hnd) as [_ Hbij'].
  rewrite Hu in Hbij'. simpl in Hbij'.
  destruct (upsert_returned st st' index_name ids vectors Hwf Hi Hv Hu)
    as (_ & _ & _ & _ & Hxb & _ & Hto).
  destruct (delete_removes_keep st index_name ids fid slot Hwf Hbij Hl Hnot)
    as (slot1 & Hl1 & Hxb1 & _).
  destruct (delete_consistent st index_name ids Hwf Hbij) as [_ Hbij1].
  assert (Hlt : slot1 < faiss.ntotal (index (fst (delete st index_name ids)))).
  { apply Hbij1. exists fid. by apply Hbij1. }
  exists slot1. split.
  - apply Hbij'. rewrite Hto, record_ids_old by lia. by apply Hbij1.
  - rewrite Hxb, lookup_app_l by exact Hlt. exact Hxb1.
Qed.

End upsert_effect.

Lemma delete_only_old (st : store) (index_name : string) (ids : list string)
    (fid : string) (slot' : nat) :
  Spec.well_formed st -> Spec.bijective st ->
  id_to_index (fst (delete st index_name ids)) !! fid = Some slot' ->
  is_Some (id_to_index st !! fid).
Proof.
  intros Hwf Hbij Hl. rewrite delete_is_rebuild in Hl by done. simpl in Hl.
  destruct (rebuilt_only _ _ _ _ Hl) as [slot HS].
  { intros i i' f. by apply surviving_injective. }
  apply surviving_lookup in HS as [Hto _]. exists slot. by apply Hbij.
Qed.

Section upsert_semantics.
Context `{Numpy}.

(** An upsert of distinct ids that returns, on a consistent store: every
    listed id is mapped to a slot holding its normalised vector; every
    other id keeps the vector it had; the mapped ids are the old ones and
    the listed ones, nothing else; and the number of vectors equals the
    number of mapped ids, so an id that was already stored is replaced, not
    stored twice. *)
Theorem upsert_replaces_not_duplicates (st st' : store) (index_name : string)
    (ids : list string) (vectors : list vec) :
  Spec.well_formed st -> Spec.bijective st -> NoDup ids ->
  ids <> [] -> vectors <> [] ->
  upsert st index_name ids vectors = (st', Return tt) ->
  (forall j doc_id v,
     ids !! j = Some doc_id -> vectors !! j = Some v ->
     exists slot,
       id_to_index st' !! full_id index_name doc_id = Some slot /\
       faiss.xb (index st') !! slot = Some (normalize v)) /\
  (forall fid slot,
     id_to_index st !! fid = Some slot ->
     (forall doc_id, doc_id ∈ ids -> fid <> full_id index_name doc_id) ->
     exists slot',
       id_to_index st' !! fid = Some slot' /\
       faiss.xb (index st') !! slot' = faiss.xb (index st) !! slot) /\
  (forall fid,
     is_Some (id_to_index st' !! fid) <->
     is_Some (id_to_index st !! fid) \/
     exists doc_id, doc_id ∈ ids /\ fid = full_id index_name doc_id) /\
  get_stats st' = (size (id_to_index st'), dimension st, size (id_to_index st')).
Proof.
  intros Hwf Hbij Hnd Hi Hv Hu.
  destruct (upsert_consistent st index_name ids vectors Hwf Hbij Hnd) as [_ Hbij'].
  rewrite Hu in Hbij'. simpl in Hbij'.
  destruct (upsert_returned st st' index_name ids vectors Hwf Hi Hv Hu)
    as (Hlen & _ & Hdim & _ & Hxb & _ & Hto).
  set (st1 := fst (delete st index_name ids)) in *.
  assert (Hnew : forall j doc_id v,
     ids !! j = Some doc_id -> vectors !! j = Some v ->
     exists slot,
       id_to_index st' !! full_id index_name doc_id = Some slot /\
       faiss.xb (index st') !! slot = Some (normalize v)).
  { intros j d v Hj Hvj.
    destruct (upsert_slot_of_id st st' index_name ids vectors j d v)
      as (slot & ? & _ & ?); eauto. }
  split; [exact Hnew|]. split; [|split].
  - intros fid slot Hl Hnot. by eapply upsert_keeps_other.
  - intros fid. split.
    + intros [s Hs]. apply Hbij' in Hs.
      destruct (decide (s < faiss.ntotal (index st1))) as [Hlt|Hge].
      * left. rewrite Hto, record_ids_old in Hs by lia.
        destruct (delete_consistent st index_name ids Hwf Hbij) as [_ Hbij1].
        apply Hbij1 in Hs. by eapply delete_only_old.
      * right.
        assert (Hs' : s < faiss.ntotal (index st')) by (apply Hbij'; eauto).
        unfold faiss.ntotal in Hs', Hge. rewrite Hxb, length_app, length_map in Hs'.
        destruct (lookup_lt_is_Some_2 ids (s - length (faiss.xb (index st1))))
          as [d Hd]; [lia|].
        exists d. split; [by eapply list_elem_of_lookup_2|].
        pose proof (record_ids_new index_name (faiss.ntotal (index st1)) 0 ids
                      (id_to_index st1) (index_to_id st1) _ d Hd) as Hr.
        rewrite <- Hto in Hr. unfold faiss.ntotal in Hr.
        replace (length (faiss.xb (index st1)) + 0
                 + (s - length (faiss.xb (index st1)))) with s in Hr by lia.
        congruence.
    + intros [[slot Hl]|(d & Hd & ->)].
      * destruct (decide (Exists (fun d => fid = full_id index_name d) ids))
          as [Hex|Hnex].
        -- apply Exists_exists in Hex as (d & Hd & ->).
           apply list_elem_of_lookup in Hd as [j Hj].
           destruct (lookup_lt_is_Some_2 vectors j) as [v Hvj].
           { rewrite <- Hlen. by eapply lookup_lt_Some. }
           destruct (Hnew j d v Hj Hvj) as (s & Hs & _). eauto.
        -- destruct (upsert_keeps_other st st' index_name ids vectors fid slot)
             as (s & Hs & _); eauto.
           intros d Hd ->. apply Hnex, Exists_exists. eauto.
      * apply list_elem_of_lookup in Hd as [j Hj].
        destruct (lookup_lt_is_Some_2 vectors j) as [v Hvj].
        { rewrite <- Hlen. by eapply lookup_lt_Some. }
        destruct (Hnew j d v Hj Hvj) as (s & Hs & _). eauto.
  - destruct (bijective_sizes st' Hbij') as [_ Hsize].
    unfold get_stats. by rewrite Hsize, Hdim.
Qed.

End upsert_semantics.

Lemma upsert_replaces_not_duplicates_witness :
  let st' := fst (@upsert integer_norm Spec.scenario "jobs" ["42"] [[0; 0; 2]%Q]) in
  (forall j doc_id v,
     ["42"] !! j = Some doc_id -> [[0; 0; 2]%Q] !! j = Some v ->
     exists slot,
       id_to_index st' !! full_id "jobs" doc_id = Some slot /\
       faiss.xb (index st') !! slot = Some (@normalize integer_norm v)) /\
  (forall fid slot,
     id_to_index Spec.scenario !! fid = Some slot ->
     (forall doc_id, doc_id ∈ ["42"] -> fid <> full_id "jobs" doc_id) ->
     exists slot',
       id_to_index st' !! fid = Some slot' /\
       faiss.xb (index st') !! slot' = faiss.xb (index Spec.scenario) !! slot) /\
  (forall fid,
     is_Some (id_to_index st' !! fid) <->
     is_Some (id_to_index Spec.scenario !! fid) \/
     exists doc_id, doc_id ∈ ["42"] /\ fid = full_id "jobs" doc_id) /\
  get_stats st' = (size (id_to_index st'), dimension Spec.scenario, size (id_to_index st')).
Proof.
  destruct scenario_consistent as [Hwf Hbij].
  apply (@upsert_replaces_not_duplicates integer_norm Spec.scenario _ "jobs"
           ["42"] [[0; 0; 2]%Q]);
    [exact Hwf | exact Hbij | | done | done | ].
  - repeat constructor. by intros ?%elem_of_nil.
  - vm_compute. reflexivity.
Defined.

(** Re-upserting a stored id leaves the count where it was. *)
Example reupsert_count :
  get_stats Spec.scenario = (2, 3, 2) /\
  get_stats (fst (@upsert integer_norm Spec.scenario "jobs" ["42"] [[0; 0; 2]%Q]))
    = (2, 3, 2).
Proof. split; vm_compute; reflexivity. Qed.

(** ** Searching after an upsert or a delete *)

Lemma prefix_app (p s : string) : String.prefix p (p +:+ s) = true.
Proof.
  induction p as [|a p IH]; [by destruct s|].
  change (String.prefix (String a p) (String a (p +:+ s)) = true). simpl.
  by destruct (Ascii.ascii_dec a a).
Qed.

Lemma drop_chars_app (p s : string) : py.drop_chars (String.length p) (p +:+ s) = s.
Proof. induction p as [|a p IH]; [done|]. exact IH. Qed.

Lemma full_id_split (index_name doc_id : string) :
  py.startswith (full_id index_name doc_id) (index_name +:+ ":") = true /\
  py.drop_chars (String.length (index_name +:+ ":")) (full_id index_name doc_id) = doc_id.
Proof.
  unfold full_id, py.startswith. rewrite <- string_app_assoc.
  split; [apply prefix_app | apply drop_chars_app].
Qed.

(** A hit whose slot is mapped to an id of the collection is reported. *)
Lemma collect_elem (m : gmap nat string) (index_name doc_id : string)
    (hits : list (Q * nat)) (score : Q) (slot : nat) :
  (score, slot) ∈ hits -> m !! slot = Some (full_id index_name doc_id) ->
  (doc_id, score) ∈ collect m index_name hits.
Proof.
  intros Hin Hm. destruct (full_id_split index_name doc_id) as [Hp Hd].
  induction hits as [|[s i] hits IH]; [by apply elem_of_nil in Hin|].
  apply elem_of_cons in Hin as [[= <- <-]|Hin]; simpl.
  - rewrite Hm, Hp, Hd. by left.
  - destruct (m !! i) as [fid|]; [|by apply IH].
    destruct (py.startswith fid _); [right|]; by apply IH.
Qed.

Lemma ranking_elem (idx : faiss.IndexFlatIP) (q row : vec) (slot : nat) :
  faiss.xb idx !! slot = Some row ->
  (faiss.inner_product q row, slot) ∈ py.sort_desc fst (faiss.scores idx q).
Proof.
  intros Hrow. rewrite sort_desc_perm. unfold faiss.scores.
  apply (elem_of_lookup_imap_2 (fun i x => (faiss.inner_product q x, i)) _ _ slot Hrow).
Qed.

Section search_after.
Context `{Numpy}.

(** Upsert then search: on a consistent store, after an upsert of distinct
    ids that returns, a search of the same collection over the whole store
    with a query of the store's dimension reports every upserted id, with
    the inner product of the normalised query and its normalised vector as
    score. *)
Theorem upsert_then_search_finds (st st' : store) (index_name : string)
    (ids : list string) (vectors : list vec) (j : nat) (doc_id : string)
    (v vector : vec) (top_k : Z) :
  Spec.well_formed st -> Spec.bijective st -> NoDup ids ->
  upsert st index_name ids vectors = (st', Return tt) ->
  ids !! j = Some doc_id -> vectors !! j = Some v ->
  (Z.of_nat (faiss.ntotal (index st')) <= top_k)%Z ->
  length (normalize vector) = dimension st ->
  exists results,
    search st' index_name vector top_k = Return results /\
    (doc_id, faiss.inner_product (normalize vector) (normalize v)) ∈ results.
Proof.
  intros Hwf Hbij Hnd Hu Hj Hvj Hk Hd.
  assert (Hi : ids <> []) by (by destruct ids).
  assert (Hv : vectors <> []) by (by destruct vectors).
  destruct (upsert_slot_of_id st st' index_name ids vectors j doc_id v)
    as (slot & _ & Hto & Hrow); try done.
  destruct (upsert_consistent st index_name ids vectors Hwf Hbij Hnd) as [Hwf' Hbij'].
  rewrite Hu in Hwf', Hbij'. simpl in Hwf', Hbij'.
  destruct (upsert_returned st st' index_name ids vectors Hwf Hi Hv Hu)
    as (_ & _ & Hdim & _).
  assert (Hlt : slot < faiss.ntotal (index st')) by (apply Hbij'; eauto).
  eexists. split.
  - apply search_returns; [lia|]. rewrite Hd, <- Hdim. symmetry. apply Hwf'.
  - rewrite take_ge by (rewrite ranking_length; lia).
    eapply collect_elem; [|exact Hto]. by apply ranking_elem.
Qed.

(** Delete then search: on a consistent store, no search after a delete
    reports a deleted id of that collection, whatever the query. *)
Theorem search_omits_deleted (st : store) (index_name : string)
    (ids : list string) (doc_id : string) (vector : vec) (top_k : Z)
    (results : list (string * Q)) :
  Spec.well_formed st -> Spec.bijective st -> doc_id ∈ ids ->
  search (fst (delete st index_name ids)) index_name vector top_k = Return results ->
  forall score, (doc_id, score) ∉ results.
Proof.
  intros Hwf Hbij Hin Hs score Hres.
  destruct (delete_consistent st index_name ids Hwf Hbij) as [_ Hbij'].
  pose proof (delete_unmaps st index_name ids doc_id Hwf Hbij Hin) as Hnone.
  set (st' := fst (delete st index_name ids)) in *.
  apply search_inv in Hs.
  pose proof (collect_retained (index_to_id st') index_name
                (take (Nat.min (Z.to_nat top_k) (faiss.ntotal (index st')))
                   (py.sort_desc fst (faiss.scores (index st') (normalize vector)))))
    as Hc.
  rewrite <- Hs in Hc. clear Hs.
  induction Hc as [|h r hs rs [Hm _] _ IH]; [by apply elem_of_nil in Hres|].
  apply elem_of_cons in Hres as [<-|Hres]; [|by apply IH].
  simpl in Hm. apply Hbij' in Hm. congruence.
Qed.

(** Every hit of the ranking is retained when the store holds one
    collection only. *)
Lemma search_count_of_collection (st : store) (index_name : string)
    (vector : vec) (top_k : Z) :
  Spec.bijective st ->
  (forall slot fid, index_to_id st !! slot = Some fid ->
     exists doc_id, fid = full_id index_name doc_id) ->
  (0 < top_k)%Z -> length (normalize vector) = faiss.d (index st) ->
  exists results,
    search st index_name vector top_k = Return results /\
    length results = Nat.min (Z.to_nat top_k) (faiss.ntotal (index st)).
Proof.
  intros Hbij Hall Hk Hd. eexists. split; [by apply search_returns|].
  rewrite collect_length.
  set (top := take _ _).
  assert (Hkeep : List.filter (Spec.retained (index_to_id st) index_name) top = top).
  { assert (Hsc : Forall (Spec.scored (index st) (normalize vector)) top).
    { eapply Forall_sublist_of; [apply sublist_take | apply ranking_scored]. }
    induction Hsc as [|h hs (row & Hrow & _) _ IH]; [done|]. simpl.
    unfold Spec.retained at 1.
    destruct (proj2 (proj2 Hbij (snd h))) as [fid Hfid].
    { by eapply lookup_lt_Some. }
    rewrite Hfid. destruct (Hall _ _ Hfid) as [d ->].
    rewrite (proj1 (full_id_split index_name d)). by rewrite IH. }
  rewrite Hkeep. unfold top. rewrite length_take, ranking_length. lia.
Qed.

(** On a consistent store that holds one collection only, a search of that
    collection with a positive [top_k] and a query of the index dimension
    returns exactly [min top_k ntotal] pairs. *)
Theorem search_single_collection_count (st : store) (index_name : string)
    (vector : vec) (top_k : Z) :
  Spec.bijective st ->
  (forall slot fid, index_to_id st !! slot = Some fid ->
     exists doc_id, fid = full_id index_name doc_id) ->
  (0 < top_k)%Z -> length (normalize vector) = faiss.d (index st) ->
  exists results,
    search st index_name vector top_k = Return results /\
    length results = Nat.min (Z.to_nat top_k) (faiss.ntotal (index st)).
Proof. apply search_count_of_collection. Qed.

End search_after.

Lemma upsert_then_search_finds_witness :
  exists results,
    @search integer_norm Spec.scenario "jobs" [3; 4; 0]%Q 2 = Return results /\
    ("43", faiss.inner_product (@normalize integer_norm [3; 4; 0]%Q)
             (@normalize integer_norm [0; 1; 0]%Q)) ∈ results.
Proof.
  apply (@upsert_then_search_finds integer_norm
           (fst (@upsert integer_norm (create 3) "jobs" ["42"] [[1; 0; 0]%Q]))
           Spec.scenario "jobs" ["43"] [[0; 1; 0]%Q] 0 "43" [0; 1; 0]%Q).
  - split; [reflexivity|]. vm_compute. repeat constructor.
  - change (fst (@upsert integer_norm (create 3) "jobs" ["42"] [[1; 0; 0]%Q]))
      with (@Spec.run integer_norm (create 3) [Spec.Upsert "jobs" ["42"] [[1; 0; 0]%Q]]).
    destruct (create_consistent 3) as [Hwf Hbij].
    apply (@run_consistent integer_norm); [|done|done].
    repeat constructor. by intros ?%elem_of_nil.
  - repeat constructor. by intros ?%elem_of_nil.
  - reflexivity.
  - reflexivity.
  - reflexivity.
  - vm_compute. discriminate.
  - vm_compute. reflexivity.
Defined.

Lemma search_omits_deleted_witness :
  @search integer_norm (fst (delete Spec.scenario "jobs" ["42"])) "jobs"
    [1; 0; 0]%Q 5 = Return [("43", 0%Q)] /\
  ("42", 1%Q) ∉ [("43", 0%Q)].
Proof.
  destruct scenario_consistent as [Hwf Hbij].
  split; [vm_compute; reflexivity|].
  apply (@search_omits_deleted integer_norm Spec.scenario "jobs" ["42"] "42"
           [1; 0; 0]%Q 5 [("43", 0%Q)] Hwf Hbij); [by left | vm_compute; reflexivity].
Defined.

Lemma search_single_collection_count_witness :
  exists results,
    @search integer_norm Spec.scenario "jobs" [1; 0; 0]%Q 1 = Return results /\
    length results = Nat.min (Z.to_nat 1) (faiss.ntotal (index Spec.scenario)).
Proof.
  destruct scenario_consistent as [Hwf Hbij].
  apply (@search_single_collection_count integer_norm); [done| |lia|reflexivity].
  intros slot fid Hfid.
  assert (Hlt : slot < 2) by (apply Hbij; eauto).
  destruct slot as [|[|slot]]; [| |lia]; vm_compute in Hfid;
    injection Hfid as <-; [by exists "42" | by exists "43"].
Defined.

(** ** Statistics of a store built from the empty one *)

Lemma delete_dimension (st : store) (index_name : string) (ids : list string) :
  dimension (fst (delete st index_name ids)) = dimension st.
Proof.
  unfold delete. destruct ids as [|i ids]; [done|].
  destruct (mark_removed _ _ _ _ _) as [[m1 m2] rem].
  destruct rem as [|r rem]; [done|].
  unfold _rebuild_index_without_indices.
  destruct (rebuild_scan _ _ _ _ _ _) as [av nm].
  destruct av as [|v av]; [done|].
  destruct (np.array _) as [arr|e]; [|done].
  destruct (faiss.add _ arr); done.
Qed.

Lemma upsert_dimension `{Numpy} (st : store) (index_name : string)
    (ids : list string) (vectors : list vec) :
  dimension (fst (upsert st index_name ids vectors)) = dimension st.
Proof.
  unfold upsert. destruct ids as [|i ids]; [done|].
  destruct vectors as [|v vectors]; [done|].
  destruct (negb _); [done|]. destruct (np.array _) as [arr|e]; [|done].
  pose proof (delete_dimension st index_name (i :: ids)) as Hd.
  destruct (delete st index_name (i :: ids)) as [st1 [[]|e]]; [|done].
  destruct (faiss.add _ arr); [|done].
  by destruct (record_ids _ _ _ _ _ _).
Qed.

Lemma run_dimension `{Numpy} (st : store) (ops : list Spec.op) :
  dimension (Spec.run st ops) = dimension st.
Proof.
  unfold Spec.run. revert st. induction ops as [|o ops IH]; intros st; [done|].
  simpl. rewrite IH. destruct o; simpl; [apply upsert_dimension | apply delete_dimension].
Qed.

(** From the empty store, after any sequence of upserts and deletes in
    which no upsert repeats an id inside its batch, the statistics report
    as many mapped ids as vectors, and the dimension the store was created
    with. *)
Theorem stats_of_distinct_batches `{Numpy} (dim : nat) (ops : list Spec.op) :
  Forall Spec.distinct_ids ops ->
  let st := Spec.run (create dim) ops in
  get_stats st = (faiss.ntotal (index st), dim, faiss.ntotal (index st)) /\
  size (index_to_id st) = faiss.ntotal (index st) /\
  faiss.d (index st) = dim /\
  Forall (fun row => length row = dim) (faiss.xb (index st)).
Proof.
  intros Hops st.
  destruct (create_consistent dim) as [Hwf Hbij].
  destruct (run_consistent (create dim) ops Hops Hwf Hbij) as [Hwf' Hbij'].
  fold st in Hwf', Hbij'.
  destruct (bijective_sizes st Hbij') as [Hto Hfrom].
  pose proof (run_dimension (create dim) ops) as Hdim. fold st in Hdim. simpl in Hdim.
  destruct Hwf' as [Hd Hrows]. rewrite Hdim in Hd, Hrows.
  unfold get_stats. by rewrite Hfrom, Hdim.
Qed.

Lemma stats_of_distinct_batches_witness :
  let st := @Spec.run integer_norm (create 3)
              [Spec.Upsert "jobs" ["42"; "43"] [[1; 0; 0]%Q; [0; 1; 0]%Q];
               Spec.Upsert "jobs" ["43"] [[0; 0; 1]%Q];
               Spec.Delete "jobs" ["42"; "7"]] in
  get_stats st = (faiss.ntotal (index st), 3, faiss.ntotal (index st)) /\
  size (index_to_id st) = faiss.ntotal (index st) /\
  faiss.d (index st) = 3 /\
  Forall (fun row => length row = 3) (faiss.xb (index st)).
Proof.
  apply (@stats_of_distinct_batches integer_norm 3).
  repeat constructor; simpl; compute_done.
Defined.

Lemma mapping_invariant_of_distinct_batches_witness :
  Spec.mapping_invariant
    (@Spec.run integer_norm (create 3)
       [Spec.Upsert "jobs" ["42"; "43"] [[1; 0; 0]%Q; [0; 1; 0]%Q];
        Spec.Upsert "jobs" ["43"] [[0; 0; 1]%Q];
        Spec.Delete "jobs" ["42"; "7"]]).
Proof.
  apply (@mapping_invariant_of_distinct_batches integer_norm 3).
  repeat constructor; simpl; compute_done.
Defined.

(** ** When an upsert returns *)

Section upsert_outcome.
Context `{Numpy}.

(** Sufficient for an upsert to return on a well-formed store: as many
    vectors as ids, each of the store's dimension once normalised. *)
Lemma upsert_returns (st : store) (index_name : string)
    (ids : list string) (vectors : list vec) :
  Spec.well_formed st -> length ids = length vectors ->
  Forall (fun v => length (normalize v) = dimension st) vectors ->
  snd (upsert st index_name ids vectors) = Return tt.
Proof.
  intros Hwf Hlen Hall. unfold upsert.
  destruct ids as [|i ids]; [done|]. destruct vectors as [|v vectors]; [done|].
  rewrite Hlen, Nat.eqb_refl. cbn [negb].
  rewrite (np_array_uniform (map normalize (v :: vectors)) (dimension st)).
  - rewrite (delete_outcome st index_name (i :: ids) Hwf).
    set (st1 := if decide _ then st else _).
    assert (Hd1 : faiss.d (index st1) = dimension st).
    { unfold st1. destruct (decide _); [apply Hwf | reflexivity]. }
    unfold faiss.add. cbn [fst]. rewrite Hd1, Nat.eqb_refl.
    by destruct (record_ids _ _ _ _ _ _).
  - done.
  - apply Forall_forall. intros r Hr.
    apply list_elem_of_In, in_map_iff in Hr as (w & <- & Hw).
    rewrite Forall_forall in Hall. apply Hall. by apply list_elem_of_In.
Qed.

(** The only way a single-pair upsert raises on a well-formed store: the
    vector has another dimension; the stored vector of the id has then been
    removed from memory by the delete step. *)
Lemma upsert_single_raises (st st' : store) (index_name doc_id : string)
    (v : vec) (e : exn) :
  Spec.well_formed st ->
  upsert st index_name [doc_id] [v] = (st', Raise e) ->
  e = AssertionError /\ st' = fst (delete st index_name [doc_id]) /\
  length (normalize v) <> dimension st.
Proof.
  intros Hwf Hu.
  destruct (decide (length (normalize v) = dimension st)) as [Hd|Hd].
  - pose proof (upsert_returns st index_name [doc_id] [v] Hwf eq_refl) as Hr.
    rewrite Hu in Hr. simpl in Hr. discriminate Hr. by constructor.
  - revert Hu. unfold upsert. cbn [length Nat.eqb negb map np.array forallb].
    rewrite (delete_outcome st index_name [doc_id] Hwf).
    set (st1 := if decide _ then st else _).
    assert (Hd1 : faiss.d (index st1) = dimension st).
    { unfold st1. destruct (decide _); [apply Hwf | reflexivity]. }
    unfold faiss.add. cbn [fst]. rewrite Hd1.
    destruct (length (normalize v) =? dimension st) eqn:E.
    { by apply Nat.eqb_eq in E. }
    by intros [= <- <-].
Qed.

(** On a well-formed store an upsert returns exactly when one of the lists
    is empty, or the lists have the same length and every vector has the
    dimension of the store once normalised. *)
Theorem upsert_returns_iff (st : store) (index_name : string)
    (ids : list string) (vectors : list vec) :
  Spec.well_formed st ->
  (snd (upsert st index_name ids vectors) = Return tt <->
   ids = [] \/ vectors = [] \/
   (length ids = length vectors /\
    Forall (fun v => length (normalize v) = dimension st) vectors)).
Proof.
  intros Hwf. split.
  - intros Hr.
    destruct ids as [|i ids]; [by left|].
    destruct vectors as [|v vectors]; [by right; left|].
    right; right.
    destruct (upsert st index_name (i :: ids) (v :: vectors)) as [st' r] eqn:Hu.
    simpl in Hr. subst r.
    destruct (upsert_returned st st' index_name (i :: ids) (v :: vectors))
      as (Hlen & Hall & _); done.
  - intros [-> | [-> | [Hlen Hall]]].
    + reflexivity.
    + by destruct ids.
    + by apply upsert_returns.
Qed.

End upsert_outcome.

Lemma upsert_returns_iff_witness :
  snd (@upsert integer_norm Spec.scenario "jobs" ["9"; "43"]
         [[3; 4; 0]%Q; [0; 0; 2]%Q]) = Return tt.
Proof.
  destruct scenario_consistent as [Hwf _].
  apply (@upsert_returns_iff integer_norm Spec.scenario "jobs"); [exact Hwf|].
  right; right. split; [reflexivity|]. repeat constructor.
Defined.

(** * Properties of the matching service *)

(** ** Indexing and searching one entity *)

Section single_entity.
Context `{Numpy} `{EmbeddingProvider} {E : Type}.
Variable prepare : E -> result string.

(** [True] is returned only after the text was found non-blank, embedded,
    and upserted without error. *)
Lemma index_entity_true (st st' : store) (index_name entity_id : string) (e : E) :
  MatchingService.index_entity prepare st index_name entity_id e = (st', true) ->
  exists text v,
    prepare e = Return text /\ py.strip_nonempty text = true /\
    embed_single_text text = Some v /\
    upsert st index_name [entity_id] [v] = (st', Return tt).
Proof.
  unfold MatchingService.index_entity.
  destruct (prepare e) as [text|err]; [|discriminate].
  destruct (py.strip_nonempty text) eqn:Ht; [|discriminate]. cbn [negb].
  destruct (embed_single_text text) as [v|] eqn:Hv; [|discriminate].
  destruct (upsert st index_name [entity_id] [v]) as [st1 [[]|err]] eqn:Hu;
    [|discriminate].
  intros [= <-]. by exists text, v.
Qed.

(** [False] is returned with the store untouched, unless it is the upsert
    that raised. *)
Lemma index_entity_false (st st' : store) (index_name entity_id : string) (e : E) :
  MatchingService.index_entity prepare st index_name entity_id e = (st', false) ->
  (st' = st /\
   forall text, prepare e = Return text ->
     py.strip_nonempty text = false \/ embed_single_text text = None) \/
  exists text v err,
    prepare e = Return text /\ py.strip_nonempty text = true /\
    embed_single_text text = Some v /\
    upsert st index_name [entity_id] [v] = (st', Raise err).
Proof.
  unfold MatchingService.index_entity.
  destruct (prepare e) as [text|err]; [|intros [= <-]; by left].
  destruct (py.strip_nonempty text) eqn:Ht;
    [|intros [= <-]; left; split; [done|]; intros ? [= <-]; by left].
  cbn [negb].
  destruct (embed_single_text text) as [v|] eqn:Hv;
    [|intros [= <-]; left; split; [done|]; intros ? [= <-]; by right].
  destruct (upsert st index_name [entity_id] [v]) as [st1 [[]|err]] eqn:Hu;
    [discriminate|].
  intros [= <-]. right. by exists text, v, err.
Qed.

(** On a well-formed store the call succeeds exactly when the text is not
    blank and the model returns a vector of the store's dimension. *)
Lemma index_entity_succeeds (st : store) (index_name entity_id : string) (e : E) :
  Spec.well_formed st ->
  (snd (MatchingService.index_entity prepare st index_name entity_id e) = true <->
   exists text v,
     prepare e = Return text /\ py.strip_nonempty text = true /\
     embed_single_text text = Some v /\
     length (normalize v) = dimension st).
Proof.
  intros Hwf. split.
  - destruct (MatchingService.index_entity prepare st index_name entity_id e)
      as [st' ok] eqn:Hi.
    simpl. intros ->.
    apply index_entity_true in Hi as (text & v & Hp & Ht & Hv & Hu).
    exists text, v. repeat split; try done.
    destruct (upsert_returned st st' index_name [entity_id] [v]) as (_ & Hall & _);
      try done.
    by apply Forall_cons in Hall as [Hd _].
  - intros (text & v & Hp & Ht & Hv & Hd).
    unfold MatchingService.index_entity. rewrite Hp, Ht, Hv. cbn [negb].
    pose proof (upsert_returns st index_name [entity_id] [v] Hwf eq_refl) as Hr.
    destruct (upsert st index_name [entity_id] [v]) as [st1 r].
    simpl in Hr. rewrite Hr; [done|]. by constructor.
Qed.

(** The result of a search for matches is either empty or what the store's
    search returns for the embedding of the reference text. *)
Lemma find_matches_cases (st : store) (index_name : string) (e : E) (top_k : Z) :
  MatchingService.find_matches prepare st index_name e top_k = [] \/
  exists text q,
    prepare e = Return text /\ embed_single_text text = Some q /\
    search st index_name q top_k
    = Return (MatchingService.find_matches prepare st index_name e top_k).
Proof.
  unfold MatchingService.find_matches.
  destruct (prepare e) as [text|err]; [|by left].
  destruct (negb _); [by left|].
  destruct (embed_single_text text) as [q|] eqn:Hq; [|by left].
  destruct (search st index_name q top_k) as [results|err] eqn:Hs; [|by left].
  right. by exists text, q.
Qed.

Lemma find_matches_returns (st : store) (index_name : string) (e : E) (top_k : Z)
    (text : string) (q : vec) (results : list (string * Q)) :
  prepare e = Return text -> py.strip_nonempty text = true ->
  embed_single_text text = Some q ->
  search st index_name q top_k = Return results ->
  MatchingService.find_matches prepare st index_name e top_k = results.
Proof.
  intros Hp Ht Hq Hs. unfold MatchingService.find_matches.
  by rewrite Hp, Ht, Hq, Hs.
Qed.

End single_entity.

Section index_and_find.
Context `{Numpy} `{EmbeddingProvider} {E E' : Type}.
Variable prepare : E -> result string.
Variable prepare' : E' -> result string.

(** An entity that was indexed is persisted, and is among the matches of
    every reference entity whose text is embedded in the store's dimension,
    when the whole store is asked for. *)
Lemma index_then_find (st st' : store) (index_name entity_id : string) (e : E) :
  Spec.well_formed st -> Spec.bijective st ->
  MatchingService.index_entity prepare st index_name entity_id e = (st', true) ->
  Spec.well_formed st' /\ Spec.bijective st' /\ Spec.in_sync st' /\
  exists text v,
    prepare e = Return text /\ embed_single_text text = Some v /\
    forall (e' : E') (text' : string) (q : vec) (top_k : Z),
      prepare' e' = Return text' -> py.strip_nonempty text' = true ->
      embed_single_text text' = Some q ->
      length (normalize q) = dimension st ->
      (Z.of_nat (faiss.ntotal (index st')) <= top_k)%Z ->
      (entity_id, faiss.inner_product (normalize q) (normalize v))
        ∈ MatchingService.find_matches prepare' st' index_name e' top_k.
Proof.
  intros Hwf Hbij Hi.
  apply index_entity_true in Hi as (text & v & Hp & Ht & Hv & Hu).
  assert (Hnd : NoDup [entity_id]) by (apply NoDup_singleton).
  destruct (upsert_consistent st index_name [entity_id] [v] Hwf Hbij Hnd)
    as [Hwf' Hbij'].
  rewrite Hu in Hwf', Hbij'. simpl in Hwf', Hbij'.
  split; [done|]. split; [done|].
  split; [by apply (upsert_writes_through st st' index_name [entity_id] [v])|].
  exists text, v. split; [done|]. split; [done|].
  intros e' text' q top_k Hp' Ht' Hq Hd Hk.
  destruct (upsert_slot_of_id st st' index_name [entity_id] [v] 0 entity_id v)
    as (slot & _ & Hto & Hrow); try done.
  destruct (upsert_returned st st' index_name [entity_id] [v])
    as (_ & _ & Hdim & _); try done.
  assert (Hlt : slot < faiss.ntotal (index st')) by (apply Hbij'; eauto).
  rewrite (find_matches_returns prepare' st' index_name e' top_k text' q _ Hp' Ht' Hq
             (search_returns st' index_name q top_k ltac:(lia)
                ltac:(rewrite Hd, <- Hdim; symmetry; apply Hwf'))).
  rewrite take_ge by (rewrite ranking_length; lia).
  eapply collect_elem; [|exact Hto]. by apply ranking_elem.
Qed.

(** After a delete no search for matches reports the deleted id. *)
Lemma delete_then_find (st : store) (index_name entity_id : string)
    (e' : E') (top_k : Z) (score : Q) :
  Spec.well_formed st -> Spec.bijective st ->
  (entity_id, score)
    ∉ MatchingService.find_matches prepare'
        (fst (delete st index_name [entity_id])) index_name e' top_k.
Proof.
  intros Hwf Hbij Hin.
  destruct (find_matches_cases prepare' (fst (delete st index_name [entity_id]))
              index_name e' top_k) as [Hnil | (text & q & _ & _ & Hs)].
  { rewrite Hnil in Hin. by apply elem_of_nil in Hin. }
  destruct (delete_consistent st index_name [entity_id] Hwf Hbij) as [_ Hbij'].
  assert (Hnone : id_to_index (fst (delete st index_name [entity_id]))
                    !! full_id index_name entity_id = None).
  { apply delete_unmaps; [done..|]. by left. }
  apply search_inv in Hs. revert Hin. rewrite Hs.
  set (st' := fst (delete st index_name [entity_id])) in *.
  generalize (take (Nat.min (Z.to_nat top_k) (faiss.ntotal (index st')))
                (py.sort_desc fst (faiss.scores (index st') (normalize q)))).
  intros hits Hin.
  pose proof (collect_retained (index_to_id st') index_name hits) as Hc.
  induction Hc as [|h r hs rs [Hm _] _ IH]; [by apply elem_of_nil in Hin|].
  apply elem_of_cons in Hin as [<-|Hin]; [|by apply IH].
  simpl in Hm. apply Hbij' in Hm. congruence.
Qed.

End index_and_find.

(** ** Indexing a new id and deleting it again *)

Lemma survivors_from_snoc (M : gmap nat string) (i0 : nat) (rows : list vec)
    (w : vec) :
  M !! (i0 + length rows) = None ->
  Spec.survivors_from M i0 (rows ++ [w]) = Spec.survivors_from M i0 rows.
Proof.
  revert i0. induction rows as [|r rows IH]; intros i0 Hn.
  - simpl in Hn. rewrite Nat.add_0_r in Hn.
    change ([] ++ [w]) with [w]. rewrite survivors_from_cons, Hn. reflexivity.
  - change ((r :: rows) ++ [w]) with (r :: (rows ++ [w])).
    rewrite !survivors_from_cons, IH; [done|].
    simpl in Hn. by replace (Datatypes.S i0 + length rows)
      with (i0 + Datatypes.S (length rows)) by lia.
Qed.

Section round_trip.
Context `{Numpy}.

(** Upserting an id the store does not hold and deleting it again restores
    the index and both mappings in memory, while the files keep the state
    the upsert wrote. *)
Lemma upsert_new_then_delete (st st1 : store) (index_name doc_id : string)
    (v : vec) :
  Spec.well_formed st -> Spec.bijective st ->
  id_to_index st !! full_id index_name doc_id = None ->
  upsert st index_name [doc_id] [v] = (st1, Return tt) ->
  let st2 := fst (delete st1 index_name [doc_id]) in
  dimension st2 = dimension st /\ index st2 = index st /\
  id_to_index st2 = id_to_index st /\ index_to_id st2 = index_to_id st /\
  index_file st2 = Some (index st1) /\
  mappings_file st2 = Some (id_to_index st1, index_to_id st1) /\
  id_to_index st1 !! full_id index_name doc_id = Some (faiss.ntotal (index st)) /\
  faiss.xb (index st1) = faiss.xb (index st) ++ [normalize v].
Proof.
  intros Hwf Hbij Hnone Hu st2.
  assert (Hdel0 : delete st index_name [doc_id] = (st, Return tt)).
  { apply delete_unmapped. intros d Hd. apply list_elem_of_singleton in Hd. by subst. }
  destruct (upsert_returned st st1 index_name [doc_id] [v])
    as (_ & _ & Hdim & _ & Hxb & Hfrom & Hto); try done.
  rewrite Hdel0 in Hxb, Hfrom, Hto. simpl in Hxb, Hfrom, Hto.
  rewrite Nat.add_0_r in Hfrom, Hto.
  destruct (upsert_consistent st index_name [doc_id] [v] Hwf Hbij)
    as [Hwf1 Hbij1]; [apply NoDup_singleton|].
  rewrite Hu in Hwf1, Hbij1. simpl in Hwf1, Hbij1.
  destruct (upsert_writes_through st st1 index_name [doc_id] [v]) as [Hf1 Hf2];
    try done.
  destruct (delete_keeps_files st1 index_name [doc_id]) as [Hk1 Hk2].
  assert (Hsurv : Spec.surviving st1 index_name [doc_id] = index_to_id st).
  { unfold Spec.surviving, Spec.removed_slots. simpl.
    rewrite Hfrom, lookup_insert_eq, Hto. apply map_eq. intros slot.
    destruct (decide (slot = faiss.ntotal (index st))) as [->|Hne].
    - transitivity (@None string).
      + apply map_lookup_filter_None. right. intros fid _ Hnot. apply Hnot. by left.
      + symmetry. apply eq_None_not_Some. intros Hs. apply Hbij in Hs. lia.
    - destruct (index_to_id st !! slot) as [fid|] eqn:Hl.
      + apply map_lookup_filter_Some. split; [by rewrite lookup_insert_ne|].
        simpl. by intros ?%list_elem_of_singleton.
      + apply map_lookup_filter_None. left. by rewrite lookup_insert_ne. }
  assert (Hrows : Spec.survivors (index_to_id st) (faiss.xb (index st1))
                  = Spec.survivors (index_to_id st) (faiss.xb (index st))).
  { rewrite Hxb. apply survivors_from_snoc. simpl.
    apply eq_None_not_Some. intros Hs. apply Hbij in Hs. unfold faiss.ntotal in Hs. lia. }
  pose proof (rebuilt_identity st Hwf Hbij) as Hid.
  assert (Hst2 : st2 = Spec.rebuilt st1 (index_to_id st)).
  { unfold st2. by rewrite delete_is_rebuild, Hsurv. }
  split; [by rewrite Hst2|].
  split.
  { transitivity (index (Spec.rebuilt st (index_to_id st))); [|by rewrite Hid].
    rewrite Hst2. unfold Spec.rebuilt. simpl. by rewrite Hdim, Hrows. }
  split.
  { transitivity (id_to_index (Spec.rebuilt st (index_to_id st))); [|by rewrite Hid].
    rewrite Hst2. unfold Spec.rebuilt. simpl. by rewrite Hrows. }
  split.
  { transitivity (index_to_id (Spec.rebuilt st (index_to_id st))); [|by rewrite Hid].
    rewrite Hst2. unfold Spec.rebuilt. simpl. by rewrite Hrows. }
  split; [by rewrite <- Hf1|]. split; [by rewrite <- Hf2|].
  split; [|done]. rewrite Hfrom. apply lookup_insert_eq.
Qed.

End round_trip.

(** ** The public operations of the service *)

Section matching_service.
Context `{Numpy} `{EmbeddingProvider}.

Lemma index_candidate_eq (self : MatchingService.service) (candidate_id : string)
    (c : TextProcessor.CandidateData) :
  MatchingService.index_candidate self candidate_id c
  = (let r := MatchingService.index_entity Spec.candidate_text
                (MatchingService.candidates_store self) "candidates" candidate_id c in
     ({| MatchingService.candidates_store := fst r;
         MatchingService.job_offers_store := MatchingService.job_offers_store self |},
      snd r)).
Proof.
  unfold MatchingService.index_candidate, Spec.candidate_text.
  by destruct (MatchingService.index_entity _ _ _ _ _).
Qed.

Lemma index_job_offer_eq (self : MatchingService.service) (job_id : string)
    (j : TextProcessor.JobData) :
  MatchingService.index_job_offer self job_id j
  = (let r := MatchingService.index_entity Spec.job_text
                (MatchingService.job_offers_store self) "job_offers" job_id j in
     ({| MatchingService.candidates_store := MatchingService.candidates_store self;
         MatchingService.job_offers_store := fst r |},
      snd r)).
Proof.
  unfold MatchingService.index_job_offer, Spec.job_text.
  by destruct (MatchingService.index_entity _ _ _ _ _).
Qed.

Lemma delete_candidate_eq (self : MatchingService.service) (candidate_id : string) :
  Spec.well_formed (MatchingService.candidates_store self) ->
  MatchingService.delete_candidate self candidate_id
  = ({| MatchingService.candidates_store :=
          fst (delete (MatchingService.candidates_store self) "candidates" [candidate_id]);
        MatchingService.job_offers_store := MatchingService.job_offers_store self |},
     true).
Proof.
  intros Hwf. unfold MatchingService.delete_candidate.
  by rewrite (delete_outcome _ "candidates" [candidate_id] Hwf).
Qed.

Lemma delete_job_offer_eq (self : MatchingService.service) (job_id : string) :
  Spec.well_formed (MatchingService.job_offers_store self) ->
  MatchingService.delete_job_offer self job_id
  = ({| MatchingService.candidates_store := MatchingService.candidates_store self;
        MatchingService.job_offers_store :=
          fst (delete (MatchingService.job_offers_store self) "job_offers" [job_id]) |},
     true).
Proof.
  intros Hwf. unfold MatchingService.delete_job_offer.
  by rewrite (delete_outcome _ "job_offers" [job_id] Hwf).
Qed.



(** [delete_job_offer] returns [True] on a consistent offers store, keeps
    it consistent, writes nothing and leaves the candidates store alone;
    afterwards no search of offers for a candidate reports the offer. *)
Theorem delete_job_offer_then_find (self self' : MatchingService.service)
    (job_id : string) (ok : bool) :
  Spec.well_formed (MatchingService.job_offers_store self) ->
  Spec.bijective (MatchingService.job_offers_store self) ->
  MatchingService.delete_job_offer self job_id = (self', ok) ->
  ok = true /\
  MatchingService.candidates_store self' = MatchingService.candidates_store self /\
  Spec.well_formed (MatchingService.job_offers_store self') /\
  Spec.bijective (MatchingService.job_offers_store self') /\
  index_file (MatchingService.job_offers_store self')
    = index_file (MatchingService.job_offers_store self) /\
  mappings_file (MatchingService.job_offers_store self')
    = mappings_file (MatchingService.job_offers_store self) /\
  forall (candidate_id : string) (c : TextProcessor.CandidateData) (top_k : Z)
         (score : Q),
    (job_id, score)
      ∉ MatchingService.find_jobs_for_candidate self' candidate_id c top_k.
Proof.
  intros Hwf Hbij. rewrite delete_job_offer_eq by done.
  intros [= <- <-].
  cbn [MatchingService.candidates_store MatchingService.job_offers_store].
  destruct (delete_consistent (MatchingService.job_offers_store self)
              "job_offers" [job_id] Hwf Hbij) as [Hwf' Hbij'].
  destruct (delete_keeps_files (MatchingService.job_offers_store self)
              "job_offers" [job_id]) as [Hf1 Hf2].
  split; [done|]. split; [done|]. split; [exact Hwf'|]. split; [exact Hbij'|].
  split; [exact Hf1|]. split; [exact Hf2|].
  intros candidate_id c top_k score.
  by apply (delete_then_find Spec.candidate_text).
Qed.


End matching_service.

Lemma offers_service_consistent :
  Spec.well_formed (MatchingService.job_offers_store Spec.offers_service) /\
  Spec.bijective (MatchingService.job_offers_store Spec.offers_service).
Proof.
  destruct (create_consistent 3) as [Hwf Hbij].
  apply (@upsert_consistent integer_norm (create 3) "job_offers" ["7"]
           [[1; 0; 0]%Q] Hwf Hbij).
  apply NoDup_singleton.
Qed.



Lemma delete_job_offer_then_find_witness :
  let r := MatchingService.delete_job_offer Spec.offers_service "7" in
  snd r = true /\
  forall (candidate_id : string) (c : TextProcessor.CandidateData) (top_k : Z)
         (score : Q),
    ("7", score)
      ∉ @MatchingService.find_jobs_for_candidate integer_norm constant_provider
          (fst r) candidate_id c top_k.
Proof.
  intros r.
  destruct offers_service_consistent as [Hwf Hbij].
  destruct (@delete_job_offer_then_find integer_norm constant_provider
              Spec.offers_service (fst r) "7" (snd r) Hwf Hbij)
    as (Hok & _ & _ & _ & _ & _ & Hfind).
  - apply surjective_pairing.
  - split; [exact Hok | exact Hfind].
Defined.


(** * Blank text projections *)

Lemma strip_nonempty_app (a b : string) :
  py.strip_nonempty (a +:+ b) = py.strip_nonempty a || py.strip_nonempty b.
Proof.
  induction a as [|c a IH]; [done|].
  change (String c a +:+ b) with (String c (a +:+ b)).
  cbn [py.strip_nonempty]. rewrite IH. by rewrite orb_assoc.
Qed.

(** A joined text is blank exactly when every part is. *)
Lemma strip_nonempty_join (parts : list string) :
  py.strip_nonempty (py.join " " parts) = existsb py.strip_nonempty parts.
Proof.
  induction parts as [|p parts IH]; [done|].
  destruct parts as [|p' parts].
  - simpl. by rewrite orb_false_r.
  - change (py.join " " (p :: p' :: parts))
      with (p +:+ " " +:+ py.join " " (p' :: parts)).
    rewrite !strip_nonempty_app, IH. cbn [existsb].
    change (py.strip_nonempty " ") with false. reflexivity.
Qed.

Lemma truthy_of_strip_nonempty (s : string) :
  py.strip_nonempty s = true -> py.truthy s = true.
Proof. by destruct s. Qed.

Lemma get_truthy_Some (field : option string) (t : string) :
  TextProcessor.get_truthy field = Some t ->
  Spec.has_text field = py.strip_nonempty t /\ Spec.is_set field = true.
Proof.
  destruct field as [s|]; simpl; [|done].
  destruct (py.truthy s) eqn:E; [|done]. by intros [= <-].
Qed.

Lemma get_truthy_None (field : option string) :
  TextProcessor.get_truthy field = None ->
  Spec.has_text field = false /\ Spec.is_set field = false.
Proof.
  destruct field as [s|]; simpl; [|done].
  destruct s; [done|]. discriminate.
Qed.

(** The inner loops of the candidate projection produce a fragment exactly
    for the entries that have a field set. *)
Lemma fragment_nil (fields : list (option string)) :
  TextProcessor.fragment fields = [] <-> existsb Spec.is_set fields = false.
Proof.
  unfold TextProcessor.fragment.
  assert (Hnil : omap TextProcessor.get_truthy fields = []
                 <-> existsb Spec.is_set fields = false).
  { induction fields as [|f fields IH]; [done|]. simpl.
    destruct (TextProcessor.get_truthy f) as [t|] eqn:Hf.
    - apply get_truthy_Some in Hf as [_ ->]. simpl. split; discriminate.
    - apply get_truthy_None in Hf as [_ ->]. simpl. exact IH. }
  destruct (omap TextProcessor.get_truthy fields) as [|t ts].
  - split; [intros _; by apply Hnil | done].
  - split; [discriminate|]. intros Hf. by apply Hnil in Hf.
Qed.

Lemma flat_map_fragment_nil {A : Type} (fields : A -> list (option string))
    (entries : list A) :
  flat_map (fun entry => TextProcessor.fragment (fields entry)) entries = []
  <-> existsb (fun entry => existsb Spec.is_set (fields entry)) entries = false.
Proof.
  induction entries as [|entry entries IH]; [done|]. simpl.
  rewrite orb_false_iff, <- IH, <- fragment_nil.
  split.
  - intros Happ. by apply app_eq_nil in Happ.
  - intros [-> ->]. done.
Qed.

(** Every labelled segment has content. *)
Lemma existsb_resumes (resumes : list TextProcessor.Resume) :
  existsb py.strip_nonempty
    (flat_map (fun resume =>
       match TextProcessor.get_truthy (TextProcessor.parsed_text resume) with
       | Some t => ["CV: " +:+ t]
       | None => []
       end) resumes)
  = existsb (fun resume => Spec.is_set (TextProcessor.parsed_text resume)) resumes.
Proof.
  induction resumes as [|r resumes IH]; [done|]. simpl.
  rewrite existsb_app, IH.
  destruct (TextProcessor.get_truthy (TextProcessor.parsed_text r)) as [t|] eqn:Hr.
  - apply get_truthy_Some in Hr as [_ ->]. reflexivity.
  - apply get_truthy_None in Hr as [_ ->]. reflexivity.
Qed.

Lemma strip_nonempty_label (label s : string) :
  py.strip_nonempty label = true -> py.strip_nonempty (label +:+ s) = true.
Proof. intros Hl. by rewrite strip_nonempty_app, Hl. Qed.

Ltac split_field H :=
  let Ha := fresh in
  let Hb := fresh in
  first [ apply get_truthy_Some in H as [Ha Hb]
        | apply get_truthy_None in H as [Ha Hb] ];
  rewrite ?Ha, ?Hb; clear Ha Hb.

Ltac decide_content :=
  rewrite ?existsb_app; cbn [existsb app];
  rewrite ?strip_nonempty_label by reflexivity;
  repeat match goal with
         | |- context [py.strip_nonempty ?s] =>
             is_var s; destruct (py.strip_nonempty s)
         end;
  rewrite ?orb_true_r; reflexivity.

(** The text of a job offer is blank exactly when the offer has no content:
    no character other than white space in its title and description, no
    skill name, no seniority, no location, and not remote. *)
Lemma job_text_content (j : TextProcessor.JobData) :
  py.strip_nonempty (TextProcessor.prepare_job_offer_text j) = Spec.job_has_content j.
Proof.
  destruct j as [ti de sk se lo re].
  unfold TextProcessor.prepare_job_offer_text, Spec.job_has_content.
  cbn [TextProcessor.title TextProcessor.description TextProcessor.required_skills
       TextProcessor.seniority TextProcessor.location TextProcessor.is_remote].
  rewrite strip_nonempty_join.
  destruct (TextProcessor.get_truthy ti) as [t1|] eqn:H1; split_field H1;
  destruct (TextProcessor.get_truthy de) as [t2|] eqn:H2; split_field H2;
  destruct (TextProcessor.get_truthy se) as [t3|] eqn:H3; split_field H3;
  destruct (TextProcessor.get_truthy lo) as [t4|] eqn:H4; split_field H4;
  destruct re;
  (destruct sk as [|s sk];
   [ change (Spec.names_text []) with false
   | unfold Spec.names_text;
     destruct (py.truthy (py.join " " (map TextProcessor.name_or_empty (s :: sk)))) ]);
  decide_content.
Qed.

Lemma existsb_pointwise {A : Type} (f g : A -> bool) (l : list A) :
  (forall x, f x = g x) -> existsb f l = existsb g l.
Proof. intros Hfg. induction l as [|x l IH]; [done|]. simpl. by rewrite Hfg, IH. Qed.

Lemma exp_texts_nil (exps : list TextProcessor.Experience) :
  TextProcessor.exp_texts exps = [] <->
  existsb (fun exp => Spec.is_set (TextProcessor.exp_title exp)
                      || Spec.is_set (TextProcessor.exp_company exp)
                      || Spec.is_set (TextProcessor.exp_description exp)) exps = false.
Proof.
  unfold TextProcessor.exp_texts.
  rewrite (flat_map_fragment_nil
             (fun exp => [TextProcessor.exp_title exp; TextProcessor.exp_company exp;
                          TextProcessor.exp_description exp])).
  assert (Heq : forall l,
    existsb (fun exp => existsb Spec.is_set
               [TextProcessor.exp_title exp; TextProcessor.exp_company exp;
                TextProcessor.exp_description exp]) l
    = existsb (fun exp => Spec.is_set (TextProcessor.exp_title exp)
                          || Spec.is_set (TextProcessor.exp_company exp)
                          || Spec.is_set (TextProcessor.exp_description exp)) l).
  { intros l. apply existsb_pointwise. intros e. simpl.
    by rewrite orb_false_r, orb_assoc. }
  by rewrite Heq.
Qed.

Lemma edu_texts_nil (edus : list TextProcessor.Education) :
  TextProcessor.edu_texts edus = [] <->
  existsb (fun edu => Spec.is_set (TextProcessor.edu_school edu)
                      || Spec.is_set (TextProcessor.edu_degree edu)
                      || Spec.is_set (TextProcessor.edu_field_of_study edu)) edus = false.
Proof.
  unfold TextProcessor.edu_texts.
  rewrite (flat_map_fragment_nil
             (fun edu => [TextProcessor.edu_school edu; TextProcessor.edu_degree edu;
                          TextProcessor.edu_field_of_study edu])).
  assert (Heq : forall l,
    existsb (fun edu => existsb Spec.is_set
               [TextProcessor.edu_school edu; TextProcessor.edu_degree edu;
                TextProcessor.edu_field_of_study edu]) l
    = existsb (fun edu => Spec.is_set (TextProcessor.edu_school edu)
                          || Spec.is_set (TextProcessor.edu_degree edu)
                          || Spec.is_set (TextProcessor.edu_field_of_study edu)) l).
  { intros l. apply existsb_pointwise. intros e. simpl.
    by rewrite orb_false_r, orb_assoc. }
  by rewrite Heq.
Qed.

Lemma not_nil_true (b : bool) {A : Type} (l : list A) :
  (l = [] <-> b = false) -> l <> [] -> b = true.
Proof. intros Hiff Hne. destruct b; [done|]. destruct Hne. by apply Hiff. Qed.

(** The text of a candidate is blank exactly when the candidate has no
    content: no character other than white space in the headline and the
    summary, no skill name, no experience or education with a field set,
    and no resume with parsed text. *)
Lemma candidate_text_content (c : TextProcessor.CandidateData) :
  py.strip_nonempty (TextProcessor.prepare_candidate_text c)
  = Spec.candidate_has_content c.
Proof.
  destruct c as [he su sk ex ed re].
  unfold TextProcessor.prepare_candidate_text, Spec.candidate_has_content.
  cbn [TextProcessor.headline TextProcessor.summary TextProcessor.skills
       TextProcessor.experiences TextProcessor.educations TextProcessor.resumes].
  rewrite strip_nonempty_join, existsb_app, existsb_resumes.
  generalize (existsb (fun resume => Spec.is_set (TextProcessor.parsed_text resume)) re).
  intros has_resume.
  pose proof (exp_texts_nil ex) as Hex. pose proof (edu_texts_nil ed) as Hed.
  destruct (TextProcessor.exp_texts ex) as [|x xs];
    [rewrite (proj1 Hex eq_refl) | rewrite (not_nil_true _ _ Hex) by done];
  (destruct (TextProcessor.edu_texts ed) as [|y ys];
    [rewrite (proj1 Hed eq_refl) | rewrite (not_nil_true _ _ Hed) by done]);
  clear Hex Hed;
  destruct (TextProcessor.get_truthy he) as [t1|] eqn:H1; split_field H1;
  destruct (TextProcessor.get_truthy su) as [t2|] eqn:H2; split_field H2;
  (destruct sk as [|s sk];
   [ change (Spec.names_text []) with false
   | unfold Spec.names_text;
     destruct (py.truthy (py.join " " (map TextProcessor.name_or_empty (s :: sk)))) ]);
  destruct has_resume; decide_content.
Qed.

(** ** Which entities the service indexes *)

Section content.
Context `{Numpy} `{EmbeddingProvider}.


(** The text of a candidate has a character other than white space exactly
    when the candidate has content. A candidate without content is skipped
    everywhere: [index_candidate] returns [False] and changes nothing,
    [find_jobs_for_candidate] returns no match, and a batch of this one
    candidate marks it as failed and changes nothing. *)
Theorem blank_candidate_skipped (self : MatchingService.service)
    (candidate_id : string) (c : TextProcessor.CandidateData) (top_k : Z) :
  py.strip_nonempty (TextProcessor.prepare_candidate_text c)
    = Spec.candidate_has_content c /\
  (Spec.candidate_has_content c = false ->
   MatchingService.index_candidate self candidate_id c = (self, false) /\
   MatchingService.find_jobs_for_candidate self candidate_id c top_k = [] /\
   MatchingService.batch_index_candidates self [(candidate_id, c)]
     = (self, {[candidate_id := false]})).
Proof.
  split; [apply candidate_text_content|].
  rewrite <- candidate_text_content. intros Hblank.
  unfold MatchingService.index_candidate, MatchingService.find_jobs_for_candidate,
    MatchingService.batch_index_candidates, MatchingService.index_entity,
    MatchingService.find_matches, MatchingService.batch_index.
  cbn [MatchingService.prepare_all]. rewrite Hblank. cbn [negb].
  by destruct self.
Qed.

End content.


Lemma blank_candidate_skipped_witness :
  @MatchingService.index_candidate integer_norm constant_provider
    Spec.sample_service "1" Spec.blank_candidate = (Spec.sample_service, false) /\
  @MatchingService.find_jobs_for_candidate integer_norm constant_provider
    Spec.sample_service "1" Spec.blank_candidate 5 = [] /\
  @MatchingService.batch_index_candidates integer_norm constant_provider
    Spec.sample_service [("1", Spec.blank_candidate)]
    = (Spec.sample_service, {["1" := false]}).
Proof.
  apply (@blank_candidate_skipped integer_norm constant_provider
           Spec.sample_service "1" Spec.blank_candidate 5).
  reflexivity.
Defined.

(** ** A batch that succeeds *)

Section batch_success.
Context `{Numpy} `{EmbeddingProvider} {E : Type}.
Variable prepare : E -> result string.

(** The first loop queues the entities with content, in input order. *)
Lemma prepare_all_queue (data : list (string * E)) (results : gmap string bool)
    (texts ids : list string) :
  let out := MatchingService.prepare_all prepare data results texts ids in
  snd (fst out) = texts ++ map snd (Spec.queue prepare data) /\
  snd out = ids ++ map fst (Spec.queue prepare data).
Proof.
  revert results texts ids.
  induction data as [|[i e] data IH]; intros results texts ids; simpl.
  { by rewrite !app_nil_r. }
  unfold Spec.queue. simpl. fold (Spec.queue prepare data).
  destruct (prepare e) as [text|err]; [|apply IH].
  destruct (py.strip_nonempty text); [|apply IH].
  destruct (IH results (texts ++ [text]) (ids ++ [i])) as [-> ->].
  simpl. by rewrite <- !app_assoc.
Qed.

Lemma queued_of_queue (data : list (string * E)) :
  Spec.queued_texts prepare data = map snd (Spec.queue prepare data) /\
  Spec.queued_ids prepare data = map fst (Spec.queue prepare data).
Proof. apply (prepare_all_queue data ∅ [] []). Qed.

Lemma queue_elem (data : list (string * E)) (i text : string) :
  (i, text) ∈ Spec.queue prepare data <->
  exists e, (i, e) ∈ data /\ prepare e = Return text /\ py.strip_nonempty text = true.
Proof.
  unfold Spec.queue. rewrite list_elem_of_omap. split.
  - intros ([i' e] & Hin & Hq). simpl in Hq.
    destruct (prepare e) as [t|err] eqn:Hp; [|done].
    destruct (py.strip_nonempty t) eqn:Ht; [|done].
    injection Hq as -> ->. by exists e.
  - intros (e & Hin & Hp & Ht). exists (i, e). split; [done|].
    simpl. by rewrite Hp, Ht.
Qed.

Lemma queue_ids_sublist (data : list (string * E)) :
  map fst (Spec.queue prepare data) `sublist_of` map fst data.
Proof.
  induction data as [|[i e] data IH]; [constructor|].
  unfold Spec.queue. simpl. fold (Spec.queue prepare data).
  destruct (prepare e) as [t|err]; [|by constructor].
  destruct (py.strip_nonempty t); by constructor.
Qed.

(** When the model returns one vector of the store's dimension per queued
    text and no id occurs twice in the input, the batch keeps a consistent
    store consistent, marks exactly the queued ids as indexed, and stores
    the normalised embedding of each of them under its id. *)
Lemma batch_index_success (st : store) (index_name : string)
    (data : list (string * E)) (embeddings : list vec) :
  Spec.well_formed st -> Spec.bijective st -> NoDup (map fst data) ->
  embed_texts (Spec.queued_texts prepare data) = Return embeddings ->
  length embeddings = length (Spec.queued_texts prepare data) ->
  Forall (fun v => length (normalize v) = dimension st) embeddings ->
  let out := MatchingService.batch_index prepare st index_name data in
  Spec.well_formed (fst out) /\ Spec.bijective (fst out) /\
  (forall i, i ∈ map fst data ->
     snd out !! i = Some (bool_decide (i ∈ Spec.queued_ids prepare data))) /\
  (forall k i v,
     Spec.queued_ids prepare data !! k = Some i -> embeddings !! k = Some v ->
     exists slot,
       id_to_index (fst out) !! full_id index_name i = Some slot /\
       faiss.xb (index (fst out)) !! slot = Some (normalize v)).
Proof.
  intros Hwf Hbij Hnd Hemb Hlen Hdim out.
  destruct (queued_of_queue data) as [Htexts Hids].
  assert (Hndq : NoDup (Spec.queued_ids prepare data)).
  { rewrite Hids. eapply sublist_NoDup; [exact Hnd | apply queue_ids_sublist]. }
  assert (Hlq : length (Spec.queued_ids prepare data)
                = length (Spec.queued_texts prepare data)).
  { by rewrite Htexts, Hids, !length_map. }
  pose proof (fun i => batch_index_keys prepare st index_name data i) as Hkeys.
  fold out in Hkeys.
  destruct (prepare_all_spec prepare data ∅ [] []) as (_ & Htrue & _).
  unfold out, MatchingService.batch_index, Spec.queued_texts, Spec.queued_ids in *.
  destruct (MatchingService.prepare_all prepare data ∅ [] []) as [[results texts] ids].
  cbn [fst snd] in *.
  assert (Hfalse : forall i b, results !! i = Some b -> b = false).
  { intros i [|] Hb; [|done]. apply Htrue in Hb. by rewrite lookup_empty in Hb. }
  destruct texts as [|t texts].
  - destruct ids as [|i0 ids]; [|discriminate]. cbn [fst snd] in *.
    split; [done|]. split; [done|]. split.
    + intros i Hin. destruct (proj2 (Hkeys i) Hin) as [b Hb].
      rewrite Hb, (Hfalse _ _ Hb). by rewrite bool_decide_eq_false_2 by apply not_elem_of_nil.
    + intros k i v Hk. by rewrite lookup_nil in Hk.
  - rewrite Hemb in *.
    pose proof (upsert_returns st index_name ids embeddings Hwf
                  ltac:(by rewrite Hlen, Hlq) Hdim) as Hret.
    destruct (upsert_consistent st index_name ids embeddings Hwf Hbij Hndq)
      as [Hwf' Hbij'].
    destruct (upsert st index_name ids embeddings) as [st' r] eqn:Hu.
    cbn [fst snd] in *. subst r. cbn [fst snd] in *.
    split; [done|]. split; [done|]. split.
    + intros i Hin. rewrite mark_lookup.
      destruct (decide (i ∈ ids)) as [Hi|Hi].
      * by rewrite bool_decide_eq_true_2.
      * rewrite bool_decide_eq_false_2 by done.
        destruct (proj2 (Hkeys i) Hin) as [b Hb]. rewrite mark_lookup in Hb.
        rewrite decide_False in Hb by done. by rewrite Hb, (Hfalse _ _ Hb).
    + intros k i v Hk Hv.
      destruct (upsert_slot_of_id st st' index_name ids embeddings k i v)
        as (slot & Hslot & _ & Hrow); try done.
      * intros ->. by rewrite lookup_nil in Hk.
      * intros ->. by rewrite lookup_nil in Hv.
      * by exists slot.
Qed.

End batch_success.

Lemma NoDup_fst_functional {A : Type} (l : list (string * A)) (i : string) (a b : A) :
  NoDup (map fst l) -> (i, a) ∈ l -> (i, b) ∈ l -> a = b.
Proof.
  induction l as [|[i' c] l IH]; intros Hnd Ha Hb; [by apply elem_of_nil in Ha|].
  simpl in Hnd. apply NoDup_cons in Hnd as [Hni Hnd].
  assert (Hfst : forall x, (i', x) ∈ l -> False).
  { intros x Hx. apply Hni. apply list_elem_of_In, in_map_iff.
    exists (i', x). split; [done|]. by apply list_elem_of_In. }
  apply elem_of_cons in Ha as [Ha|Ha]; apply elem_of_cons in Hb as [Hb|Hb].
  - congruence.
  - injection Ha as -> ->. by destruct (Hfst b).
  - injection Hb as -> ->. by destruct (Hfst a).
  - by apply IH.
Qed.

Lemma batch_index_job_offers_eq `{Numpy} `{EmbeddingProvider}
    (self : MatchingService.service)
    (jobs_data : list (string * TextProcessor.JobData)) :
  MatchingService.batch_index_job_offers self jobs_data
  = (let r := MatchingService.batch_index Spec.job_text
                (MatchingService.job_offers_store self) "job_offers" jobs_data in
     ({| MatchingService.candidates_store := MatchingService.candidates_store self;
         MatchingService.job_offers_store := fst r |},
      snd r)).
Proof.
  unfold MatchingService.batch_index_job_offers, Spec.job_text.
  by destruct (MatchingService.batch_index _ _ _ _).
Qed.



(** * Session memory of the agent *)

Lemma add_turn_history (m : AgentMemory.memory) (session_id : option string)
    (role content sid : string) :
  AgentMemory.get_history (AgentMemory.add_turn m session_id role content) (Some sid)
  = AgentMemory.get_history m (Some sid)
    ++ (if bool_decide (session_id = Some sid) && py.truthy sid
        then [AgentMemory.mkTurn role content] else []).
Proof.
  unfold AgentMemory.add_turn, AgentMemory.get_history.
  destruct session_id as [s|]; simpl.
  2:{ by rewrite app_nil_r. }
  destruct (py.truthy s) eqn:Hs; simpl.
  - destruct (decide (s = sid)) as [->|Hne].
    + rewrite lookup_insert_eq, bool_decide_eq_true_2 by done. by rewrite Hs.
    + rewrite lookup_insert_ne by done.
      rewrite bool_decide_eq_false_2 by congruence. simpl. by rewrite app_nil_r.
  - destruct (decide (s = sid)) as [->|Hne].
    + rewrite Hs, andb_false_r. by rewrite app_nil_r.
    + rewrite bool_decide_eq_false_2 by congruence. simpl. by rewrite app_nil_r.
Qed.

(** The history of a session is exactly the log of the turns added for it,
    in the order they were added: turns of other sessions never show in it,
    and turns added without a session id, or with an empty one, are
    recorded nowhere. *)
Theorem history_is_session_log (log : list Spec.logged) (sid : string) :
  AgentMemory.get_history (Spec.replay log) (Some sid)
    = (if py.truthy sid then Spec.turns_of sid log else []) /\
  AgentMemory.get_history (Spec.replay log) None = [].
Proof.
  split; [|reflexivity].
  unfold Spec.replay.
  assert (Hgen : forall m,
    AgentMemory.get_history
      (fold_left (fun m c =>
         AgentMemory.add_turn m (Spec.logged_session c) (Spec.logged_role c)
           (Spec.logged_content c)) log m) (Some sid)
    = AgentMemory.get_history m (Some sid)
      ++ (if py.truthy sid then Spec.turns_of sid log else [])).
  { induction log as [|c log IH]; intros m; cbn [fold_left].
    - unfold Spec.turns_of. simpl. by destruct (py.truthy sid); rewrite app_nil_r.
    - rewrite IH, add_turn_history, <- app_assoc. f_equal.
      destruct (py.truthy sid); [|by rewrite andb_false_r].
      rewrite andb_true_r. unfold Spec.turns_of. simpl.
      by destruct (bool_decide _). }
  rewrite Hgen. unfold AgentMemory.get_history, AgentMemory.init.
  by rewrite lookup_empty.
Qed.

(** * Fusion when lexical hits carry no id *)

Lemma es_map_of_fold_unusable (es_docs : list LLMAgentService.Hit)
    (acc : gmap string Q) :
  Forall (fun h => LLMAgentService.hit_doc_id h = ""
                   \/ LLMAgentService.hit_doc_id h = "None") es_docs ->
  fold_left (fun es_map h =>
    let doc_id := LLMAgentService.hit_doc_id h in
    if py.truthy doc_id && negb (String.eqb doc_id "None")
    then <[doc_id := LLMAgentService.hit_float_score h]> es_map
    else es_map) es_docs acc = acc.
Proof.
  intros Hall. revert acc.
  induction Hall as [|h es_docs Hh _ IH]; intros acc; [done|].
  cbn [fold_left]. cbv zeta. by destruct Hh as [-> | ->]; simpl; rewrite IH.
Qed.

Section fusion_without_ids.
Context `{SetOrder}.

(** Lexical hits without a usable id (no [_id] and no [_source.id], or an
    empty one) are dropped by the fusion: when no hit has one, the fused
    matches are vector results with their own scores, no id occurs twice,
    and there are [min top_k n] of them for [n] distinct vector ids. *)
Theorem fuse_ignores_hits_without_id (faiss_results : list (string * Q))
    (es_docs : list LLMAgentService.Hit) (top_k : Z) :
  (0 <= top_k)%Z ->
  Forall (fun h => LLMAgentService.hit_doc_id h = ""
                   \/ LLMAgentService.hit_doc_id h = "None") es_docs ->
  let matches := LLMAgentService.fuse faiss_results es_docs top_k in
  Forall (fun r => pydict.of_items faiss_results !! fst r = Some (snd r)) matches /\
  NoDup (map fst matches) /\
  length matches = Nat.min (Z.to_nat top_k) (size (pydict.of_items faiss_results)).
Proof.
  intros Hk Hall matches. unfold matches, LLMAgentService.fuse.
  assert (Hes : LLMAgentService.es_map_of es_docs = ∅).
  { unfold LLMAgentService.es_map_of. by apply es_map_of_fold_unusable. }
  rewrite Hes, dom_empty_L, (right_id_L ∅ (∪)).
  set (faiss_map := pydict.of_items faiss_results).
  set (unsorted := map _ (set_iter (dom faiss_map))).
  rewrite slice_to_nonneg by done.
  assert (Hfst : map fst unsorted = set_iter (dom faiss_map)).
  { unfold unsorted. rewrite map_map. simpl. apply map_id. }
  assert (Hperm : map fst (py.sort_desc snd unsorted) ≡ₚ elements (dom faiss_map)).
  { rewrite <- set_iter_perm, <- Hfst. apply Permutation_map, sort_desc_perm. }
  split; [|split].
  - apply Forall_forall. intros [did s] Hin.
    apply (elem_of_sublist _ (py.sort_desc snd unsorted)) in Hin;
      [|apply sublist_take].
    rewrite sort_desc_perm in Hin. apply list_elem_of_In in Hin.
    unfold unsorted in Hin. apply in_map_iff in Hin as (did' & [= <- <-] & Hin).
    apply list_elem_of_In in Hin. rewrite set_iter_perm in Hin.
    apply elem_of_elements, elem_of_dom in Hin as [fa Hfa].
    simpl. rewrite Hfa, lookup_empty. reflexivity.
  - apply (sublist_NoDup _ (map fst (py.sort_desc snd unsorted))).
    + rewrite Hperm. apply NoDup_elements.
    + change (map fst ?l) with (fst <$> l). apply fmap_sublist, sublist_take.
  - rewrite length_take. f_equal.
    rewrite <- (length_map fst), Hperm. apply (size_dom faiss_map).
Qed.

End fusion_without_ids.

Lemma fuse_ignores_hits_without_id_witness :
  let matches :=
    @LLMAgentService.fuse elements_order [("a", 0.5%Q); ("b", 0.9%Q)]
      [LLMAgentService.mkHit None None (Some 2%Q);
       LLMAgentService.mkHit (Some "") (Some "") None] 1 in
  Forall (fun r => pydict.of_items [("a", 0.5%Q); ("b", 0.9%Q)] !! fst r = Some (snd r))
    matches /\
  NoDup (map fst matches) /\
  length matches
  = Nat.min (Z.to_nat 1) (size (pydict.of_items [("a", 0.5%Q); ("b", 0.9%Q)])).
Proof.
  apply (@fuse_ignores_hits_without_id elements_order); [lia|].
  constructor; [by right|]. constructor; [by left|]. constructor.
Defined.

(** * Sequences of service calls *)

Lemma record_ids_entries (index_name : string) (start i : nat) (ids : list string)
    (m1 : gmap string nat) (m2 : gmap nat string) (slot : nat) (fid : string) :
  (record_ids index_name start i ids m1 m2).2 !! slot = Some fid ->
  m2 !! slot = Some fid \/ exists doc_id, doc_id ∈ ids /\ fid = full_id index_name doc_id.
Proof.
  revert i m1 m2. induction ids as [|d ids IH]; intros i m1 m2 Hl; [by left|].
  simpl in Hl. apply IH in Hl as [Hl | (d' & Hd' & ->)].
  - destruct (decide (start + i = slot)) as [<-|Hne].
    + rewrite lookup_insert_eq in Hl. injection Hl as <-.
      right. exists d. split; [by left | done].
    + rewrite lookup_insert_ne in Hl by done. by left.
  - right. exists d'. split; [by right | done].
Qed.

Lemma delete_collection (st : store) (index_name : string) (ids : list string) :
  Spec.collection_store index_name st ->
  Spec.collection_store index_name (fst (delete st index_name ids)).
Proof.
  intros (Hwf & Hbij & Hcol).
  destruct (delete_consistent st index_name ids Hwf Hbij) as [Hwf1 Hbij1].
  split; [done|]. split; [done|].
  intros slot fid Hl. apply Hbij1 in Hl.
  destruct (delete_only_old st index_name ids fid slot Hwf Hbij Hl) as [s Hs].
  apply Hbij in Hs. by eapply Hcol.
Qed.

Lemma upsert_collection `{Numpy} (st : store) (index_name : string)
    (ids : list string) (vectors : list vec) :
  Spec.collection_store index_name st -> NoDup ids ->
  Spec.collection_store index_name (fst (upsert st index_name ids vectors)).
Proof.
  intros Hst Hnd. pose proof Hst as (Hwf & Hbij & Hcol).
  destruct (upsert_consistent st index_name ids vectors Hwf Hbij Hnd) as [Hwf' Hbij'].
  split; [done|]. split; [done|]. clear Hwf' Hbij'.
  pose proof (delete_collection st index_name ids Hst) as (_ & _ & Hcol1).
  unfold upsert.
  destruct ids as [|i ids]; [done|]. destruct vectors as [|v vectors]; [done|].
  destruct (negb _); [done|]. destruct (np.array _) as [arr|e]; [|done].
  destruct (delete st index_name (i :: ids)) as [st1 [[]|e]]; [|done].
  cbn [fst] in Hcol1.
  destruct (faiss.add _ arr) as [index'|e]; [|done].
  destruct (record_ids index_name (faiss.ntotal (index st1)) 0 (i :: ids)
              (id_to_index st1) (index_to_id st1)) as [m1 m2] eqn:Hrec.
  cbn [fst save index_to_id]. intros slot fid Hl.
  assert (Hm2 : m2 = (record_ids index_name (faiss.ntotal (index st1)) 0 (i :: ids)
                        (id_to_index st1) (index_to_id st1)).2) by (by rewrite Hrec).
  rewrite Hm2 in Hl. apply record_ids_entries in Hl as [Hl | (d & _ & ->)].
  - by eapply Hcol1.
  - by exists d.
Qed.

Section service_runs.
Context `{Numpy} `{EmbeddingProvider}.

Lemma index_entity_store {E : Type} (prepare : E -> result string) (st : store)
    (index_name entity_id : string) (e : E) :
  fst (MatchingService.index_entity prepare st index_name entity_id e) = st \/
  exists v, fst (MatchingService.index_entity prepare st index_name entity_id e)
            = fst (upsert st index_name [entity_id] [v]).
Proof.
  unfold MatchingService.index_entity.
  destruct (prepare e) as [text|err]; [|by left].
  destruct (negb _); [by left|].
  destruct (embed_single_text text) as [v|]; [|by left].
  right. exists v. by destruct (upsert st index_name [entity_id] [v]) as [st' [[]|err]].
Qed.

Lemma batch_index_store {E : Type} (prepare : E -> result string) (st : store)
    (index_name : string) (data : list (string * E)) :
  fst (MatchingService.batch_index prepare st index_name data) = st \/
  exists embeddings,
    fst (MatchingService.batch_index prepare st index_name data)
    = fst (upsert st index_name (Spec.queued_ids prepare data) embeddings).
Proof.
  unfold MatchingService.batch_index, Spec.queued_ids.
  destruct (MatchingService.prepare_all prepare data ∅ [] []) as [[results texts] ids].
  destruct texts as [|t texts]; [by left|].
  destruct (embed_texts (t :: texts)) as [embeddings|err]; [|by left].
  right. exists embeddings. cbn [snd].
  by destruct (upsert st index_name ids embeddings) as [st' [[]|err]].
Qed.

Lemma index_entity_collection {E : Type} (prepare : E -> result string) (st : store)
    (index_name entity_id : string) (e : E) :
  Spec.collection_store index_name st ->
  Spec.collection_store index_name
    (fst (MatchingService.index_entity prepare st index_name entity_id e)).
Proof.
  intros Hst.
  destruct (index_entity_store prepare st index_name entity_id e) as [-> | [v ->]];
    [done|].
  apply upsert_collection; [done | apply NoDup_singleton].
Qed.

Lemma batch_index_collection {E : Type} (prepare : E -> result string) (st : store)
    (index_name : string) (data : list (string * E)) :
  Spec.collection_store index_name st -> NoDup (map fst data) ->
  Spec.collection_store index_name
    (fst (MatchingService.batch_index prepare st index_name data)).
Proof.
  intros Hst Hnd.
  destruct (batch_index_store prepare st index_name data) as [-> | [embeddings ->]];
    [done|].
  apply upsert_collection; [done|].
  destruct (queued_of_queue prepare data) as [_ ->].
  eapply sublist_NoDup; [exact Hnd | apply queue_ids_sublist].
Qed.

(** Every call of the service keeps each of its two stores consistent and
    holding ids of its own collection only. *)
Lemma run_service_op_collections (self : MatchingService.service)
    (o : Spec.service_op) :
  Spec.distinct_batch o ->
  Spec.collection_store "candidates" (MatchingService.candidates_store self) ->
  Spec.collection_store "job_offers" (MatchingService.job_offers_store self) ->
  Spec.collection_store "candidates"
    (MatchingService.candidates_store (Spec.run_service_op self o)) /\
  Spec.collection_store "job_offers"
    (MatchingService.job_offers_store (Spec.run_service_op self o)).
Proof.
  intros Hd Hc Hj. destruct o as [i c | i j | data | data | i | i];
    cbn [Spec.run_service_op Spec.distinct_batch] in *.
  - rewrite index_candidate_eq. cbn zeta.
    cbn [fst MatchingService.candidates_store MatchingService.job_offers_store].
    split; [by apply index_entity_collection | done].
  - rewrite index_job_offer_eq. cbn zeta.
    cbn [fst MatchingService.candidates_store MatchingService.job_offers_store].
    split; [done | by apply index_entity_collection].
  - unfold MatchingService.batch_index_candidates.
    pose proof (batch_index_collection
                  (fun c => Return (TextProcessor.prepare_candidate_text c))
                  _ "candidates" data Hc Hd) as Hb.
    destruct (MatchingService.batch_index _ _ _ _) as [st r]. by split.
  - unfold MatchingService.batch_index_job_offers.
    pose proof (batch_index_collection
                  (fun j => Return (TextProcessor.prepare_job_offer_text j))
                  _ "job_offers" data Hj Hd) as Hb.
    destruct (MatchingService.batch_index _ _ _ _) as [st r]. by split.
  - rewrite delete_candidate_eq by apply Hc.
    cbn [fst MatchingService.candidates_store MatchingService.job_offers_store].
    split; [by apply delete_collection | done].
  - rewrite delete_job_offer_eq by apply Hj.
    cbn [fst MatchingService.candidates_store MatchingService.job_offers_store].
    split; [done | by apply delete_collection].
Qed.

Lemma run_service_collections (self : MatchingService.service)
    (ops : list Spec.service_op) :
  Forall Spec.distinct_batch ops ->
  Spec.collection_store "candidates" (MatchingService.candidates_store self) ->
  Spec.collection_store "job_offers" (MatchingService.job_offers_store self) ->
  Spec.collection_store "candidates"
    (MatchingService.candidates_store (Spec.run_service self ops)) /\
  Spec.collection_store "job_offers"
    (MatchingService.job_offers_store (Spec.run_service self ops)).
Proof.
  intros Hops. revert self. unfold Spec.run_service.
  induction Hops as [|o ops Ho _ IH]; intros self Hc Hj; [done|].
  cbn [fold_left].
  destruct (run_service_op_collections self o Ho Hc Hj) as [Hc' Hj'].
  by apply IH.
Qed.

Lemma create_collection (index_name : string) (dim : nat) :
  Spec.collection_store index_name (create dim).
Proof.
  destruct (create_consistent dim) as [Hwf Hbij].
  split; [done|]. split; [done|]. intros slot fid Hl.
  simpl in Hl. by rewrite lookup_empty in Hl.
Qed.

End service_runs.

Section service_counts.
Context `{Numpy} `{EmbeddingProvider}.

Lemma run_service_op_dimension (self : MatchingService.service)
    (o : Spec.service_op) :
  dimension (MatchingService.candidates_store (Spec.run_service_op self o))
    = dimension (MatchingService.candidates_store self) /\
  dimension (MatchingService.job_offers_store (Spec.run_service_op self o))
    = dimension (MatchingService.job_offers_store self).
Proof.
  destruct o as [i c | i j | data | data | i | i]; cbn [Spec.run_service_op].
  - rewrite index_candidate_eq. cbn zeta.
    cbn [fst MatchingService.candidates_store MatchingService.job_offers_store].
    split; [|done].
    destruct (index_entity_store Spec.candidate_text
                (MatchingService.candidates_store self) "candidates" i c)
      as [-> | [v ->]]; [done | apply upsert_dimension].
  - rewrite index_job_offer_eq. cbn zeta.
    cbn [fst MatchingService.candidates_store MatchingService.job_offers_store].
    split; [done|].
    destruct (index_entity_store Spec.job_text
                (MatchingService.job_offers_store self) "job_offers" i j)
      as [-> | [v ->]]; [done | apply upsert_dimension].
  - unfold MatchingService.batch_index_candidates.
    destruct (batch_index_store
                (fun c => Return (TextProcessor.prepare_candidate_text c))
                (MatchingService.candidates_store self) "candidates" data)
      as [Hb | [embeddings Hb]];
      destruct (MatchingService.batch_index _ _ _ _) as [st r];
      cbn [fst MatchingService.candidates_store MatchingService.job_offers_store] in *;
      subst st; (split; [|done]); [done | apply upsert_dimension].
  - unfold MatchingService.batch_index_job_offers.
    destruct (batch_index_store
                (fun j => Return (TextProcessor.prepare_job_offer_text j))
                (MatchingService.job_offers_store self) "job_offers" data)
      as [Hb | [embeddings Hb]];
      destruct (MatchingService.batch_index _ _ _ _) as [st r];
      cbn [fst MatchingService.candidates_store MatchingService.job_offers_store] in *;
      subst st; (split; [done|]); [done | apply upsert_dimension].
  - unfold MatchingService.delete_candidate.
    pose proof (delete_dimension (MatchingService.candidates_store self)
                  "candidates" [i]) as Hd.
    destruct (delete _ _ _) as [st [[]|e]]; by split.
  - unfold MatchingService.delete_job_offer.
    pose proof (delete_dimension (MatchingService.job_offers_store self)
                  "job_offers" [i]) as Hd.
    destruct (delete _ _ _) as [st [[]|e]]; by split.
Qed.

Lemma run_service_dimension (self : MatchingService.service)
    (ops : list Spec.service_op) :
  dimension (MatchingService.candidates_store (Spec.run_service self ops))
    = dimension (MatchingService.candidates_store self) /\
  dimension (MatchingService.job_offers_store (Spec.run_service self ops))
    = dimension (MatchingService.job_offers_store self).
Proof.
  unfold Spec.run_service. revert self.
  induction ops as [|o ops IH]; intros self; [done|]. cbn [fold_left].
  destruct (IH (Spec.run_service_op self o)) as [-> ->].
  apply run_service_op_dimension.
Qed.

(** What a search for matches returns on a store of one collection: as many
    matches as asked for, or all the store holds. *)
Lemma find_matches_count {E : Type} (prepare : E -> result string) (st : store)
    (index_name : string) (e : E) (text : string) (q : vec) (top_k : Z) :
  Spec.collection_store index_name st ->
  prepare e = Return text -> py.strip_nonempty text = true ->
  embed_single_text text = Some q ->
  length (normalize q) = dimension st -> (0 < top_k)%Z ->
  length (MatchingService.find_matches prepare st index_name e top_k)
  = Nat.min (Z.to_nat top_k) (faiss.ntotal (index st)).
Proof.
  intros (Hwf & Hbij & Hcol) Hp Ht Hq Hd Hk.
  destruct (search_count_of_collection st index_name q top_k Hbij Hcol Hk)
    as (results & Hs & Hlen).
  { rewrite Hd. symmetry. apply Hwf. }
  by rewrite (find_matches_returns prepare st index_name e top_k text q results).
Qed.


End service_counts.


(** ** A service started without files *)

Lemma length_normalize `{Numpy} (v : vec) : length (normalize v) = length v.
Proof.
  unfold normalize. destruct (Qlt_bool _ _); [|done].
  unfold np.divide. apply length_map.
Qed.


